(** * llm-foundry: text-to-MDS data preparation and MPT model construction

    A shallow embedding of
    - [llmfoundry/command_utils/data_prep/convert_text_to_mds.py] and
    - [llmfoundry/models/mpt/modeling_mpt.py]
    together with the properties of the specification that concern them.

    Python values are embedded as follows: [int] is [Z] (unbounded, as in
    Python); [str] is a list of Unicode code points; a raised exception is the
    [Raise] branch of [result]; a loop that may not terminate takes fuel and a
    generator is the list of the values it yields. *)

From Stdlib Require Import ZArith List Lia Bool.
From Stdlib Require PrimFloat Uint63.
From stdpp Require Import gmap strings list fin_maps pretty.

Local Open Scope Z_scope.

(** ** Python exceptions and results *)

Module Py.

(** The exception classes raised in the two source files. The argument of an
    exception is the constant part of its message. *)
Inductive exn :=
| ValueError (msg : string)
| KeyError (msg : string)
| TypeError (msg : string)
| IndexError (msg : string)
| AttributeError (msg : string)
| RuntimeError (msg : string)
| NotImplementedError (msg : string)
| FileNotFoundError
| InputFolderNotFound
| InputFolderMissingDataError
| OutputFolderNotEmptyError
| DatasetTooSmallError
| CannotUnicodeDecodeFile
| UnicodeEncodeError
| AssertionError.

Inductive result (A : Type) :=
| Ok (a : A)
| Raise (e : exn).
Arguments Ok {A} a.
Arguments Raise {A} e.

Definition bind {A B} (r : result A) (k : A -> result B) : result B :=
  match r with
  | Ok a => k a
  | Raise e => Raise e
  end.

Definition is_Ok {A} (r : result A) : Prop :=
  match r with Ok _ => True | Raise _ => False end.

Definition is_Raise {A} (r : result A) : Prop :=
  match r with Ok _ => False | Raise _ => True end.

(** [l[:n]] and [l[n:]] for a list [l] and an integer [n], with Python's
    treatment of a negative [n] (counted from the end, clipped at 0). *)
Definition slice_to {A} (n : Z) (l : list A) : list A :=
  if 0 <=? n then take (Z.to_nat n) l
  else take (Z.to_nat (Z.of_nat (length l) + n)) l.

Definition slice_from {A} (n : Z) (l : list A) : list A :=
  if 0 <=? n then drop (Z.to_nat n) l
  else drop (Z.to_nat (Z.of_nat (length l) + n)) l.

(** [l * n] for a list [l] and an integer [n]: empty when [n <= 0]. *)
Fixpoint repeat_list {A} (l : list A) (n : nat) : list A :=
  match n with
  | O => []
  | S n' => l ++ repeat_list l n'
  end.

Definition list_mul {A} (l : list A) (n : Z) : list A :=
  repeat_list l (Z.to_nat n).

End Py.

Export Py.

(** [result] is a monad; stdpp's notation [x ← r; k] sequences fallible
    steps the way Python propagates an exception. *)
#[global] Instance result_ret : MRet result := @Ok.
#[global] Instance result_bind : MBind result :=
  fun A B k r => Py.bind r k.
#[global] Instance result_fmap : FMap result :=
  fun A B f r => Py.bind r (fun a => Ok (f a)).

(** ** convert_text_to_mds.py *)

Module ConvertTextToMds.

(** A Python [str]: the sequence of its code points. *)
Definition pystr := list N.

(** The code points of an ASCII literal. *)
Fixpoint str (s : string) : pystr :=
  match s with
  | EmptyString => []
  | String a s' => Ascii.N_of_ascii a :: str s'
  end.

(** *** ConcatTokensFromFilesDataset *)

(** The attributes that [AbstractConcatTokensDataset.__init__] leaves on the
    dataset and that [__iter__] reads. *)
Record ConcatTokensDataset := {
  max_length : Z;
  bos_tokens : list Z;
  eos_tokens : list Z;
  should_wrap : bool;
}.

(** How an iteration of the generator ends: it is exhausted (with what is
    left in the buffer), it raises, or the loop is still running when the fuel
    is spent. *)
Inductive ending :=
| Exhausted (buffer : list Z)
| Raised (e : exn)
| Running.

Section Concat.

(** [tokenizer chunk] is [encoded['input_ids']] for a chunk of text, and
    [bos_token_id] is [tokenizer.bos_token_id]. *)
Variable tokenizer : pystr -> list Z.
Variable bos_token_id : option Z.
Variable ds : ConcatTokensDataset.

(** [while len(buffer) >= self.max_length: ... yield ...]: the windows
    yielded, and the buffer when the loop is left ([None]: out of fuel). *)
Fixpoint yield_windows (fuel : nat) (buffer : list Z)
  : list (list Z) * option (list Z) :=
  match fuel with
  | O => ([], None)
  | S fuel' =>
      if max_length ds <=? Z.of_nat (length buffer) then
        let concat_sample := slice_to (max_length ds) buffer in
        let buffer' :=
          if should_wrap ds then slice_from (max_length ds) buffer else [] in
        let '(ws, b) := yield_windows fuel' buffer' in
        (concat_sample :: ws, b)
      else ([], Some buffer)
  end.

(** The loop over the chunks of one file. A chunk is what one
    [f.read(1000000)] returns, [None] when the read fails with a
    [UnicodeDecodeError]. *)
Fixpoint iter_chunks (fuel : nat) (chunks : list (option pystr))
  (first_chunk : bool) (buffer : list Z) : list (list Z) * ending :=
  match chunks with
  | [] => ([], Exhausted buffer)
  | None :: _ => ([], Raised CannotUnicodeDecodeFile)
  | Some chunk :: chunks' =>
      let iids := tokenizer chunk in
      let stripped :=
        if first_chunk then Ok iids
        else match iids with
             | [] => Raise (IndexError "list index out of range")
             | t :: rest =>
                 if bool_decide (Some t = bos_token_id) then Ok rest
                 else Ok iids
             end in
      match stripped with
      | Raise e => ([], Raised e)
      | Ok iids' =>
          match yield_windows fuel (buffer ++ iids') with
          | (ws, None) => (ws, Running)
          | (ws, Some buffer') =>
              let '(ws', e) := iter_chunks fuel chunks' false buffer' in
              (ws ++ ws', e)
          end
      end
  end.

(** The loop over the files; a file is the list of the chunks that
    [f.read(1000000)] returns before the empty string. *)
Fixpoint iter_files (fuel : nat) (files : list (list (option pystr)))
  (buffer : list Z) : list (list Z) * ending :=
  match files with
  | [] =>
      match yield_windows fuel buffer with
      | (ws, None) => (ws, Running)
      | (ws, Some buffer') => (ws, Exhausted buffer')
      end
  | file :: files' =>
      match iter_chunks fuel file true (buffer ++ bos_tokens ds) with
      | (ws, Exhausted buffer') =>
          let '(ws', e) := iter_files fuel files' (buffer' ++ eos_tokens ds) in
          (ws ++ ws', e)
      | (ws, e) => (ws, e)
      end
  end.

(** [ConcatTokensFromFilesDataset.__iter__] *)
Definition __iter__ (fuel : nat) (files : list (list (option pystr)))
  : list (list Z) * ending :=
  iter_files fuel files [].

End Concat.

(** A tokenizer for examples: one token per character, its code point. *)
Definition char_tokenizer (chunk : pystr) : list Z := map Z.of_N chunk.

(** The dataset of the specification's example: no BOS text, an EOS text of
    one token, windows of 8 tokens, wrapping enabled. *)
Definition window8 (eos : list Z) : ConcatTokensDataset :=
  {| max_length := 8; bos_tokens := []; eos_tokens := eos;
     should_wrap := true |}.

(** *** Paths, text files and the done file *)

Definition DONE_FILENAME : pystr := str ".text_to_mds_conversion_done".

Definition sep : N := 47%N.  (* '/' *)
Definition LF : N := 10%N.   (* '\n' *)
Definition CR : N := 13%N.   (* '\r' *)

(** [os.path.join(a, b)] of [posixpath]. *)
Definition path_join (a b : pystr) : pystr :=
  match b with
  | c :: _ => if bool_decide (c = sep) then b
              else match last a with
                   | None => a ++ b
                   | Some d => if bool_decide (d = sep) then a ++ b
                               else a ++ sep :: b
                   end
  | [] => match last a with
          | None => a ++ b
          | Some d => if bool_decide (d = sep) then a ++ b
                      else a ++ sep :: b
          end
  end.

(** The line boundaries of [str.splitlines]: \n, \r, \x0b, \x0c, \x1c,
    \x1d, \x1e, \x85, U+2028 and U+2029. *)
Definition is_line_boundary (c : N) : bool :=
  bool_decide (c ∈ [10; 13; 11; 12; 28; 29; 30; 133; 8232; 8233]%N).

(** [s.splitlines()]: the lines without their boundaries; \r\n is one
    boundary, and a final boundary opens no further line. [line] holds the
    current line, last character first. *)
Fixpoint splitlines_from (line : pystr) (s : pystr) : list pystr :=
  match s with
  | [] => match line with [] => [] | _ => [rev line] end
  | c :: s' =>
      if bool_decide (c = CR) then
        match s' with
        | d :: s'' =>
            if bool_decide (d = LF) then rev line :: splitlines_from [] s''
            else rev line :: splitlines_from [] s'
        | [] => rev line :: splitlines_from [] s'
        end
      else if is_line_boundary c then rev line :: splitlines_from [] s'
      else splitlines_from (c :: line) s'
  end.

Definition splitlines (s : pystr) : list pystr := splitlines_from [] s.

(** A string without a line boundary: [splitlines] keeps it in one piece. *)
Definition one_line (s : pystr) : Prop :=
  Forall (fun c => is_line_boundary c = false) s.

(** ['\n'.join(l)] *)
Fixpoint join_lines (l : list pystr) : pystr :=
  match l with
  | [] => []
  | [x] => x
  | x :: l' => x ++ LF :: join_lines l'
  end.

(** What [read()] returns for a file opened in text mode with the default
    [newline=None]: \r\n and \r are translated to \n. (Writing in text mode
    translates \n to [os.linesep], which is \n on POSIX.) *)
Fixpoint universal_newlines (s : pystr) : pystr :=
  match s with
  | [] => []
  | c :: s' =>
      if bool_decide (c = CR) then
        match s' with
        | d :: s'' =>
            if bool_decide (d = LF) then LF :: universal_newlines s''
            else LF :: universal_newlines s'
        | [] => LF :: universal_newlines s'
        end
      else c :: universal_newlines s'
  end.

(** The state outside the process: the regular files of the local file
    system with their text, its directories with their listing, and the
    objects of the remote stores, keyed by store and object name. *)
Record World := {
  files : gmap pystr pystr;
  dirs : gmap pystr (list pystr);
  objects : gmap (pystr * pystr) pystr;
}.

Definition isfile (w : World) (p : pystr) : bool :=
  bool_decide (is_Some (files w !! p)).

(** [os.path.isdir('')] is false. *)
Definition isdir (w : World) (p : pystr) : bool :=
  negb (bool_decide (p = [])) && bool_decide (is_Some (dirs w !! p)).

Definition listdir (w : World) (p : pystr) : result (list pystr) :=
  match dirs w !! p with
  | Some l => if bool_decide (p = []) then Raise FileNotFoundError else Ok l
  | None => Raise FileNotFoundError
  end.

(** [open(path).read()] *)
Definition read_text (w : World) (path : pystr) : result pystr :=
  match files w !! path with
  | Some s => Ok (universal_newlines s)
  | None => Raise FileNotFoundError
  end.

(** A code point that the encoding of a text file can write. The encoding
    is that of the locale, taken to be UTF-8, with strict error handling: a
    surrogate (U+D800 to U+DFFF), as [os.fsdecode] puts into the name of a
    file whose bytes are not UTF-8, is refused. *)
Definition encodable (c : N) : bool :=
  negb ((55296 <=? c)%N && (c <=? 57343)%N).

(** [with open(os.path.join(folder, name), 'w') as f: f.write(s)]: the folder
    has to exist (the empty folder stands for the working directory); [write]
    encodes the text and raises [UnicodeEncodeError] when it cannot; the file
    is created or truncated and enters the listing of its folder. *)
Definition write_text (w : World) (folder name s : pystr) : result World :=
  if bool_decide (folder = []) || isdir w folder then
    if forallb encodable s then
      Ok {| files := <[path_join folder name := s]> (files w);
            dirs := match dirs w !! folder with
                    | Some l => if bool_decide (name ∈ l) then dirs w
                                else <[folder := l ++ [name]]> (dirs w)
                    | None => dirs w
                    end;
            objects := objects w |}
    else Raise UnicodeEncodeError
  else Raise FileNotFoundError.

(** A tokenizer as far as this file reads it. *)
Record Tokenizer := {
  eos_token : option pystr;
}.

(** The arguments that [get_task_args] hands on to [download_and_convert]. *)
Record ConvertArgs := {
  file_names : list pystr;
  ca_output_folder : pystr;
  ca_input_folder : pystr;
  ca_tokenizer_name : pystr;
  ca_concat_tokens : Z;
  ca_eos_text : pystr;
  ca_bos_text : pystr;
  ca_no_wrap : bool;
  ca_compression : pystr;
  ca_trust_remote_code : bool;
}.

(** The collaborators outside this file: [composer.utils], [transformers],
    [streaming], [tempfile], [os.walk] with [glob], [json], and the helpers
    of [llmfoundry.utils.data_prep_utils]. *)
Record Collaborators := {
  (** [parse_uri(uri)]: backend, bucket and path. *)
  parse_uri : pystr -> pystr * pystr * pystr;
  (** [maybe_create_object_store_from_uri(uri)]: the store, [None] for a
      local path. *)
  maybe_create_object_store_from_uri : pystr -> result (option pystr);
  (** [object_store.list_objects(prefix)] *)
  list_objects : World -> pystr -> pystr -> result (list pystr);
  (** [[f for dirpath, _, _ in os.walk(folder)
         for f in glob(os.path.join(dirpath, '*.txt'))]] *)
  walk_glob_txt : World -> pystr -> list pystr;
  (** [AutoTokenizer.from_pretrained(name, trust_remote_code=...)] *)
  from_pretrained : pystr -> bool -> result Tokenizer;
  (** [tempfile.TemporaryDirectory().name] *)
  temporary_directory : World -> pystr;
  (** [download_and_convert] as far as it acts on the world: download,
      tokenize, write the shards with [MDSWriter]. *)
  download_and_convert : World -> ConvertArgs -> result World;
  (** [download_file(object_store, object_name, output_filename)] of
      [llmfoundry.utils.data_prep_utils], which is not part of these
      sources: the bytes that it leaves in the local file. *)
  download_file : World -> pystr -> pystr -> result pystr;
  (** [merge_shard_groups(folder)] *)
  merge_shard_groups : World -> pystr -> result World;
  (** [bool(json.load(open(index_path))['shards'])] *)
  index_has_shards : World -> pystr -> result bool;
  (** [_configure_logging(logging_level)]: [logging.basicConfig] and the
      two [setLevel(logging_level.upper())], which raise [ValueError] for a
      level that [logging] does not know. *)
  configure_logging : pystr -> result unit;
  (** [str(args)] for the dictionary of arguments that
      [convert_text_to_mds_from_args] builds. *)
  str_of_args :
    pystr -> pystr -> pystr -> pystr -> Z -> pystr -> pystr -> bool -> Z ->
    bool -> bool -> pystr;
}.

Section Pipeline.

Variable env : Collaborators.

(** [name.endswith('.txt')] *)
Definition endswith_txt (name : pystr) : bool :=
  bool_decide (drop (length name - 4)%nat name = str ".txt").

Definition get_object_names (w : World) (input_folder : pystr)
  : result (list pystr) :=
  object_store ← maybe_create_object_store_from_uri env input_folder;
  match object_store with
  | Some store =>
      let '(_, _, folder_prefix) := parse_uri env input_folder in
      match list_objects env w store folder_prefix with
      | Ok names => Ok (filter (fun name => endswith_txt name = true) names)
      | Raise FileNotFoundError => Raise InputFolderNotFound
      | Raise e => Raise e
      end
  | None => Ok (walk_glob_txt env w input_folder)
  end.

(** [math.ceil(a / b)] for integers with [b > 0]. *)
Definition ceil_div (a b : Z) : Z := (a + b - 1) / b.

(** [object_names[i:min(i + objs_per_group, num_objects)]] for
    [i in range(0, num_objects, objs_per_group)] *)
Fixpoint groups_from (n : nat) (objs_per_group : nat) (names : list pystr)
  : list (list pystr) :=
  match n with
  | O => []
  | S n' =>
      match names with
      | [] => []
      | _ => take objs_per_group names
             :: groups_from n' objs_per_group (drop objs_per_group names)
      end
  end.

(** [get_task_args]: one tuple of arguments per group; [range] rejects the
    step 0, which an empty list of names produces. *)
Definition get_task_args (object_names : list pystr)
  (output_root input_folder : pystr) (n_groups : Z)
  (tokenizer_name : pystr) (concat_tokens : Z) (eos_text bos_text : pystr)
  (no_wrap : bool) (compression : pystr) (trust_remote_code : bool)
  : result (list ConvertArgs) :=
  let num_objects := Z.of_nat (length object_names) in
  let objs_per_group := ceil_div num_objects n_groups in
  if objs_per_group =? 0 then
    Raise (ValueError "range() arg 3 must not be zero")
  else
    Ok (imap (fun group names =>
                {| file_names := names;
                   ca_output_folder :=
                     path_join output_root (str (pretty (N.of_nat group)));
                   ca_input_folder := input_folder;
                   ca_tokenizer_name := tokenizer_name;
                   ca_concat_tokens := concat_tokens;
                   ca_eos_text := eos_text;
                   ca_bos_text := bos_text;
                   ca_no_wrap := no_wrap;
                   ca_compression := compression;
                   ca_trust_remote_code := trust_remote_code |})
              (groups_from (length object_names) (Z.to_nat objs_per_group)
                 object_names)).

Definition is_remote_path (path : pystr) : bool :=
  let '(backend, _, _) := parse_uri env path in
  negb (bool_decide (backend = [])).

(** The comparison of the stored names with the current ones, name by
    name; the lists have the same length here. *)
Fixpoint names_agree (prev_names object_names : list pystr) : bool :=
  match prev_names, object_names with
  | prev_name :: prev', name :: names' =>
      if bool_decide (name = prev_name) then names_agree prev' names'
      else false
  | _, _ => true
  end.

Definition is_already_processed (w : World) (output_root args_str : pystr)
  (object_names : list pystr) : result bool :=
  output_object_store ← maybe_create_object_store_from_uri env output_root;
  found ←
    match output_object_store with
    | Some store =>
        let '(_, _, output_folder_prefix) := parse_uri env output_root in
        match download_file env w store
                (path_join output_folder_prefix DONE_FILENAME) with
        | Ok s => Ok (Some (splitlines (universal_newlines s)))
        | Raise FileNotFoundError => Ok None
        | Raise e => Raise e
        end
    | None =>
        let done_file := path_join output_root DONE_FILENAME in
        if isfile w done_file then
          s ← read_text w done_file; Ok (Some (splitlines s))
        else Ok None
    end;
  match found with
  | None => Ok false
  | Some done_file_contents =>
      match done_file_contents with
      | [] => Raise (IndexError "list index out of range")
      | prev_args_str :: prev_names =>
          if negb (bool_decide (prev_args_str = args_str)) then Ok false
          else if negb (length prev_names =? length object_names)%nat
          then Ok false
          else Ok (names_agree prev_names object_names)
      end
  end.

Definition write_done_file (w : World) (folder args_str : pystr)
  (object_names : list pystr) : result World :=
  write_text w folder DONE_FILENAME
    (join_lines (args_str :: object_names) ++ [LF]).

(** The upload of the local output folder to the remote location. *)
Fixpoint upload_files (w : World) (store output_folder_prefix
  local_output_folder : pystr) (files_to_upload : list pystr)
  : result World :=
  match files_to_upload with
  | [] => Ok w
  | file :: rest =>
      if isdir w file then Raise AssertionError
      else
        s ← match files w !! path_join local_output_folder file with
            | Some s => Ok s
            | None => Raise FileNotFoundError
            end;
        upload_files
          {| files := files w; dirs := dirs w;
             objects := <[(store, path_join output_folder_prefix file) := s]>
                          (objects w) |}
          store output_folder_prefix local_output_folder rest
  end.

(** [list(executor.map(download_and_convert_starargs, args))]: the groups are
    independent; their effects on the world are taken in the order of the
    groups. *)
Fixpoint convert_groups (w : World) (tasks : list ConvertArgs)
  : result World :=
  match tasks with
  | [] => Ok w
  | task :: rest => w' ← download_and_convert env w task; convert_groups w' rest
  end.

Definition convert_text_to_mds (w : World)
  (tokenizer_name output_folder input_folder : pystr) (concat_tokens : Z)
  (eos_text bos_text : pystr) (no_wrap : bool) (compression : pystr)
  (processes : Z) (args_str : pystr) (reprocess trust_remote_code : bool)
  : result World :=
  _ ← from_pretrained env tokenizer_name trust_remote_code;
  let is_remote_output := is_remote_path output_folder in
  object_names ← get_object_names w input_folder;
  if (length object_names =? 0)%nat then Raise InputFolderMissingDataError
  else
    already ←
      (if reprocess then Ok false
       else is_already_processed w output_folder args_str object_names);
    if (already : bool) then Ok w
    else
      let local_output_folder :=
        if is_remote_output then temporary_directory env w else output_folder in
      nonempty ←
        (if isdir w output_folder then
           l ← listdir w output_folder; Ok (0 <? length l)%nat
         else Ok false);
      if (nonempty : bool) then Raise OutputFolderNotEmptyError
      else
        w1 ←
          (if 1 <? processes then
             tasks ← get_task_args object_names local_output_folder
                       input_folder processes tokenizer_name concat_tokens
                       eos_text bos_text no_wrap compression
                       trust_remote_code;
             w' ← convert_groups w tasks;
             merge_shard_groups env w' local_output_folder
           else
             download_and_convert env w
               {| file_names := object_names;
                  ca_output_folder := local_output_folder;
                  ca_input_folder := input_folder;
                  ca_tokenizer_name := tokenizer_name;
                  ca_concat_tokens := concat_tokens;
                  ca_eos_text := eos_text;
                  ca_bos_text := bos_text;
                  ca_no_wrap := no_wrap;
                  ca_compression := compression;
                  ca_trust_remote_code := trust_remote_code |});
        shards ← index_has_shards env w1
                   (path_join local_output_folder (str "index.json"));
        if negb shards then Raise DatasetTooSmallError
        else
          w2 ← write_done_file w1 local_output_folder args_str object_names;
          if is_remote_output then
            output_object_store ←
              maybe_create_object_store_from_uri env output_folder;
            let '(_, _, output_folder_prefix) := parse_uri env output_folder in
            files_to_upload ← listdir w2 local_output_folder;
            match output_object_store with
            | Some store =>
                upload_files w2 store output_folder_prefix
                  local_output_folder files_to_upload
            | None =>
                match files_to_upload with
                | [] => Ok w2
                | _ => Raise (AttributeError
                         "'NoneType' object has no attribute 'upload_object'")
                end
            end
          else Ok w2.

(** [convert_text_to_mds_from_args] (the assignment to [os.environ] is
    left out). With [use_tokenizer_eos], the source builds a [ValueError]
    when [eos_text] is given, in an expression statement: the exception
    object is dropped and nothing is raised. *)
Definition convert_text_to_mds_from_args (w : World)
  (output_folder input_folder compression : pystr) (concat_tokens : Z)
  (tokenizer_name : pystr) (bos_text eos_text : option pystr)
  (use_tokenizer_eos no_wrap : bool) (processes : Z)
  (reprocess trust_remote_code : bool) (logging_level : pystr)
  : result World :=
  eos_text ←
    (if use_tokenizer_eos then
       let _ :=
         match eos_text with
         | Some _ =>
             Some (ValueError
               "Cannot set --eos_text with --use_tokenizer_eos. Please specify one.")
         | None => None
         end in
       tokenizer ← from_pretrained env tokenizer_name trust_remote_code;
       Ok (eos_token tokenizer)
     else Ok eos_text);
  let bos_text := default [] bos_text in
  let eos_text := default [] eos_text in
  _ ← configure_logging env logging_level;
  convert_text_to_mds w tokenizer_name output_folder input_folder
    concat_tokens eos_text bos_text no_wrap compression processes
    (str_of_args env tokenizer_name output_folder input_folder compression
       concat_tokens eos_text bos_text no_wrap processes reprocess
       trust_remote_code)
    reprocess trust_remote_code.

End Pipeline.

(** *** A local run, for examples *)

(** Collaborators of a run on the local file system: every path is local,
    the input folder holds the one text file [in/a.txt], and the conversion
    leaves an [index.json] with shards in its output folder. *)
Definition local_env : Collaborators :=
  {| parse_uri := fun uri => ([], [], uri);
     maybe_create_object_store_from_uri := fun _ => Ok None;
     list_objects := fun _ _ _ => Ok [];
     walk_glob_txt := fun _ _ => [str "in/a.txt"];
     from_pretrained := fun _ _ => Ok {| eos_token := Some (str "</s>") |};
     temporary_directory := fun _ => str "/tmp/out";
     download_and_convert := fun w args =>
       write_text w (ca_output_folder args) (str "index.json")
         (str "{'shards': [0]}");
     download_file := fun _ _ _ => Raise FileNotFoundError;
     merge_shard_groups := fun w _ => Ok w;
     index_has_shards := fun w path => Ok (isfile w path);
     configure_logging := fun _ => Ok tt;
     str_of_args := fun _ _ _ _ _ _ _ _ _ _ _ => str "{'tokenizer': 'gpt2'}";
  |}.

(** A world whose output folder [out] lists the names [listing]. *)
Definition world_with_output (listing : list pystr) : World :=
  {| files := ∅; dirs := {[ str "out" := listing ]}; objects := ∅ |}.

(** A file name with the file separator U+001C in it. *)
Definition separator_name : pystr := [97; 28; 98]%N.

(** *** The token stream of a list of files *)

(** [iids[1:]] when [iids[0]] is the BOS token of the tokenizer. *)
Definition strip_bos (bos_token_id : option Z) (iids : list Z) : list Z :=
  match iids with
  | t :: rest => if bool_decide (Some t = bos_token_id) then rest else iids
  | [] => []
  end.

(** The tokens that the chunks of one file add to the buffer. *)
Fixpoint chunks_stream (tokenizer : pystr -> list Z) (bos_token_id : option Z)
  (first_chunk : bool) (chunks : list (option pystr)) : list Z :=
  match chunks with
  | [] => []
  | None :: _ => []
  | Some chunk :: chunks' =>
      (if first_chunk then tokenizer chunk
       else strip_bos bos_token_id (tokenizer chunk))
      ++ chunks_stream tokenizer bos_token_id false chunks'
  end.

(** The tokens that the files add to the buffer, in order: for each file
    the BOS tokens, the tokens of its chunks, the EOS tokens. *)
Definition token_stream (tokenizer : pystr -> list Z)
  (bos_token_id : option Z) (ds : ConcatTokensDataset)
  (files : list (list (option pystr))) : list Z :=
  concat (map (fun file =>
                 bos_tokens ds
                 ++ chunks_stream tokenizer bos_token_id true file
                 ++ eos_tokens ds) files).

(** Every read of the chunks decodes, and every chunk after the first one
    of its file has at least one token. *)
Fixpoint chunks_readable (tokenizer : pystr -> list Z) (first_chunk : bool)
  (chunks : list (option pystr)) : Prop :=
  match chunks with
  | [] => True
  | None :: _ => False
  | Some chunk :: chunks' =>
      (first_chunk = false -> tokenizer chunk <> [])
      /\ chunks_readable tokenizer false chunks'
  end.

Definition files_readable (tokenizer : pystr -> list Z)
  (files : list (list (option pystr))) : Prop :=
  Forall (chunks_readable tokenizer true) files.


(** *** A remote run, for examples *)

Definition empty_world : World := {| files := ∅; dirs := ∅; objects := ∅ |}.

(** Collaborators of a run whose output is remote: the output is the
    prefix [mds] of the store [bucket], the temporary folder is [/tmp/out],
    and the conversion creates its output folder and leaves an [index.json]
    with shards in it. *)
Definition remote_env : Collaborators :=
  {| parse_uri := fun uri => (str "s3", str "bucket", str "mds");
     maybe_create_object_store_from_uri := fun uri =>
       if bool_decide (uri = str "s3://bucket/mds") then Ok (Some (str "bucket"))
       else Ok None;
     list_objects := fun _ _ _ => Ok [];
     walk_glob_txt := fun _ _ => [str "in/a.txt"];
     from_pretrained := fun _ _ => Ok {| eos_token := Some (str "</s>") |};
     temporary_directory := fun _ => str "/tmp/out";
     download_and_convert := fun w args =>
       write_text
         {| files := files w;
            dirs := <[ca_output_folder args :=
                        default [] (dirs w !! ca_output_folder args)]> (dirs w);
            objects := objects w |}
         (ca_output_folder args) (str "index.json") (str "{'shards': [0]}");
     download_file := fun _ _ _ => Raise FileNotFoundError;
     merge_shard_groups := fun w _ => Ok w;
     index_has_shards := fun w path => Ok (isfile w path);
     configure_logging := fun _ => Ok tt;
     str_of_args := fun _ _ _ _ _ _ _ _ _ _ _ => str "{'tokenizer': 'gpt2'}";
  |}.

(** The world that the remote run of the example leaves. *)
Definition remote_run_world : World :=
  match convert_text_to_mds remote_env empty_world (str "gpt2")
          (str "s3://bucket/mds") (str "in") 8 (str "</s>") [] false
          (str "zstd") 1 (str "args") true false with
  | Ok w => w
  | Raise _ => empty_world
  end.

End ConvertTextToMds.

(** ** modeling_mpt.py *)

Module ModelingMpt.

#[local] Set Warnings "-register-all".

Definition CROSS_ENTROPY_IGNORE_INDEX : Z := -100.

(** *** Configuration values *)

(** The values of a configuration dictionary. A [dict] keeps its items in
    insertion order, with one item per key. *)
Inductive pyval :=
| VNone
| VBool (b : bool)
| VInt (z : Z)
| VFloat (x : PrimFloat.float)
| VStr (s : string)
| VList (l : list pyval)
| VDict (d : list (string * pyval)).

Definition dict := list (string * pyval).

Inductive pytype := TNone | TBool | TInt | TFloat | TStr | TList | TDict.

#[global] Instance pytype_eq_dec : EqDecision pytype.
Proof. solve_decision. Defined.

(** [type(v)] *)
Definition type_of (v : pyval) : pytype :=
  match v with
  | VNone => TNone
  | VBool _ => TBool
  | VInt _ => TInt
  | VFloat _ => TFloat
  | VStr _ => TStr
  | VList _ => TList
  | VDict _ => TDict
  end.

(** [d.get(k)] *)
Fixpoint dict_get (d : dict) (k : string) : option pyval :=
  match d with
  | [] => None
  | (k', v) :: d' => if bool_decide (k' = k) then Some v else dict_get d' k
  end.

(** [k in d] *)
Definition dict_has (d : dict) (k : string) : bool :=
  bool_decide (is_Some (dict_get d k)).

(** [d[k] = v]: in place for a key of [d], at the end for a new key. *)
Fixpoint dict_set (d : dict) (k : string) (v : pyval) : dict :=
  match d with
  | [] => [(k, v)]
  | (k', v') :: d' =>
      if bool_decide (k' = k) then (k, v) :: d'
      else (k', v') :: dict_set d' k v
  end.

(** [a | b] *)
Definition dict_union (a b : dict) : dict :=
  fold_left (fun acc kv => dict_set acc (fst kv) (snd kv)) b a.

(** [sub in s] for two strings. *)
Fixpoint is_substring (sub s : string) : bool :=
  String.prefix sub s ||
  match s with
  | EmptyString => false
  | String _ s' => is_substring sub s'
  end.

(** [k in v] for a string [k]: a key of a dict, a substring of a string, an
    element of a list; other values are not iterable. *)
Definition py_contains (k : string) (v : pyval) : result bool :=
  match v with
  | VDict d => Ok (dict_has d k)
  | VStr s => Ok (is_substring k s)
  | VList l =>
      Ok (existsb (fun x => match x with
                            | VStr s => bool_decide (s = k)
                            | _ => false
                            end) l)
  | _ => Raise (TypeError "argument is not iterable")
  end.

(** [v[k]] for a string [k]. *)
Definition py_getitem (v : pyval) (k : string) : result pyval :=
  match v with
  | VDict d =>
      match dict_get d k with
      | Some x => Ok x
      | None => Raise (KeyError k)
      end
  | VStr _ => Raise (TypeError "string indices must be integers")
  | VList _ => Raise (TypeError "list indices must be integers or slices")
  | _ => Raise (TypeError "object is not subscriptable")
  end.

(** [l[i]] for a list and an integer: a negative index counts from the
    end. *)
Definition list_getitem {A} (l : list A) (i : Z) : result A :=
  let j := if i <? 0 then i + Z.of_nat (length l) else i in
  if j <? 0 then Raise (IndexError "list index out of range")
  else match l !! Z.to_nat j with
       | Some x => Ok x
       | None => Raise (IndexError "list index out of range")
       end.

(** [float(i)] for a non-negative integer [i] below 2^53, where the
    conversion is exact: the index of a layer, a count of targets. *)
Definition float_of_int (i : Z) : PrimFloat.float :=
  PrimFloat.of_uint63 (Uint63.of_Z i).

(** *** The order of the blocks *)

(** An entry of [block_overrides['order']]: a dict with the optional keys
    [repeat], [name] and [order]. *)
Inductive order_item :=
| OrderItem (repeat : option Z) (name : option string)
            (order : option (list order_item)).

(** The body of the loop of [_get_modules_order_expanded] for one item; the
    inner [fix] is the recursive call on [item['order']]. *)
Fixpoint expand_item (item : order_item) : result (list string) :=
  match item with
  | OrderItem repeat name order =>
      let repeat := default 1 repeat in
      match name, order with
      | Some n, None => Ok (list_mul [n] repeat)
      | None, Some o =>
          l ← (fix expand (o : list order_item) : result (list string) :=
                 match o with
                 | [] => Ok []
                 | i :: o' =>
                     x ← expand_item i; xs ← expand o'; Ok (x ++ xs)
                 end) o;
          Ok (list_mul l repeat)
      | _, _ =>
          Raise (ValueError
            "Exactly one of `order` or `name` must be specified for each block override.")
      end
  end.

Fixpoint _get_modules_order_expanded (order : list order_item)
  : result (list string) :=
  match order with
  | [] => Ok []
  | item :: order' =>
      x ← expand_item item;
      xs ← _get_modules_order_expanded order';
      Ok (x ++ xs)
  end.

(** *** Overriding the arguments of a block *)

(** [_override_block_args] by recursion on the override dictionary. The
    source visits the common keys in the order of a Python set, which is
    unspecified; here they are visited in the order of [override_config].
    The dictionary returned does not depend on that order; which exception
    is raised, when several keys raise, does. *)
Fixpoint override_block_args_val (block_args : dict) (override_config : pyval)
  (allowed_block_overrides : dict) {struct override_config} : result dict :=
  match override_config with
  | VDict oc =>
      if existsb (fun kv => negb (dict_has allowed_block_overrides (fst kv))) oc
      then Raise (KeyError "Overriding unpermitted keys is not supported.")
      else
        (fix loop (items : list (string * pyval)) (new_block_args : dict)
           {struct items} : result dict :=
           match items with
           | [] => Ok new_block_args
           | (k, ov) :: rest =>
               match dict_get block_args k with
               | None => loop rest new_block_args
               | Some bv =>
                   if negb (bool_decide (type_of ov = type_of bv)) then
                     Raise (ValueError
                       "Override config should have same value types as the original config.")
                   else
                     match ov with
                     | VDict _ =>
                         match bv, dict_get allowed_block_overrides k with
                         | VDict bd, Some (VDict ad) =>
                             r ← override_block_args_val bd ov ad;
                             loop rest (dict_set new_block_args k (VDict r))
                         | VDict _, Some _ =>
                             Raise (AttributeError "object has no attribute 'keys'")
                         | VDict _, None => Raise (KeyError k)
                         | _, _ =>
                             Raise (AttributeError "object has no attribute 'keys'")
                         end
                     | _ => loop rest (dict_set new_block_args k ov)
                     end
               end
           end) oc (dict_union oc block_args)
  | _ => Raise (AttributeError "object has no attribute 'keys'")
  end.

Definition _override_block_args (block_args override_config
  allowed_block_overrides : dict) : result dict :=
  override_block_args_val block_args (VDict override_config)
    allowed_block_overrides.

(** *** Key/value reuse between layers *)

(** [reuse_state_layer_idx_dict[x]] guarded by [x in
    reuse_state_layer_idx_dict] for a float [x]: Python finds a key of the
    dictionary that equals the float ([1.0 in {1: 0}] holds) and gives the
    value stored under that key. The keys are indices of layers. *)
Definition float_lookup (d : gmap Z Z) (x : PrimFloat.float) : option Z :=
  snd <$> find (fun kv => PrimFloat.eqb x (float_of_int (fst kv)))
               (map_to_list d).

(** The lines of [_resolve_reuse_state_layer_idx] from the store into the
    dictionary on, where [reuse_state_layer_idx] is an integer. The last
    lines of the source build [parent_config] and drop it; they are kept for
    the exceptions they can raise. *)
Definition resolve_parent (overrides_definition : dict)
  (model_modules_order_expanded : list string) (b_idx : Z)
  (reuse_state_layer_idx_dict : gmap Z Z) (reuse_state_layer_idx : Z)
  : result (Z * gmap Z Z) :=
  let reuse_state_layer_idx_dict :=
    <[b_idx := reuse_state_layer_idx]> reuse_state_layer_idx_dict in
  parent_layer_name ←
    list_getitem model_modules_order_expanded reuse_state_layer_idx;
  parent_config ←
    (if bool_decide (parent_layer_name = "default") then Ok (VDict [])
     else match dict_get overrides_definition parent_layer_name with
          | Some v => Ok v
          | None => Raise (KeyError parent_layer_name)
          end);
  has_attn ← py_contains "attn_config" parent_config;
  parent_attn ←
    (if (has_attn : bool) then py_getitem parent_config "attn_config"
     else match (parent_config : pyval) with
          | VDict _ => Ok (VDict [])
          | VStr _ =>
              Raise (TypeError
                "'str' object does not support item assignment")
          | _ =>
              Raise (TypeError
                "list indices must be integers or slices")
          end);
  match (parent_attn : pyval) with
  | VDict _ => Ok (reuse_state_layer_idx, reuse_state_layer_idx_dict)
  | VList _ =>
      Raise (TypeError "list indices must be integers or slices")
  | _ =>
      Raise (TypeError "object does not support item assignment")
  end.

(** [_resolve_reuse_state_layer_idx]: the index of the layer whose state is
    reused, and the dictionary as the call leaves it. The offset is read as
    Python reads it: an integer or a boolean gives an integer index; a float
    gives a float index, which the dictionary replaces by the integer stored
    under an equal key, and which otherwise is refused as the index of a
    list. *)
Definition _resolve_reuse_state_layer_idx (overrides_definition : dict)
  (model_modules_order_expanded : list string) (b_idx : Z)
  (override_config : dict) (reuse_state_layer_idx_dict : gmap Z Z)
  (reuse_type : string) : result (Z * gmap Z Z) :=
  override_attn_config ←
    match dict_get override_config "attn_config" with
    | Some v => Ok v
    | None => Raise (KeyError "attn_config")
    end;
  offset ← py_getitem override_attn_config reuse_type;
  match (offset : pyval) with
  | VInt _ | VBool _ =>
      let off := match offset with
                 | VInt z => z
                 | VBool true => 1
                 | _ => 0
                 end in
      if 0 <=? off then
        Raise (ValueError
          "The relative index of kv layer to reuse should be negative.")
      else
        let reuse_state_layer_idx := b_idx + off in
        if reuse_state_layer_idx <? 0 then
          Raise (ValueError
            "The absolute index of kv layer to reuse should be non-negative.")
        else
          let reuse_state_layer_idx :=
            match reuse_state_layer_idx_dict !! reuse_state_layer_idx with
            | Some i => i
            | None => reuse_state_layer_idx
            end in
          resolve_parent overrides_definition model_modules_order_expanded
            b_idx reuse_state_layer_idx_dict reuse_state_layer_idx
  | VFloat x =>
      if PrimFloat.leb PrimFloat.zero x then
        Raise (ValueError
          "The relative index of kv layer to reuse should be negative.")
      else
        let reuse_state_layer_idx := PrimFloat.add (float_of_int b_idx) x in
        if PrimFloat.ltb reuse_state_layer_idx PrimFloat.zero then
          Raise (ValueError
            "The absolute index of kv layer to reuse should be non-negative.")
        else
          match float_lookup reuse_state_layer_idx_dict
                  reuse_state_layer_idx with
          | Some i =>
              resolve_parent overrides_definition
                model_modules_order_expanded b_idx
                reuse_state_layer_idx_dict i
          | None => Raise (TypeError "list indices must be integers or slices")
          end
  | _ => Raise (TypeError "'>=' not supported")
  end.

(** The part of [MPTConfig] that the construction of the blocks reads. *)
Record BlockOverrides := {
  bo_repeat : option Z;
  bo_order : option (list order_item);
  bo_overrides : option dict;
}.

Record MPTConfig := {
  n_layers : Z;
  block_overrides : option BlockOverrides;
  allowed_block_overrides : dict;
}.

(** What the loop of [_get_override_block_args_list] has built so far. *)
Record BuildState := {
  reuse_state_layer_idx_dicts : gmap string (gmap Z Z);
  state_cache_layers : gmap string (gset Z);
  layer_description_list : list (Z * string * dict);
  new_block_args_list : list dict;
}.

Definition initial_build_state : BuildState :=
  {| reuse_state_layer_idx_dicts :=
       {[ "reuse_kv_layer_idx" := ∅; "reuse_kv_x_layer_idx" := ∅ ]};
     state_cache_layers :=
       {[ "reuse_kv_layer_idx" := ∅; "reuse_kv_x_layer_idx" := ∅ ]};
     layer_description_list := [];
     new_block_args_list := [] |}.

(** The override of one layer, with the reuse index resolved: the part of the
    loop body before the two [append]s. *)
Definition layer_override_config (bo : BlockOverrides)
  (model_modules_order_expanded : list string) (b_idx : Z)
  (module_name : string) (st : BuildState) : result (dict * BuildState) :=
  if bool_decide (module_name = "default") then Ok ([], st)
  else
    overrides ← match bo_overrides bo with
                | Some o => Ok o
                | None => Raise (KeyError "overrides")
                end;
    override_config ← match dict_get overrides module_name with
                      | Some (VDict d) => Ok d
                      | Some _ =>
                          Raise (AttributeError "object has no attribute 'get'")
                      | None => Raise (KeyError module_name)
                      end;
    let attn_config := default (VDict []) (dict_get override_config "attn_config") in
    has_kv ← py_contains "reuse_kv_layer_idx" attn_config;
    has_kv_x ← (if (has_kv : bool) then py_contains "reuse_kv_x_layer_idx" attn_config
                else Ok false);
    if (has_kv : bool) && has_kv_x then
      Raise (ValueError
        "Only one of reuse_kv_layer_idx and reuse_kv_x_layer_idx can be specified.")
    else
      reuse_type ←
        (if (has_kv : bool) then Ok (Some "reuse_kv_layer_idx")
         else has_kv_x ← py_contains "reuse_kv_x_layer_idx" attn_config;
              Ok (if (has_kv_x : bool) then Some "reuse_kv_x_layer_idx"
                  else None));
      match (reuse_type : option string) with
      | None => Ok (override_config, st)
      | Some reuse_type =>
          '(reuse_state_layer_idx, d) ←
            _resolve_reuse_state_layer_idx overrides
              model_modules_order_expanded b_idx override_config
              (default ∅ (reuse_state_layer_idx_dicts st !! reuse_type))
              reuse_type;
          match attn_config with
          | VDict a =>
              Ok (dict_set override_config "attn_config"
                    (VDict (dict_set a reuse_type (VInt reuse_state_layer_idx))),
                  {| reuse_state_layer_idx_dicts :=
                       <[reuse_type := d]> (reuse_state_layer_idx_dicts st);
                     state_cache_layers :=
                       <[reuse_type :=
                           {[reuse_state_layer_idx]} ∪
                           default ∅ (state_cache_layers st !! reuse_type)]>
                         (state_cache_layers st);
                     layer_description_list := layer_description_list st;
                     new_block_args_list := new_block_args_list st |})
          | _ => Raise (TypeError "object does not support item assignment")
          end
      end.

(** The body of the loop of [_get_override_block_args_list] for the layer
    [i]. *)
Definition build_layer (config : MPTConfig) (bo : BlockOverrides)
  (block_args : dict) (model_modules_order_expanded : list string)
  (i : nat) (st : BuildState) : result BuildState :=
  let b_idx := Z.of_nat i in
  module_name ← list_getitem model_modules_order_expanded b_idx;
  '(override_config, st1) ←
    layer_override_config bo model_modules_order_expanded b_idx
      module_name st;
  new_block_args ←
    _override_block_args block_args override_config
      (allowed_block_overrides config);
  Ok {| reuse_state_layer_idx_dicts := reuse_state_layer_idx_dicts st1;
        state_cache_layers := state_cache_layers st1;
        layer_description_list :=
          layer_description_list st1
            ++ [(b_idx, module_name, override_config)];
        new_block_args_list :=
          new_block_args_list st1 ++ [new_block_args] |}.

(** [for b_idx in range(config.n_layers): ...] *)
Fixpoint build_layers (config : MPTConfig) (bo : BlockOverrides)
  (block_args : dict) (model_modules_order_expanded : list string)
  (indices : list nat) (st : BuildState) : result BuildState :=
  match indices with
  | [] => Ok st
  | i :: indices' =>
      st' ← build_layer config bo block_args model_modules_order_expanded
              i st;
      build_layers config bo block_args model_modules_order_expanded
        indices' st'
  end.

(** [_get_override_block_args_list]; the state returned carries the list of
    arguments, the summary that is logged and [self.state_cache_layers]. *)
Definition _get_override_block_args_list (config : MPTConfig)
  (block_args : dict) : result BuildState :=
  match block_overrides config with
  | None =>
      Raise (ValueError
        "config.block_overrides should not be None when calling _get_override_block_args_list.")
  | Some bo =>
      let repeat := default 1 (bo_repeat bo) in
      order ← match bo_order bo with
              | Some o => Ok o
              | None => Raise (KeyError "order")
              end;
      expanded ← _get_modules_order_expanded order;
      let model_modules_order_expanded := list_mul expanded repeat in
      if negb (Z.of_nat (length model_modules_order_expanded) =? n_layers config)
      then
        Raise (ValueError
          "The specified block overrides do not match the number of layers")
      else
        build_layers config bo block_args model_modules_order_expanded
          (seq 0 (Z.to_nat (n_layers config))) initial_build_state
  end.

(** *** Sequence ids of packed batches *)

(** An integer or boolean tensor of two dimensions is the list of its rows;
    [shape[0]] is the number of rows and [shape[-1]] the length of a row. The
    entries are [int64] in the source; the sums below are bounded by the
    sequence length, so they are taken in [Z]. *)
Definition shape_first {A} (t : list (list A)) : Z := Z.of_nat (length t).

Definition shape_last {A} (t : list (list A)) : Z :=
  match t with
  | [] => 0
  | row :: _ => Z.of_nat (length row)
  end.

Definition sum_Z (l : list Z) : Z := foldr Z.add 0 l.

(** [t[:, 0]] *)
Fixpoint first_column {A} (t : list (list A)) : result (list A) :=
  match t with
  | [] => Ok []
  | [] :: _ => Raise (IndexError "index 0 is out of bounds for dimension 1 with size 0")
  | (x :: _) :: t' => col ← first_column t'; Ok (x :: col)
  end.

(** [attention_mask[:, 0].sum()] *)
Definition first_column_sum (attention_mask : list (list bool)) : result Z :=
  col ← first_column attention_mask;
  Ok (sum_Z (map (fun b : bool => if b then 1 else 0) col)).

(** The elementwise operation on two tensors of one dimension, with the
    broadcasting of torch: the sizes agree, or one of them is 1. *)
Definition broadcast_with {A B C} (f : A -> B -> C) (a : list A) (b : list B)
  : result (list C) :=
  if (length a =? length b)%nat then Ok (zip_with f a b)
  else match a, b with
       | [x], _ => Ok (map (f x) b)
       | _, [y] => Ok (map (fun x => f x y) a)
       | _, _ =>
           Raise (RuntimeError
             "The size of tensor a must match the size of tensor b")
       end.

(** The results of the rows, or the first exception among them. *)
Fixpoint all_rows {A} (rows : list (result A)) : result (list A) :=
  match rows with
  | [] => Ok []
  | r :: rows' => x ← r; xs ← all_rows rows'; Ok (x :: xs)
  end.

(** The same for two dimensions. *)
Definition broadcast_rows {A B C} (f : A -> B -> C) (a : list (list A))
  (b : list (list B)) : result (list (list C)) :=
  rows ← broadcast_with (broadcast_with f) a b;
  all_rows rows.

(** [sequence_id.masked_fill(~attention_mask, 0)]. The [masked_fill] that
    returns a new tensor broadcasts the tensor and the mask to a common
    shape: ids of shape (1, S) against a mask of shape (B, S) give B rows. *)
Definition masked_fill_ids (sequence_id : list (list Z))
  (attention_mask : list (list bool)) : result (list (list Z)) :=
  broadcast_rows (fun (id : Z) (keep : bool) => if keep then id else 0)
    sequence_id attention_mask.

(** The row of [one_hot] for one id among [num_classes] classes. *)
Definition one_hot_vec (num_classes : Z) (id : Z) : list Z :=
  map (fun c => if bool_decide (c = id) then 1 else 0) (seqZ 0 num_classes).

(** [torch.nn.functional.one_hot(sequence_id)]: the number of classes is one
    more than the greatest id of the tensor. *)
Definition one_hot (sequence_id : list (list Z))
  : result (list (list (list Z))) :=
  match concat sequence_id with
  | [] => Raise (RuntimeError
            "Can not infer total number of classes from empty tensor.")
  | ids =>
      if existsb (fun id => id <? 0) ids then
        Raise (RuntimeError "Class values must be non-negative.")
      else
        let num_classes := foldr Z.max 0 ids + 1 in
        Ok (map (map (one_hot_vec num_classes)) sequence_id)
  end.

(** [sequence_id_one_hot.masked_fill(~attention_mask.unsqueeze(-1), 0)]:
    the last dimension of the mask has size 1 and is broadcast over the
    classes; the first two are broadcast as in [masked_fill_ids]. *)
Definition masked_fill_one_hot (sequence_id_one_hot : list (list (list Z)))
  (attention_mask : list (list bool)) : result (list (list (list Z))) :=
  broadcast_rows (fun (v : list Z) (keep : bool) =>
                    if keep then v else map (fun _ => 0) v)
    sequence_id_one_hot attention_mask.

(** The width of the last dimension of a one-hot tensor. *)
Definition one_hot_width (t : list (list (list Z))) : nat :=
  match concat t with
  | [] => 0%nat
  | v :: _ => length v
  end.

(** [t.sum(dim=1)] for one row of the batch: the sum of its vectors. *)
Definition sum_dim1 (width : nat) (row : list (list Z)) : list Z :=
  foldr (zip_with Z.add) (replicate width 0) row.

(** [torch.nn.functional.pad(row, (0, n), value=0)]: a negative [n] crops. *)
Definition pad_right (n : Z) (row : list Z) : list Z :=
  if 0 <=? n then row ++ replicate (Z.to_nat n) 0
  else take (Z.to_nat (Z.of_nat (length row) + n)) row.

(** [t.cumsum(dim=1)] for one row of the batch, from the running sum
    [acc]. *)
Fixpoint cumsum_from (acc : list Z) (row : list (list Z)) : list (list Z) :=
  match row with
  | [] => []
  | v :: row' =>
      let acc' := zip_with Z.add acc v in
      acc' :: cumsum_from acc' row'
  end.

Definition cumsum_dim1 (width : nat) (row : list (list Z)) : list (list Z) :=
  cumsum_from (replicate width 0) row.

Definition _get_attn_mask_in_len_seq_one_hot
  (sequence_id : option (list (list Z))) (S : Z)
  (attn_uses_sequence_id : bool) (attn_impl : string)
  (attention_mask : option (list (list bool)))
  : result (option (list (list Z)) * option (list (list (list Z)))) :=
  match sequence_id with
  | Some sequence_id =>
      if attn_uses_sequence_id && bool_decide (attn_impl = "flash") then
        left_padding ←
          match attention_mask with
          | Some m =>
              s ← first_column_sum m;
              Ok (negb (s =? shape_first m))
          | None => Ok false
          end;
        if (left_padding : bool) then
          Raise (NotImplementedError
            "Left padding is not supported with flash attention when attn_uses_sequence_id is set to True.")
        else if negb (S =? shape_last sequence_id) then
          Raise (ValueError
            "Sequence length does not match length of sequences in sequence_id.")
        else
          sequence_id ←
            match attention_mask with
            | Some m => masked_fill_ids sequence_id m
            | None => Ok sequence_id
            end;
          sequence_id_one_hot ← one_hot sequence_id;
          sequence_id_one_hot ←
            match attention_mask with
            | Some m => masked_fill_one_hot sequence_id_one_hot m
            | None => Ok sequence_id_one_hot
            end;
          let width := one_hot_width sequence_id_one_hot in
          let attention_mask_in_length :=
            map (fun row => pad_right (S - Z.of_nat width) (sum_dim1 width row))
              sequence_id_one_hot in
          Ok (Some attention_mask_in_length, Some sequence_id_one_hot)
      else Ok (None, None)
  | None => Ok (None, None)
  end.

Definition gen_attention_mask_in_length
  (sequence_id : option (list (list Z))) (S : Z)
  (attn_uses_sequence_id : bool) (attn_impl : string)
  (attention_mask : option (list (list bool)))
  : result (option (list (list Z))) :=
  r ← _get_attn_mask_in_len_seq_one_hot sequence_id S attn_uses_sequence_id
        attn_impl attention_mask;
  Ok (fst r).

(** The positions within the sequences, from the one-hot encoding: the three
    assignments to [pos_id_within_seq]. *)
Definition pos_id_within_seq_of (sequence_id_one_hot : list (list (list Z)))
  : list (list Z) :=
  let width := one_hot_width sequence_id_one_hot in
  map (fun row =>
         map (fun v => sum_Z v - 1)
           (zip_with (zip_with Z.mul) row (cumsum_dim1 width row)))
    sequence_id_one_hot.

(** [gen_sequence_id_info]; [torch.arange(S)[None, :]] is the one row
    [0, ..., S-1]. *)
Definition gen_sequence_id_info
  (sequence_id : option (list (list Z))) (S : Z)
  (attn_uses_sequence_id : bool) (attn_impl : string)
  (attention_mask : option (list (list bool)))
  : result (option (list (list Z)) * list (list Z)) :=
  r ← _get_attn_mask_in_len_seq_one_hot sequence_id S attn_uses_sequence_id
        attn_impl attention_mask;
  match snd r with
  | Some sequence_id_one_hot =>
      Ok (fst r, pos_id_within_seq_of sequence_id_one_hot)
  | None => Ok (None, [seqZ 0 S])
  end.

(** *** Loss *)

(** [torch.roll(labels, shifts=-1)]: without [dims] the tensor is flattened,
    rolled, and brought back to its shape. *)
Fixpoint unflatten {A} (lens : list nat) (flat : list A) : list (list A) :=
  match lens with
  | [] => []
  | n :: lens' => take n flat :: unflatten lens' (drop n flat)
  end.

Definition roll_left {A} (t : list (list A)) : list (list A) :=
  let flat := concat t in
  unflatten (map length t) (drop 1 flat ++ take 1 flat).

(** [t[:, -1] = v] *)
Fixpoint set_last_column {A} (v : A) (t : list (list A))
  : result (list (list A)) :=
  match t with
  | [] => Ok []
  | row :: t' =>
      match row with
      | [] => Raise (IndexError
                "index -1 is out of bounds for dimension 1 with size 0")
      | _ =>
          rest ← set_last_column v t';
          Ok ((removelast row ++ [v]) :: rest)
      end
  end.

Definition get_targets (labels : list (list Z)) : result (list (list Z)) :=
  set_last_column CROSS_ENTROPY_IGNORE_INDEX (roll_left labels).

(** [(targets != ignore_index).sum()] *)
Definition count_not_ignored (ignore_index : Z) (targets : list Z) : Z :=
  Z.of_nat (length (filter (fun t => t ≠ ignore_index) targets)).

(** [torch.all(targets == ignore_index)] *)
Definition all_ignored (ignore_index : Z) (targets : list Z) : bool :=
  forallb (fun t => bool_decide (t = ignore_index)) targets.

Section Loss.

(** The floating-point scalars of the tensor library, with the two
    operations the loss needs: the sum of a tensor, and the division of a
    scalar by an integer count. *)
Context {F : Type}.
Variable fsum : list F -> F.
Variable fdiv : F -> Z -> F.

(** The logits are only handed on to the loss function. *)
Context {Logits : Type}.

(** [loss_fn(logits.view(-1, V), targets.view(-1))] for a loss function
    built with [reduction='none'], and its [ignore_index]. *)
Variable loss_fn : Logits -> list Z -> list F.
Variable ignore_index : Z.

Definition compute_loss_from_logits (logits : Logits) (shift_labels : bool)
  (labels : list (list Z)) : result F :=
  targets ← (if shift_labels then get_targets labels else Ok labels);
  let losses := loss_fn logits (concat targets) in
  if all_ignored ignore_index (concat targets) then Ok (fsum losses)
  else Ok (fdiv (fsum losses) (count_not_ignored ignore_index (concat targets))).

(** [torch.nn.functional.cross_entropy(input, target)] with its defaults
    [ignore_index=-100] and [reduction='mean'], as torch documents it: the
    losses of the targets that are not ignored are summed and divided by the
    number of these targets. [token_loss] gives the loss of each target, zero
    for an ignored one. *)
Variable token_loss : Logits -> list Z -> list F.

Definition F_cross_entropy (logits : Logits) (target : list Z) : F :=
  fdiv (fsum (token_loss logits target))
    (count_not_ignored CROSS_ENTROPY_IGNORE_INDEX target).

(** The loss of [MPTForCausalLM.forward] for the logits it has computed. *)
Definition forward_loss (logits : Logits) (labels : option (list (list Z)))
  : result (option F) :=
  match labels with
  | None => Ok None
  | Some labels =>
      _labels ← set_last_column CROSS_ENTROPY_IGNORE_INDEX (roll_left labels);
      Ok (Some (F_cross_entropy logits (concat _labels)))
  end.

End Loss.

(** Binary64 scalars as an instance: the sum from the left, and the division
    by the count converted to a float. *)
Definition float_sum (l : list PrimFloat.float) : PrimFloat.float :=
  fold_left PrimFloat.add l PrimFloat.zero.

Definition float_div (x : PrimFloat.float) (n : Z) : PrimFloat.float :=
  PrimFloat.div x (float_of_int n).

(** A binary64 scalar that is neither NaN nor infinite. *)
Definition float_finite (x : PrimFloat.float) : Prop :=
  PrimFloat.is_nan x = false /\ PrimFloat.is_infinity x = false.

(** A loss function for examples: zero for an ignored target, one for any
    other. *)
Definition unit_loss (ignore_index : Z) (_ : unit) (targets : list Z)
  : list PrimFloat.float :=
  map (fun t => if bool_decide (t = ignore_index) then PrimFloat.zero
                else PrimFloat.one) targets.

(** The targets of next-token prediction in the words of the
    specification: every row of labels shifted left by one position, with
    the ignore index in the final position. *)
Definition shifted_targets (labels : list (list Z)) : list (list Z) :=
  map (fun row => drop 1 row ++ [CROSS_ENTROPY_IGNORE_INDEX]) labels.

(** *** Segments of a packed row *)

(** The number of tokens of a row that carry the sequence id [c] and are not
    padded: the length of the segment [c] in the words of the
    specification. *)
Definition segment_count (ids : list Z) (keep : list bool) (c : Z) : Z :=
  sum_Z (zip_with (fun (id : Z) (k : bool) =>
                        if k && bool_decide (id = c) then 1 else 0) ids keep).

(** The attention mask, and without one the mask that keeps every token. *)
Definition effective_mask (sequence_id : list (list Z))
  (attention_mask : option (list (list bool))) : list (list bool) :=
  match attention_mask with
  | Some m => m
  | None => map (fun ids => replicate (length ids) true) sequence_id
  end.

(** The entry [n] of a vector, zero outside of it. *)
Definition coord (v : list Z) (n : nat) : Z := default 0 (v !! n).

(** The one-hot vector of a token after masking: the vector of its id when
    the token is kept, zeros when it is padded. *)
Definition hot (num_classes : Z) (id : Z) (keep : bool) : list Z :=
  if keep then one_hot_vec num_classes id
  else map (fun _ => 0) (one_hot_vec num_classes 0).

(** *** Invariants of the construction *)

(** The two keys by which a layer reuses the state of an earlier layer. *)
Definition is_reuse_type (reuse_type : string) : Prop :=
  reuse_type = "reuse_kv_layer_idx" \/ reuse_type = "reuse_kv_x_layer_idx".

(** Every entry of a reuse dictionary built before layer [b] belongs to an
    earlier layer and points to a layer before that one. *)
Definition reuse_dict_ok (d : gmap Z Z) (b : Z) : Prop :=
  forall k v, d !! k = Some v -> 0 <= v < k /\ k < b.

(** Every reuse index stored in the override of layer [b] is an integer
    that names a layer before [b]. *)
Definition override_ok (b : Z) (override_config : dict) : Prop :=
  forall a reuse_type v,
    dict_get override_config "attn_config" = Some (VDict a) ->
    is_reuse_type reuse_type -> dict_get a reuse_type = Some v ->
    exists z, v = VInt z /\ 0 <= z < b.

(** What holds of the state of the loop before layer [b]. *)
Record build_state_ok (st : BuildState) (b : Z) : Prop := {
  dicts_ok : forall reuse_type d,
    reuse_state_layer_idx_dicts st !! reuse_type = Some d ->
    reuse_dict_ok d b;
  caches_ok : forall reuse_type c z,
    state_cache_layers st !! reuse_type = Some c -> z ∈ c -> 0 <= z < b;
  descriptions_ok :
    Forall (fun d => override_ok d.1.1 d.2) (layer_description_list st);
}.

(** The number of entries that an item of the order tree stands for: its
    repeat count (1 when absent, none when not positive) times one for a
    named role, times the entries of its sub-sequence otherwise. *)
Fixpoint item_entries (item : order_item) : nat :=
  match item with
  | OrderItem repeat name order =>
      let count := Z.to_nat (default 1 repeat) in
      match name, order with
      | Some _, _ => count * 1
      | None, Some o =>
          count *
          (fix entries (o : list order_item) : nat :=
             match o with
             | [] => O
             | i :: o' => item_entries i + entries o'
             end) o
      | None, None => O
      end%nat
  end.

Fixpoint order_entries (order : list order_item) : nat :=
  match order with
  | [] => O
  | item :: order' => (item_entries item + order_entries order')%nat
  end.

(** An example: three layers, the last two of which reuse the keys and
    values of the layer before them. *)
Definition reuse_example_order : list order_item :=
  [OrderItem None (Some "default") None;
   OrderItem (Some 2) (Some "kv_reuse") None].

Definition reuse_example_overrides : BlockOverrides :=
  {| bo_repeat := None;
     bo_order := Some reuse_example_order;
     bo_overrides := Some
       [("kv_reuse",
         VDict [("attn_config", VDict [("reuse_kv_layer_idx", VInt (-1))])])]
  |}.

Definition reuse_example : MPTConfig :=
  {| n_layers := 3;
     block_overrides := Some reuse_example_overrides;
     allowed_block_overrides :=
       [("attn_config", VDict [("reuse_kv_layer_idx", VNone)])] |}.

Definition example_block_args : dict :=
  [("d_model", VInt 64);
   ("attn_config", VDict [("attn_impl", VStr "flash")])].

(** The same three layers, where the offset of the last layer is written as
    the float [-1.0]: the index [2 + -1.0] is the float [1.0], which equals
    the key [1] of the dictionary of the reuse indices. *)
Definition reuse_float_example_order : list order_item :=
  [OrderItem None (Some "default") None;
   OrderItem None (Some "kv_reuse") None;
   OrderItem None (Some "kv_float") None].

Definition reuse_float_example_overrides : BlockOverrides :=
  {| bo_repeat := None;
     bo_order := Some reuse_float_example_order;
     bo_overrides := Some
       [("kv_reuse",
         VDict [("attn_config", VDict [("reuse_kv_layer_idx", VInt (-1))])]);
        ("kv_float",
         VDict [("attn_config",
                 VDict [("reuse_kv_layer_idx", VFloat (PrimFloat.opp PrimFloat.one))])])]
  |}.

Definition reuse_float_example : MPTConfig :=
  {| n_layers := 3;
     block_overrides := Some reuse_float_example_overrides;
     allowed_block_overrides :=
       [("attn_config", VDict [("reuse_kv_layer_idx", VNone)])] |}.

(** *** Well-formed configurations *)


(** [d.keys()] *)
Definition keys (d : dict) : list string := map fst d.

(** A value whose dictionaries, at every depth, hold one item per key, as
    the dictionaries of Python do. *)
Fixpoint well_formed (v : pyval) : bool :=
  match v with
  | VDict d =>
      bool_decide (NoDup (map fst d))
      && forallb (fun kv => well_formed (snd kv)) d
  | VList l => forallb well_formed l
  | _ => true
  end.

(** The loop of [_override_block_args] over the common keys, as a function
    of the items still to visit and of [new_block_args]: the inner loop of
    [override_block_args_val]. *)
Definition override_common_keys (block_args allowed_block_overrides : dict)
  : list (string * pyval) -> dict -> result dict :=
  fix loop (items : list (string * pyval)) (new_block_args : dict)
    {struct items} : result dict :=
    match items with
    | [] => Ok new_block_args
    | (k, ov) :: rest =>
        match dict_get block_args k with
        | None => loop rest new_block_args
        | Some bv =>
            if negb (bool_decide (type_of ov = type_of bv)) then
              Raise (ValueError
                "Override config should have same value types as the original config.")
            else
              match ov with
              | VDict _ =>
                  match bv, dict_get allowed_block_overrides k with
                  | VDict bd, Some (VDict ad) =>
                      r ← override_block_args_val bd ov ad;
                      loop rest (dict_set new_block_args k (VDict r))
                  | VDict _, Some _ =>
                      Raise (AttributeError "object has no attribute 'keys'")
                  | VDict _, None => Raise (KeyError k)
                  | _, _ =>
                      Raise (AttributeError "object has no attribute 'keys'")
                  end
              | _ => loop rest (dict_set new_block_args k ov)
              end
        end
    end.

(** *** The caches of reused keys and values in [forward] *)

(** [attn_config[reuse_type]] in the arguments of a block, [None] when it
    is not given. [MPTBlock] hands the entries of [attn_config] to its
    attention module, which keeps [reuse_kv_layer_idx] and
    [reuse_kv_x_layer_idx] as attributes; both classes are outside of this
    file. *)
Definition attn_arg (args : dict) (reuse_type : string) : pyval :=
  match dict_get args "attn_config" with
  | Some (VDict a) => default VNone (dict_get a reuse_type)
  | _ => VNone
  end.

(** The two attributes of the attention module of a block that [forward]
    reads. *)
Record Block := {
  reuse_kv_layer_idx : pyval;
  reuse_kv_x_layer_idx : pyval;
}.

(** A block built from the arguments [args]. *)
Definition block_reads (args : dict) (block : Block) : Prop :=
  reuse_kv_layer_idx block = attn_arg args "reuse_kv_layer_idx"
  /\ reuse_kv_x_layer_idx block = attn_arg args "reuse_kv_x_layer_idx".

(** [attr in cache] for a cache whose keys are indices of layers: an
    integer, a boolean or a float is found when it equals a key. *)
Definition cache_has (cache : gset Z) (attr : pyval) : result bool :=
  match attr with
  | VInt z => Ok (bool_decide (z ∈ cache))
  | VBool b => Ok (bool_decide ((if b then 1 else 0) ∈ cache))
  | VFloat x =>
      Ok (existsb (fun z => PrimFloat.eqb x (float_of_int z)) (elements cache))
  | VNone | VStr _ => Ok false
  | VList _ | VDict _ => Raise (TypeError "unhashable type")
  end.

(** The test of [forward] before it reads a cache. *)
Definition check_cache (cache : gset Z) (attr : pyval) : result unit :=
  match attr with
  | VNone => Ok tt
  | _ =>
      found ← cache_has cache attr;
      if (found : bool) then Ok tt
      else Raise (KeyError "kv cache for layer not found")
  end.

(** [self.state_cache_layers[reuse_type]] *)
Definition cache_layers (state_cache_layers : gmap string (gset Z))
  (reuse_type : string) : result (gset Z) :=
  match state_cache_layers !! reuse_type with
  | Some c => Ok c
  | None => Raise (KeyError reuse_type)
  end.

(** The loop over the blocks in [MPTModel.forward], as far as the caches
    [layer_kv_cache_dict] and [layer_kv_x_cache_dict] go: the keys that they
    hold. The tensors are left out, and the call of a block is taken to
    return. *)
Fixpoint forward_blocks (state_cache_layers : gmap string (gset Z))
  (b_idx : Z) (blocks : list Block)
  (layer_kv_cache_dict layer_kv_x_cache_dict : gset Z)
  : result (gset Z * gset Z) :=
  match blocks with
  | [] => Ok (layer_kv_cache_dict, layer_kv_x_cache_dict)
  | block :: blocks' =>
      _ ← check_cache layer_kv_cache_dict (reuse_kv_layer_idx block);
      kv_x_layers ← cache_layers state_cache_layers "reuse_kv_x_layer_idx";
      let layer_kv_x_cache_dict :=
        if bool_decide (b_idx ∈ kv_x_layers)
        then {[b_idx]} ∪ layer_kv_x_cache_dict
        else layer_kv_x_cache_dict in
      _ ← check_cache layer_kv_x_cache_dict (reuse_kv_x_layer_idx block);
      kv_layers ← cache_layers state_cache_layers "reuse_kv_layer_idx";
      let layer_kv_cache_dict :=
        if bool_decide (b_idx ∈ kv_layers)
        then {[b_idx]} ∪ layer_kv_cache_dict
        else layer_kv_cache_dict in
      forward_blocks state_cache_layers (b_idx + 1) blocks'
        layer_kv_cache_dict layer_kv_x_cache_dict
  end.

(** *** More invariants of the construction *)

(** No layer of a reuse dictionary points to a layer that reuses itself:
    the chains are flattened. *)
Definition reuse_dict_flat (d : gmap Z Z) : Prop :=
  forall k v, d !! k = Some v -> d !! v = None.

(** The arguments of a block, or an override, with one item per key at the
    two levels that the reuse of keys and values reads. *)
Definition args_well_formed (args : dict) : Prop :=
  NoDup (keys args)
  /\ forall a, dict_get args "attn_config" = Some (VDict a) -> NoDup (keys a).

(** The reuse index that the description of a layer holds is an integer,
    it is in the set of layers to cache, and the reuse dictionary maps the
    layer to it. *)
Definition description_linked (st : BuildState)
  (desc : Z * string * dict) : Prop :=
  forall a reuse_type v,
    dict_get desc.2 "attn_config" = Some (VDict a) ->
    is_reuse_type reuse_type -> dict_get a reuse_type = Some v ->
    exists z,
      v = VInt z
      /\ z ∈ default ∅ (state_cache_layers st !! reuse_type)
      /\ default ∅ (reuse_state_layer_idx_dicts st !! reuse_type) !! desc.1.1
         = Some z.

(** How the lists, the dictionaries and the sets of the state belong
    together before layer [b]. *)
Record build_state_linked (config : MPTConfig) (block_args : dict)
  (st : BuildState) (b : nat) : Prop := {
  linked_flat : forall reuse_type d,
    reuse_state_layer_idx_dicts st !! reuse_type = Some d ->
    reuse_dict_flat d;
  linked_caches : forall reuse_type,
    is_reuse_type reuse_type -> is_Some (state_cache_layers st !! reuse_type);
  linked_length : length (layer_description_list st) = b;
  linked_index : forall i desc,
    layer_description_list st !! i = Some desc -> desc.1.1 = Z.of_nat i;
  linked_args :
    Forall2 (fun desc new_block_args =>
               _override_block_args block_args desc.2
                 (allowed_block_overrides config) = Ok new_block_args)
      (layer_description_list st) (new_block_args_list st);
  linked_reuse : Forall (description_linked st) (layer_description_list st);
}.

(** The state that the construction returns, for examples. *)
Definition built_state (config : MPTConfig) (block_args : dict)
  : BuildState :=
  match _get_override_block_args_list config block_args with
  | Ok st => st
  | Raise _ => initial_build_state
  end.


(** *** Position ids *)

(** [torch.cumsum(row, dim=0)], from the running sum [acc]. *)
Fixpoint cumsum_Z (acc : Z) (row : list Z) : list Z :=
  match row with
  | [] => []
  | x :: row' => (acc + x) :: cumsum_Z (acc + x) row'
  end.

(** [(~attention_mask).to(torch.int32)] for one row. *)
Definition padding_of (row : list bool) : list Z :=
  map (fun keep : bool => if keep then 0 else 1) row.

(** The position ids [pos] that [MPTModel.forward] computes for learned
    position embeddings and for the rotary embeddings of [hf]. *)
Definition forward_position_ids (past_position S : Z)
  (position_ids : option (list (list Z)))
  (attention_mask : option (list (list bool))) : result (list (list Z)) :=
  let pos := match position_ids with
             | None => [seqZ past_position S]
             | Some position_ids => position_ids
             end in
  match attention_mask with
  | None => Ok pos
  | Some attention_mask =>
      let padded :=
        map (fun row => slice_from past_position (cumsum_Z 0 (padding_of row)))
          attention_mask in
      shifted ← broadcast_rows Z.sub pos padded;
      Ok (map (map (Z.max 0)) shifted)
  end.

(** *** The inputs of a generation step *)

(** [t[:, -1]] *)
Fixpoint last_column {A} (t : list (list A)) : result (list A) :=
  match t with
  | [] => Ok []
  | row :: t' =>
      match last row with
      | None =>
          Raise (IndexError
            "index -1 is out of bounds for dimension 1 with size 0")
      | Some x => col ← last_column t'; Ok (x :: col)
      end
  end.

(** The dictionary that [prepare_inputs_for_generation] returns; an entry
    that it does not set is [None] here. *)
Record ModelInputs (Embeds Past : Type) := {
  mi_input_ids : option (list (list Z));
  mi_inputs_embeds : option Embeds;
  mi_attention_mask : list (list bool);
  mi_sequence_id : option (list (list Z));
  mi_past_key_values : option Past;
  mi_use_cache : bool;
}.
Arguments mi_input_ids {Embeds Past} _.
Arguments mi_inputs_embeds {Embeds Past} _.
Arguments mi_attention_mask {Embeds Past} _.
Arguments mi_sequence_id {Embeds Past} _.
Arguments mi_past_key_values {Embeds Past} _.
Arguments mi_use_cache {Embeds Past} _.

(** [MPTForCausalLM.prepare_inputs_for_generation]; [attention_mask] and
    [use_cache] are the entries of [kwargs], [None] when [kwargs] does not
    hold them. *)
Definition prepare_inputs_for_generation {Embeds Past : Type}
  (attn_uses_sequence_id training : bool) (input_ids : list (list Z))
  (past_key_values : option Past) (inputs_embeds : option Embeds)
  (attention_mask : option (list (list bool))) (use_cache : option bool)
  : result (ModelInputs Embeds Past) :=
  attention_mask ← match attention_mask with
                   | Some m => Ok m
                   | None => Raise (KeyError "attention_mask")
                   end;
  col ← last_column attention_mask;
  if negb (sum_Z (map (fun keep : bool => if keep then 1 else 0) col)
           =? shape_first attention_mask)
  then Raise (NotImplementedError
                "MPT does not support generation with right padding.")
  else
    let sequence_id :=
      if attn_uses_sequence_id && training
      then Some (map (map (fun _ : Z => 0)) (take 1 input_ids))
      else None in
    input_ids ← match past_key_values with
                | Some _ => col ← last_column input_ids;
                            Ok (map (fun x => [x]) col)
                | None => Ok input_ids
                end;
    Ok {| mi_input_ids :=
            match inputs_embeds, past_key_values with
            | Some _, None => None
            | _, _ => Some input_ids
            end;
          mi_inputs_embeds :=
            match inputs_embeds, past_key_values with
            | Some e, None => Some e
            | _, _ => None
            end;
          mi_attention_mask := attention_mask;
          mi_sequence_id := sequence_id;
          mi_past_key_values := past_key_values;
          mi_use_cache := default true use_cache |}.

End ModelingMpt.

(** * Properties *)

(** ** The data preparation pipeline *)

Module ConvertTextToMdsProofs.

Import ConvertTextToMds.

(** *** Windows of the concatenated tokens *)

Section ConcatFacts.

Variable tokenizer : pystr -> list Z.
Variable bos_token_id : option Z.
Variable ds : ConcatTokensDataset.

(** Every window that the loop yields is full. *)
Lemma yield_windows_full fuel buffer ws rest :
  0 < max_length ds ->
  yield_windows ds fuel buffer = (ws, rest) ->
  Forall (fun w => Z.of_nat (length w) = max_length ds) ws.
Proof.
  intros Hpos. revert buffer ws rest.
  induction fuel as [|fuel IH]; intros buffer ws rest; simpl.
  - intros [= <- <-]. constructor.
  - destruct (max_length ds <=? Z.of_nat (length buffer)) eqn:Hle.
    + destruct (yield_windows ds fuel _) as [ws' b] eqn:Hrec.
      intros [= <- <-]. constructor; [|by eapply IH].
      apply Z.leb_le in Hle. unfold slice_to.
      destruct (0 <=? max_length ds) eqn:H0; [|lia].
      rewrite length_take. lia.
    + intros [= <- <-]. constructor.
Qed.

(** With wrapping, the windows and what stays in the buffer are the buffer
    the loop started from. *)
Lemma yield_windows_concat fuel buffer ws rest :
  0 < max_length ds -> should_wrap ds = true ->
  yield_windows ds fuel buffer = (ws, Some rest) ->
  concat ws ++ rest = buffer /\ Z.of_nat (length rest) < max_length ds.
Proof.
  intros Hpos Hwrap. revert buffer ws.
  induction fuel as [|fuel IH]; intros buffer ws; simpl; [done|].
  destruct (max_length ds <=? Z.of_nat (length buffer)) eqn:Hle.
  - destruct (yield_windows ds fuel _) as [ws' b] eqn:Hrec.
    intros [= <- ->]. rewrite Hwrap in Hrec.
    destruct (IH _ _ Hrec) as [Heq Hlt]. split; [|done].
    simpl. rewrite <- app_assoc, Heq. unfold slice_to, slice_from.
    destruct (0 <=? max_length ds) eqn:H0; [|lia]. apply take_drop.
  - intros [= <- <-]. apply Z.leb_gt in Hle. done.
Qed.

(** The loop ends when the fuel exceeds the length of the buffer. *)
Lemma yield_windows_terminates fuel buffer :
  0 < max_length ds -> (length buffer < fuel)%nat ->
  exists ws rest, yield_windows ds fuel buffer = (ws, Some rest).
Proof.
  intros Hpos. revert buffer.
  induction fuel as [|fuel IH]; intros buffer Hlen; [lia|]. simpl.
  destruct (max_length ds <=? Z.of_nat (length buffer)) eqn:Hle; [|eauto].
  apply Z.leb_le in Hle.
  destruct (IH (if should_wrap ds then slice_from (max_length ds) buffer
                else [])) as (ws & rest & ->); [|eauto].
  destruct (should_wrap ds); simpl; [|lia].
  unfold slice_from. destruct (0 <=? max_length ds) eqn:H0; [|lia].
  rewrite length_drop. lia.
Qed.

(** Without a positive window length the loop never ends. *)
Lemma yield_windows_diverges fuel buffer :
  max_length ds <= 0 -> snd (yield_windows ds fuel buffer) = None.
Proof.
  intros Hle. revert buffer.
  induction fuel as [|fuel IH]; intros buffer; simpl; [done|].
  destruct (max_length ds <=? Z.of_nat (length buffer)) eqn:Hcmp.
  - specialize (IH (if should_wrap ds then slice_from (max_length ds) buffer
                    else [])).
    destruct (yield_windows ds fuel _); done.
  - apply Z.leb_gt in Hcmp. lia.
Qed.

End ConcatFacts.

(** C1, as the code has it. For file A of 10 tokens and file B of 5 tokens,
    no BOS text, an EOS text of one token, windows of 8 tokens and wrapping
    enabled, the iterator ends after yielding exactly two windows, which is
    floor((10+1+5+1)/8); each has 8 tokens; the seventeenth token stays in
    the buffer and is not yielded. The windows followed by that rest are the
    concatenation A, EOS, B, EOS of 17 tokens. *)
Theorem concat_two_files_full_windows
  (tokenizer : pystr -> list Z) (bos_token_id : option Z)
  (a b : pystr) (eos : list Z) (fuel : nat) :
  length (tokenizer a) = 10%nat -> length (tokenizer b) = 5%nat ->
  length eos = 1%nat -> (2 <= fuel)%nat ->
  exists w1 w2 rest,
    __iter__ tokenizer bos_token_id (window8 eos) fuel [[Some a]; [Some b]]
      = ([w1; w2], Exhausted rest)
    /\ length w1 = 8%nat /\ length w2 = 8%nat /\ length rest = 1%nat
    /\ w1 ++ w2 ++ rest = tokenizer a ++ eos ++ tokenizer b ++ eos
    /\ length (tokenizer a ++ eos ++ tokenizer b ++ eos) = 17%nat
    /\ Z.of_nat (length [w1; w2]) = 17 / 8.
Proof.
  intros Ha Hb He Hfuel.
  destruct fuel as [|[|fuel]]; [lia|lia|].
  unfold __iter__, iter_files, iter_chunks.
  destruct (tokenizer a) as [|a0 [|a1 [|a2 [|a3 [|a4 [|a5 [|a6 [|a7 [|a8
    [|a9 [|]]]]]]]]]]]; try discriminate Ha.
  destruct (tokenizer b) as [|b0 [|b1 [|b2 [|b3 [|b4 [|]]]]]];
    try discriminate Hb.
  destruct eos as [|e [|]]; try discriminate He.
  eexists _, _, _. repeat split; reflexivity.
Qed.

Lemma concat_two_files_full_windows_witness :
  exists w1 w2 rest,
    __iter__ char_tokenizer None (window8 [0]) 3
      [[Some (str "0123456789")]; [Some (str "abcde")]] = ([w1; w2], Exhausted rest)
    /\ length w1 = 8%nat /\ length w2 = 8%nat /\ length rest = 1%nat
    /\ w1 ++ w2 ++ rest
       = char_tokenizer (str "0123456789") ++ [0]
         ++ char_tokenizer (str "abcde") ++ [0]
    /\ length (char_tokenizer (str "0123456789") ++ [0]
               ++ char_tokenizer (str "abcde") ++ [0]) = 17%nat
    /\ Z.of_nat (length [w1; w2]) = 17 / 8.
Proof.
  apply (concat_two_files_full_windows char_tokenizer None
           (str "0123456789") (str "abcde") [0] 3);
    [reflexivity | reflexivity | reflexivity | lia].
Defined.

(** C1 as stated fails: on files of 10 and 5 tokens the iterator yields 2
    windows and then stops, not ceil(17/8) = 3; no short final window is
    yielded. *)
Lemma concat_two_files_not_ceil :
  __iter__ char_tokenizer None (window8 [0]) 3
    [[Some (str "0123456789")]; [Some (str "abcde")]]
  = ([[48; 49; 50; 51; 52; 53; 54; 55]; [56; 57; 0; 97; 98; 99; 100; 101]],
     Exhausted [0])
  /\ ceil_div (10 + 1 + 5 + 1) 8 = 3
  /\ Z.of_nat (length (fst (__iter__ char_tokenizer None (window8 [0]) 3
                              [[Some (str "0123456789")]; [Some (str "abcde")]])))
     <> ceil_div (10 + 1 + 5 + 1) 8.
Proof. split; [reflexivity | split; [reflexivity | vm_compute; discriminate]]. Qed.

(** *** The done file *)

Lemma one_line_no_CR s : one_line s -> CR ∉ s.
Proof.
  intros Hs Hin. eapply Forall_forall in Hs; [|exact Hin]. discriminate Hs.
Qed.

Lemma universal_newlines_id s : CR ∉ s -> universal_newlines s = s.
Proof.
  induction s as [|c s IH]; [done|]. intros Hnot. simpl.
  rewrite bool_decide_eq_false_2.
  - f_equal. apply IH. intros Hin. apply Hnot. by right.
  - intros ->. apply Hnot. by left.
Qed.

Lemma splitlines_from_app line x s :
  one_line x ->
  splitlines_from line (x ++ s) = splitlines_from (rev x ++ line) s.
Proof.
  intros Hx. revert line.
  induction Hx as [|c x Hc _ IH]; intros line; [done|]. simpl.
  rewrite bool_decide_eq_false_2 by (intros ->; discriminate Hc).
  rewrite Hc, IH, <- app_assoc. done.
Qed.

Lemma splitlines_from_LF line s :
  splitlines_from line (LF :: s) = rev line :: splitlines_from [] s.
Proof. reflexivity. Qed.

Lemma join_lines_cons a b l :
  join_lines (a :: b :: l) = a ++ LF :: join_lines (b :: l).
Proof. reflexivity. Qed.

(** Splitting what [write_done_file] writes gives the lines back. *)
Lemma splitlines_join_lines a l :
  Forall one_line (a :: l) ->
  splitlines (join_lines (a :: l) ++ [LF]) = a :: l.
Proof.
  unfold splitlines. revert a.
  induction l as [|b l IH]; intros a Hall.
  - apply Forall_cons in Hall as [Ha _]. simpl join_lines.
    rewrite splitlines_from_app by done. rewrite app_nil_r.
    rewrite splitlines_from_LF, rev_involutive. done.
  - apply Forall_cons in Hall as [Ha Hl].
    rewrite join_lines_cons, <- app_assoc, splitlines_from_app by done.
    rewrite app_nil_r, <- app_comm_cons.
    rewrite splitlines_from_LF, rev_involutive, IH by done. done.
Qed.

Lemma join_lines_no_CR l :
  Forall one_line l -> CR ∉ join_lines l ++ [LF].
Proof.
  intros Hall Hin. apply elem_of_app in Hin as [Hin|Hin].
  - induction Hall as [|a l Ha Hl IH]; [by apply elem_of_nil in Hin|].
    destruct l as [|b l].
    + simpl in Hin. by apply one_line_no_CR in Ha.
    + rewrite join_lines_cons in Hin.
      apply elem_of_app in Hin as [Hin|Hin]; [by apply one_line_no_CR in Ha|].
      apply elem_of_cons in Hin as [Hin|Hin]; [discriminate Hin|auto].
  - apply list_elem_of_singleton in Hin. discriminate Hin.
Qed.

Lemma names_agree_eq prev_names object_names :
  length prev_names = length object_names ->
  names_agree prev_names object_names
  = bool_decide (object_names = prev_names).
Proof.
  revert object_names.
  induction prev_names as [|p prev IH]; intros [|n names] Hlen;
    try discriminate Hlen; [done|].
  simpl. destruct (decide (n = p)) as [->|Hne].
  - rewrite bool_decide_eq_true_2 by done. rewrite IH by (simpl in Hlen; lia).
    apply bool_decide_ext. split; [by intros -> | by intros [= ->]].
  - rewrite bool_decide_eq_false_2 by done.
    symmetry. apply bool_decide_eq_false_2. by intros [= -> _].
Qed.

Section DoneFile.

Variable env : Collaborators.

(** What [is_already_processed] answers for a local folder whose done file
    holds the lines [prev_args_str :: prev_names]. *)
Lemma is_already_processed_local w output_root args_str object_names
  content prev_args_str prev_names :
  maybe_create_object_store_from_uri env output_root = Ok None ->
  files w !! path_join output_root DONE_FILENAME = Some content ->
  splitlines (universal_newlines content) = prev_args_str :: prev_names ->
  is_already_processed env w output_root args_str object_names
  = Ok (bool_decide (args_str = prev_args_str
                     /\ object_names = prev_names)).
Proof.
  intros Hlocal Hfile Hlines. unfold is_already_processed.
  rewrite Hlocal. unfold mbind, result_bind, Py.bind, isfile, read_text.
  rewrite Hfile, bool_decide_eq_true_2 by eauto. rewrite Hlines.
  destruct (decide (prev_args_str = args_str)) as [->|Hne].
  - rewrite bool_decide_eq_true_2 by done. simpl.
    destruct (length prev_names =? length object_names)%nat eqn:Hlen; simpl.
    + apply Nat.eqb_eq in Hlen. rewrite names_agree_eq by done.
      f_equal. apply bool_decide_ext. split; [by intros -> | by intros [_ ->]].
    + apply Nat.eqb_neq in Hlen. f_equal. symmetry.
      apply bool_decide_eq_false_2. intros [_ ->]. done.
  - rewrite bool_decide_eq_false_2 by done. simpl. f_equal. symmetry.
    apply bool_decide_eq_false_2. intros [-> _]. done.
Qed.

(** What [write_done_file] writes can be encoded when the argument string
    and the names can. *)
Lemma join_lines_encodable l :
  Forall (fun s => forallb encodable s = true) l ->
  forallb encodable (join_lines l ++ [LF]) = true.
Proof.
  intros Hall. rewrite forallb_app. apply andb_true_intro. split; [|done].
  induction Hall as [|a l Ha Hl IH]; [done|].
  destruct l as [|b l]; [done|].
  rewrite join_lines_cons, forallb_app. apply andb_true_intro.
  split; [done|]. cbn [forallb]. apply andb_true_intro. split; [done|].
  exact IH.
Qed.

(** The round trip of the done file, as the code has it. For a local output
    folder that exists, an argument string and object names that the
    encoding of the file can write (no surrogate code point) and none of
    which contains a line boundary of [str.splitlines] (\n, \r, \x0b,
    \x0c, \x1c, \x1d, \x1e, \x85, U+2028, U+2029): [write_done_file]
    succeeds, and right after it [is_already_processed] returns True for the
    same argument string and names, and returns False for every argument
    string that differs and for every list of names that differs in count,
    in content or in order. *)
Lemma done_file_round_trip w folder args_str object_names :
  maybe_create_object_store_from_uri env folder = Ok None ->
  folder = [] \/ isdir w folder = true ->
  forallb encodable args_str = true ->
  Forall (fun name => forallb encodable name = true) object_names ->
  one_line args_str -> Forall one_line object_names ->
  exists w',
    write_done_file w folder args_str object_names = Ok w'
    /\ is_already_processed env w' folder args_str object_names = Ok true
    /\ forall args_str' object_names',
         is_already_processed env w' folder args_str' object_names'
         = Ok (bool_decide (args_str' = args_str
                            /\ object_names' = object_names)).
Proof.
  intros Hlocal Hdir Hargs_enc Hnames_enc Hargs Hnames.
  assert (Hall : Forall one_line (args_str :: object_names))
    by (by constructor).
  unfold write_done_file, write_text.
  assert (bool_decide (folder = []) || isdir w folder = true) as ->.
  { destruct Hdir as [->| ->]; [done|]. apply orb_true_r. }
  rewrite join_lines_encodable by (by constructor).
  eexists. split; [reflexivity|].
  assert (Hq : forall args_str' object_names',
    is_already_processed env
      {| files := <[path_join folder DONE_FILENAME :=
                      join_lines (args_str :: object_names) ++ [LF]]> (files w);
         dirs := match dirs w !! folder with
                 | Some l => if bool_decide (DONE_FILENAME ∈ l) then dirs w
                             else <[folder := l ++ [DONE_FILENAME]]> (dirs w)
                 | None => dirs w
                 end;
         objects := objects w |} folder args_str' object_names'
    = Ok (bool_decide (args_str' = args_str /\ object_names' = object_names))).
  { intros args_str' object_names'.
    apply (is_already_processed_local _ _ _ _
             (join_lines (args_str :: object_names) ++ [LF])); [done| |].
    - cbn [files]. apply lookup_insert_eq.
    - rewrite universal_newlines_id by (by apply join_lines_no_CR).
      by apply splitlines_join_lines. }
  split; [|exact Hq].
  rewrite Hq. by rewrite bool_decide_eq_true_2.
Qed.

(** A name that [os.fsdecode] gives for a file whose bytes are not UTF-8
    holds a surrogate, and [write_done_file] raises on it. *)
Lemma done_file_surrogate_name w (folder args_str pre : pystr) c
  (post : pystr) (object_names : list pystr) :
  folder = [] \/ isdir w folder = true ->
  encodable c = false ->
  write_done_file w folder args_str ((pre ++ c :: post) :: object_names)
  = Raise UnicodeEncodeError.
Proof.
  intros Hdir Hc. unfold write_done_file, write_text.
  assert (bool_decide (folder = []) || isdir w folder = true) as ->.
  { destruct Hdir as [->| ->]; [done|]. apply orb_true_r. }
  assert (forallb encodable
            (join_lines (args_str :: (pre ++ c :: post) :: object_names)
             ++ [LF]) = false) as ->; [|done].
  apply not_true_iff_false. intros Hall.
  rewrite forallb_forall in Hall.
  assert (Hin : In c (join_lines
                        (args_str :: (pre ++ c :: post) :: object_names)
                      ++ [LF])).
  { rewrite join_lines_cons. apply in_or_app. left. apply in_or_app. right.
    right. destruct object_names as [|b l].
    - cbn [join_lines]. apply in_or_app. right. by left.
    - rewrite join_lines_cons. apply in_or_app. left. apply in_or_app.
      right. by left. }
  specialize (Hall c Hin). congruence.
Qed.

End DoneFile.

(** C7. The reader of the done file breaks it into lines at more characters
    than the writer puts between them: [write_done_file] joins the argument
    string and the names with \n, and [is_already_processed] reads them back
    with [splitlines], for which \x0b, \x0c, \x1c, \x1d, \x1e, \x85, U+2028
    and U+2029 end a line as well. The name [a\x1cb] holds no newline
    character; [write_done_file] writes it, and right after it
    [is_already_processed] returns False for the same folder, argument
    string and names, where the specification has True: the three lines
    read back are [args], [a] and [b]. The same holds with each of the
    other seven characters in the place of U+001C. *)
Theorem done_file_separator_not_recognised :
  (LF ∉ separator_name) /\ (CR ∉ separator_name)
  /\ (exists w',
        write_done_file (world_with_output []) (str "out") (str "args")
          [separator_name] = Ok w'
        /\ files w' !! path_join (str "out") DONE_FILENAME
           = Some (str "args" ++ LF :: separator_name ++ [LF])
        /\ splitlines (str "args" ++ LF :: separator_name ++ [LF])
           = [str "args"; [97%N]; [98%N]]
        /\ is_already_processed local_env w' (str "out") (str "args")
             [separator_name] = Ok false)
  /\ Forall (fun c : N =>
               exists w',
                 write_done_file (world_with_output []) (str "out")
                   (str "args") [[97; c; 98]%N] = Ok w'
                 /\ is_already_processed local_env w' (str "out")
                      (str "args") [[97; c; 98]%N] = Ok false)
       [11; 12; 28; 29; 30; 133; 8232; 8233]%N.
Proof.
  split; [|split; [|split]].
  - intros H. by repeat (apply elem_of_cons in H as [H|H]; [|]);
      try discriminate H; apply elem_of_nil in H.
  - intros H. by repeat (apply elem_of_cons in H as [H|H]; [|]);
      try discriminate H; apply elem_of_nil in H.
  - eexists. split; [reflexivity|].
    split; [by vm_compute|]. split; by vm_compute.
  - repeat constructor; (eexists; split; [reflexivity|by vm_compute]).
Qed.

(** *** Exit conditions of the conversion *)




(** C8 on the code. With [use_tokenizer_eos] set, the [eos_text] given is
    not rejected: the call behaves exactly as the call without [eos_text]
    (the text of the tokenizer replaces it), and on the local example it
    completes without an exception. *)
Theorem eos_text_with_use_tokenizer_eos_not_rejected :
  (forall env w output_folder input_folder compression concat_tokens
     tokenizer_name bos_text eos_text no_wrap processes reprocess
     trust_remote_code logging_level,
     convert_text_to_mds_from_args env w output_folder input_folder
       compression concat_tokens tokenizer_name bos_text (Some eos_text)
       true no_wrap processes reprocess trust_remote_code logging_level
     = convert_text_to_mds_from_args env w output_folder input_folder
         compression concat_tokens tokenizer_name bos_text None
         true no_wrap processes reprocess trust_remote_code logging_level)
  /\ is_Ok (convert_text_to_mds_from_args local_env (world_with_output [])
              (str "out") (str "in") (str "zstd") 8 (str "gpt2") None
              (Some (str "<|endoftext|>")) true false 1 false false
              (str "INFO")).
Proof. split; [reflexivity | vm_compute; exact I]. Qed.

End ConvertTextToMdsProofs.

(** ** The MPT model *)

Module ModelingMptProofs.

Import ModelingMpt.

(** *** The expanded order and the list of block arguments *)

Lemma length_repeat_list {A} (l : list A) n :
  length (repeat_list l n) = (n * length l)%nat.
Proof. induction n as [|n IH]; simpl; [done|]. rewrite length_app, IH. lia. Qed.

Lemma expand_item_inner o :
  (fix expand (o : list order_item) : result (list string) :=
     match o with
     | [] => Ok []
     | i :: o' => x ← expand_item i; xs ← expand o'; Ok (x ++ xs)
     end) o = _get_modules_order_expanded o.
Proof. induction o as [|i o IH]; simpl; [done|]. by rewrite IH. Qed.

Lemma item_entries_inner o :
  (fix entries (o : list order_item) : nat :=
     match o with
     | [] => O
     | i :: o' => (item_entries i + entries o')%nat
     end) o = order_entries o.
Proof. induction o as [|i o IH]; simpl; [done|]. by rewrite IH. Qed.

(** Induction on the order tree. *)
Lemma order_item_ind' (P : order_item -> Prop) :
  (forall repeat name, P (OrderItem repeat name None)) ->
  (forall repeat name o, Forall P o -> P (OrderItem repeat name (Some o))) ->
  forall item, P item.
Proof.
  intros Hleaf Hnode. fix IH 1. intros [repeat name [o|]]; [|apply Hleaf].
  apply Hnode. induction o as [|i o IHo]; constructor; [apply IH | apply IHo].
Qed.

(** The expansion of an item has as many entries as the item stands for. *)
Lemma expand_item_length item l :
  expand_item item = Ok l -> length l = item_entries item.
Proof.
  revert l. induction item as [repeat name|repeat name o IHo]
    using order_item_ind'; intros l; simpl.
  - destruct name as [n|]; [|done]. intros [= <-].
    unfold list_mul. rewrite length_repeat_list. simpl. lia.
  - destruct name as [n|]; [done|].
    rewrite expand_item_inner, item_entries_inner.
    destruct (_get_modules_order_expanded o) as [xs|e] eqn:Hxs; [|done].
    simpl. intros [= <-]. unfold list_mul. rewrite length_repeat_list.
    f_equal. clear repeat. revert xs Hxs.
    induction IHo as [|i o Hi _ IH]; intros xs; simpl; [by intros [= <-]|].
    destruct (expand_item i) as [x|] eqn:Hx; [|done]. simpl.
    destruct (_get_modules_order_expanded o) as [ys|]; [|done]. simpl.
    intros [= <-]. rewrite length_app, (Hi x), (IH ys); done.
Qed.

Lemma order_expanded_length order l :
  _get_modules_order_expanded order = Ok l -> length l = order_entries order.
Proof.
  revert l. induction order as [|item order IH]; intros l; simpl.
  - by intros [= <-].
  - destruct (expand_item item) as [x|] eqn:Hx; [|done]. simpl.
    destruct (_get_modules_order_expanded order) as [xs|]; [|done]. simpl.
    intros [= <-]. rewrite length_app, (expand_item_length _ _ Hx), (IH xs); done.
Qed.

(** The override step of a layer leaves the two lists of the state alone. *)
Lemma layer_override_config_lists bo expanded b_idx module_name st oc st1 :
  layer_override_config bo expanded b_idx module_name st = Ok (oc, st1) ->
  new_block_args_list st1 = new_block_args_list st
  /\ layer_description_list st1 = layer_description_list st.
Proof.
  unfold layer_override_config. case_bool_decide; [by intros [= <- <-]|].
  destruct (bo_overrides bo) as [ovs|]; [|done]. cbn [mbind result_bind Py.bind].
  destruct (dict_get ovs module_name) as [[| | | | | |d]|]; try done.
  cbn [mbind result_bind Py.bind].
  destruct (py_contains "reuse_kv_layer_idx" _) as [has_kv|]; [|done].
  cbn [mbind result_bind Py.bind].
  destruct has_kv.
  - destruct (py_contains "reuse_kv_x_layer_idx" _) as [[]|]; try done.
    cbn [mbind result_bind Py.bind andb].
    destruct (_resolve_reuse_state_layer_idx _ _ _ _ _ _) as [[idx d']|];
      [|done].
    cbn [mbind result_bind Py.bind].
    destruct (default (VDict []) (dict_get d "attn_config")); try done.
    by intros [= <- <-].
  - cbn [mbind result_bind Py.bind andb].
    destruct (py_contains "reuse_kv_x_layer_idx" _) as [[]|]; try done;
      cbn [mbind result_bind Py.bind]; [|by intros [= <- <-]].
    destruct (_resolve_reuse_state_layer_idx _ _ _ _ _ _) as [[idx d']|];
      [|done].
    cbn [mbind result_bind Py.bind].
    destruct (default (VDict []) (dict_get d "attn_config")); try done.
    by intros [= <- <-].
Qed.

Lemma build_layer_lists config bo block_args expanded i st st' :
  build_layer config bo block_args expanded i st = Ok st' ->
  length (new_block_args_list st') = S (length (new_block_args_list st))
  /\ length (layer_description_list st')
     = S (length (layer_description_list st)).
Proof.
  unfold build_layer.
  destruct (list_getitem expanded (Z.of_nat i)) as [name|]; [|done].
  cbn [mbind result_bind Py.bind].
  destruct (layer_override_config _ _ _ _ _) as [[oc st1]|] eqn:Hoc; [|done].
  cbn [mbind result_bind Py.bind].
  destruct (_override_block_args _ _ _) as [nb|]; [|done].
  cbn [mbind result_bind Py.bind]. intros [= <-]. simpl.
  apply layer_override_config_lists in Hoc as [-> ->].
  rewrite !length_app. simpl. lia.
Qed.

Lemma build_layers_lists config bo block_args expanded indices st st' :
  build_layers config bo block_args expanded indices st = Ok st' ->
  length (new_block_args_list st')
  = (length (new_block_args_list st) + length indices)%nat
  /\ length (layer_description_list st')
     = (length (layer_description_list st) + length indices)%nat.
Proof.
  revert st. induction indices as [|i indices IH]; intros st; simpl.
  - intros [= ->]. lia.
  - destruct (build_layer _ _ _ _ _ _) as [st1|] eqn:H1; [|done].
    cbn [mbind result_bind Py.bind]. intros Hrest.
    apply build_layer_lists in H1 as [H1 H2].
    apply IH in Hrest as [H3 H4]. lia.
Qed.

Lemma list_getitem_nat {A} (l : list A) (i : nat) x :
  l !! i = Some x -> list_getitem l (Z.of_nat i) = Ok x.
Proof.
  intros Hi. unfold list_getitem.
  assert ((Z.of_nat i <? 0) = false) as Hge by (apply Z.ltb_ge; lia).
  rewrite !Hge. by rewrite Nat2Z.id, Hi.
Qed.

(** A layer named [default] takes the arguments of the block as they are. *)
Lemma build_layer_default config bo block_args expanded i st :
  expanded !! i = Some "default" ->
  is_Ok (build_layer config bo block_args expanded i st).
Proof.
  intros Hi. unfold build_layer. rewrite (list_getitem_nat _ _ _ Hi).
  simpl. done.
Qed.

Lemma build_layers_default config bo block_args expanded indices st :
  Forall (fun i => expanded !! i = Some "default") indices ->
  is_Ok (build_layers config bo block_args expanded indices st).
Proof.
  intros Hall. revert st.
  induction Hall as [|i indices Hi _ IH]; intros st; simpl; [done|].
  pose proof (build_layer_default config bo block_args expanded i st Hi) as H.
  destruct (build_layer _ _ _ _ _ _) as [st1|]; [|done].
  cbn [mbind result_bind Py.bind]. apply IH.
Qed.

(** C2. The order tree is expanded depth first and multiplied by the
    top-level repeat; when the length of the result is not [n_layers] the
    construction fails with the length-mismatch error; and whenever the
    construction returns, the expansion had length [n_layers], the number
    that the tree stands for, and the list of per-layer arguments has length
    [n_layers]. The construction does return when every layer is named
    [default]. *)
Theorem override_block_args_list_length config block_args bo order expanded :
  block_overrides config = Some bo -> bo_order bo = Some order ->
  _get_modules_order_expanded order = Ok expanded ->
  let model_modules_order_expanded :=
    list_mul expanded (default 1 (bo_repeat bo)) in
  (Z.of_nat (length model_modules_order_expanded) <> n_layers config ->
   _get_override_block_args_list config block_args
   = Raise (ValueError
       "The specified block overrides do not match the number of layers"))
  /\ (forall st,
        _get_override_block_args_list config block_args = Ok st ->
        Z.of_nat (length (new_block_args_list st)) = n_layers config
        /\ Z.of_nat (length model_modules_order_expanded) = n_layers config
        /\ length model_modules_order_expanded
           = (Z.to_nat (default 1%Z (bo_repeat bo)) * order_entries order)%nat)
  /\ (Z.of_nat (length model_modules_order_expanded) = n_layers config ->
      Forall (eq "default") model_modules_order_expanded ->
      exists st,
        _get_override_block_args_list config block_args = Ok st
        /\ Z.of_nat (length (new_block_args_list st)) = n_layers config).
Proof.
  intros Hbo Horder Hexp m.
  assert (Hunfold : _get_override_block_args_list config block_args
    = if negb (Z.of_nat (length m) =? n_layers config)
      then Raise (ValueError
             "The specified block overrides do not match the number of layers")
      else build_layers config bo block_args m
             (seq 0 (Z.to_nat (n_layers config))) initial_build_state).
  { unfold _get_override_block_args_list. rewrite Hbo, Horder. simpl.
    rewrite Hexp. reflexivity. }
  assert (Hsize : length m
    = (Z.to_nat (default 1%Z (bo_repeat bo)) * order_entries order)%nat).
  { unfold m, list_mul. rewrite length_repeat_list.
    by rewrite (order_expanded_length _ _ Hexp). }
  assert (Hok : forall st,
    _get_override_block_args_list config block_args = Ok st ->
    Z.of_nat (length (new_block_args_list st)) = n_layers config
    /\ Z.of_nat (length m) = n_layers config).
  { intros st. rewrite Hunfold.
    destruct (Z.of_nat (length m) =? n_layers config) eqn:Hlen; [|done].
    apply Z.eqb_eq in Hlen. simpl. intros Hbuild.
    apply build_layers_lists in Hbuild as [Hbuild _].
    rewrite Hbuild, length_seq. simpl. lia. }
  split; [|split].
  - intros Hne. rewrite Hunfold.
    by apply Z.eqb_neq in Hne as ->.
  - intros st Hst. destruct (Hok st Hst). done.
  - intros Hlen Hdef.
    pose proof (build_layers_default config bo block_args m
                  (seq 0 (Z.to_nat (n_layers config))) initial_build_state)
      as Hbuild.
    rewrite Hunfold in *. apply Z.eqb_eq in Hlen as Hlen'. rewrite Hlen' in *.
    simpl in *.
    destruct (build_layers _ _ _ _ _ _) as [st|] eqn:Hst.
    + exists st. split; [done|]. by destruct (Hok st eq_refl).
    + exfalso. apply Hbuild. apply Forall_forall. intros i Hi.
      apply elem_of_seq in Hi.
      destruct (m !! i) as [name|] eqn:Hm.
      * eapply Forall_forall in Hdef; [|by eapply list_elem_of_lookup_2].
        by subst.
      * apply lookup_ge_None in Hm. lia.
Qed.

Lemma override_block_args_list_length_witness :
  let model_modules_order_expanded :=
    list_mul ["default"; "kv_reuse"; "kv_reuse"]
      (default 1 (bo_repeat reuse_example_overrides)) in
  (Z.of_nat (length model_modules_order_expanded) <> n_layers reuse_example ->
   _get_override_block_args_list reuse_example example_block_args
   = Raise (ValueError
       "The specified block overrides do not match the number of layers"))
  /\ (forall st,
        _get_override_block_args_list reuse_example example_block_args
        = Ok st ->
        Z.of_nat (length (new_block_args_list st)) = n_layers reuse_example
        /\ Z.of_nat (length model_modules_order_expanded)
           = n_layers reuse_example
        /\ length model_modules_order_expanded
           = (Z.to_nat (default 1%Z (bo_repeat reuse_example_overrides))
              * order_entries reuse_example_order)%nat)
  /\ (Z.of_nat (length model_modules_order_expanded) = n_layers reuse_example ->
      Forall (eq "default") model_modules_order_expanded ->
      exists st,
        _get_override_block_args_list reuse_example example_block_args = Ok st
        /\ Z.of_nat (length (new_block_args_list st))
           = n_layers reuse_example).
Proof.
  apply (override_block_args_list_length reuse_example example_block_args
           reuse_example_overrides reuse_example_order
           ["default"; "kv_reuse"; "kv_reuse"]);
    reflexivity.
Defined.

(** *** Key/value reuse *)

Lemma dict_get_set_eq d k v : dict_get (dict_set d k v) k = Some v.
Proof.
  induction d as [|[k' v'] d IH]; simpl.
  - by rewrite bool_decide_eq_true_2.
  - case_bool_decide as Hk; simpl.
    + by rewrite bool_decide_eq_true_2.
    + by rewrite bool_decide_eq_false_2.
Qed.

Lemma dict_get_set_ne d k k' v :
  k <> k' -> dict_get (dict_set d k v) k' = dict_get d k'.
Proof.
  intros Hne. induction d as [|[k0 v0] d IH]; simpl.
  - by rewrite bool_decide_eq_false_2.
  - case_bool_decide as Hk; simpl.
    + subst k0. by rewrite !bool_decide_eq_false_2.
    + by rewrite IH.
Qed.

Lemma dict_has_false d k : dict_has d k = false -> dict_get d k = None.
Proof.
  unfold dict_has. intros H. apply bool_decide_eq_false in H.
  destruct (dict_get d k); [|done]. exfalso. eauto.
Qed.

Lemma reuse_dict_ok_mono d b b' : b <= b' -> reuse_dict_ok d b -> reuse_dict_ok d b'.
Proof. intros Hle Hd k v Hk. destruct (Hd k v Hk). lia. Qed.

Lemma reuse_dict_ok_empty b : reuse_dict_ok ∅ b.
Proof. intros k v Hk. by rewrite lookup_empty in Hk. Qed.

(** An offset that is not negative is refused. *)
Lemma resolve_offset_not_negative ovs expanded b_idx oc a d reuse_type off :
  dict_get oc "attn_config" = Some (VDict a) ->
  dict_get a reuse_type = Some (VInt off) -> 0 <= off ->
  _resolve_reuse_state_layer_idx ovs expanded b_idx oc d reuse_type
  = Raise (ValueError
      "The relative index of kv layer to reuse should be negative.").
Proof.
  intros Hattn Hoff Hge. unfold _resolve_reuse_state_layer_idx.
  rewrite Hattn. simpl. rewrite Hoff. simpl.
  by apply Z.leb_le in Hge as ->.
Qed.

(** An offset that leads before the first layer is refused. *)
Lemma resolve_absolute_negative ovs expanded b_idx oc a d reuse_type off :
  dict_get oc "attn_config" = Some (VDict a) ->
  dict_get a reuse_type = Some (VInt off) -> off < 0 -> b_idx + off < 0 ->
  _resolve_reuse_state_layer_idx ovs expanded b_idx oc d reuse_type
  = Raise (ValueError
      "The absolute index of kv layer to reuse should be non-negative.").
Proof.
  intros Hattn Hoff Hneg Habs. unfold _resolve_reuse_state_layer_idx.
  rewrite Hattn. simpl. rewrite Hoff. simpl.
  apply Z.leb_gt in Hneg as ->. by apply Z.ltb_lt in Habs as ->.
Qed.

Lemma float_lookup_Some d x i :
  float_lookup d x = Some i ->
  exists k, d !! k = Some i /\ PrimFloat.eqb x (float_of_int k) = true.
Proof.
  unfold float_lookup.
  destruct (find _ _) as [[k v]|] eqn:Hfind; [|done].
  intros [= <-]. apply find_some in Hfind as [Hin Heq].
  exists k. split; [|done].
  apply elem_of_map_to_list. by apply list_elem_of_In.
Qed.

(** The lines after the lookup return the index they are given and store
    it under the current layer. *)
Lemma resolve_parent_returns ovs expanded b_idx d i idx d' :
  resolve_parent ovs expanded b_idx d i = Ok (idx, d') ->
  idx = i /\ d' = <[b_idx := i]> d.
Proof.
  unfold resolve_parent. cbn zeta.
  destruct (list_getitem expanded i) as [name|]; [|done].
  cbn [mbind result_bind Py.bind].
  match goal with |- context [mbind _ ?c] =>
    destruct c as [parent_config|]; [|done] end.
  cbn [mbind result_bind Py.bind].
  destruct (py_contains "attn_config" parent_config) as [has|]; [|done].
  cbn [mbind result_bind Py.bind].
  match goal with |- context [mbind _ ?c] =>
    destruct c as [parent_attn|]; [|done] end.
  cbn [mbind result_bind Py.bind].
  destruct parent_attn; try done. by intros [= <- <-].
Qed.

Lemma reuse_dict_ok_store d b i :
  reuse_dict_ok d b -> 0 <= i < b -> reuse_dict_ok (<[b := i]> d) (b + 1).
Proof.
  intros Hd Hi k v. destruct (decide (k = b)) as [->|Hne].
  - rewrite lookup_insert_eq. intros [= <-]. lia.
  - rewrite lookup_insert_ne by done. intros Hk.
    destruct (Hd _ _ Hk). lia.
Qed.

(** When the call returns, the index it returns names an earlier layer, and
    the dictionary has gained exactly the entry of the current layer. *)
Lemma resolve_returns ovs expanded b_idx oc d reuse_type idx d' :
  reuse_dict_ok d b_idx ->
  _resolve_reuse_state_layer_idx ovs expanded b_idx oc d reuse_type
  = Ok (idx, d') ->
  0 <= idx < b_idx /\ d' = <[b_idx := idx]> d
  /\ reuse_dict_ok d' (b_idx + 1).
Proof.
  intros Hd. unfold _resolve_reuse_state_layer_idx.
  destruct (dict_get oc "attn_config") as [attn|]; [|done].
  cbn [mbind result_bind Py.bind].
  destruct (py_getitem attn reuse_type) as [offset|]; [|done].
  cbn [mbind result_bind Py.bind].
  assert (Hstore : forall i,
    0 <= i < b_idx ->
    resolve_parent ovs expanded b_idx d i = Ok (idx, d') ->
    0 <= idx < b_idx /\ d' = <[b_idx := idx]> d
    /\ reuse_dict_ok d' (b_idx + 1)).
  { intros i Hi Hres. apply resolve_parent_returns in Hres as [-> ->].
    split; [done|]. split; [done|]. by apply reuse_dict_ok_store. }
  assert (Hint : forall off,
    (if 0 <=? off
     then Raise (ValueError
            "The relative index of kv layer to reuse should be negative.")
     else
       let reuse_state_layer_idx := b_idx + off in
       if reuse_state_layer_idx <? 0
       then Raise (ValueError
              "The absolute index of kv layer to reuse should be non-negative.")
       else
         let reuse_state_layer_idx :=
           match d !! reuse_state_layer_idx with
           | Some i => i
           | None => reuse_state_layer_idx
           end in
         resolve_parent ovs expanded b_idx d reuse_state_layer_idx)
    = Ok (idx, d') ->
    0 <= idx < b_idx /\ d' = <[b_idx := idx]> d
    /\ reuse_dict_ok d' (b_idx + 1)).
  { intros off.
    destruct (0 <=? off) eqn:Hoff; [done|]. apply Z.leb_gt in Hoff.
    cbn zeta. destruct (b_idx + off <? 0) eqn:Habs; [done|].
    apply Z.ltb_ge in Habs. apply Hstore.
    destruct (d !! (b_idx + off)) as [v|] eqn:Hv; [|lia].
    destruct (Hd _ _ Hv). lia. }
  destruct offset as [|[]|z|x| | |]; try done; try apply Hint.
  destruct (PrimFloat.leb _ _); [done|]. cbn zeta.
  destruct (PrimFloat.ltb _ _); [done|].
  destruct (float_lookup _ _) as [i|] eqn:Hfloat; [|done].
  apply Hstore. apply float_lookup_Some in Hfloat as (k & Hk & _).
  destruct (Hd _ _ Hk). lia.
Qed.

Lemma build_state_ok_initial : build_state_ok initial_build_state 0.
Proof.
  split.
  - intros rt d Hd. unfold initial_build_state in Hd. cbn in Hd.
    apply lookup_insert_Some in Hd as [[_ <-]|[_ Hd]];
      [apply reuse_dict_ok_empty|].
    apply lookup_singleton_Some in Hd as [_ <-]. apply reuse_dict_ok_empty.
  - intros rt c z Hc Hz. unfold initial_build_state in Hc. cbn in Hc.
    apply lookup_insert_Some in Hc as [[_ <-]|[_ Hc]]; [set_solver|].
    apply lookup_singleton_Some in Hc as [_ <-]. set_solver.
  - constructor.
Qed.

(** The state after the reuse index [idx] of layer [b] has been stored. *)
Lemma build_state_ok_store st b reuse_type idx d' :
  build_state_ok st b -> 0 <= idx < b -> reuse_dict_ok d' (b + 1) ->
  build_state_ok
    {| reuse_state_layer_idx_dicts :=
         <[reuse_type := d']> (reuse_state_layer_idx_dicts st);
       state_cache_layers :=
         <[reuse_type := {[idx]} ∪
             default ∅ (state_cache_layers st !! reuse_type)]>
           (state_cache_layers st);
       layer_description_list := layer_description_list st;
       new_block_args_list := new_block_args_list st |} (b + 1).
Proof.
  intros [Hd Hc Hl] Hidx Hd'. split; cbn.
  - intros rt d Hrt. apply lookup_insert_Some in Hrt as [[_ <-]|[_ Hrt]];
      [done|]. eapply reuse_dict_ok_mono; [|by eapply Hd]. lia.
  - intros rt c z Hrt Hz.
    apply lookup_insert_Some in Hrt as [[_ <-]|[_ Hrt]].
    + apply elem_of_union in Hz as [Hz|Hz].
      * apply elem_of_singleton in Hz as ->. lia.
      * destruct (state_cache_layers st !! reuse_type) as [c0|] eqn:Hc0;
          cbn in Hz; [|set_solver].
        specialize (Hc _ _ _ Hc0 Hz). lia.
    + specialize (Hc _ _ _ Hrt Hz). lia.
  - done.
Qed.

Lemma build_state_ok_mono st b b' :
  b <= b' -> build_state_ok st b -> build_state_ok st b'.
Proof.
  intros Hle [Hd Hc Hl]. split; [| |done].
  - intros rt d Hrt. eapply reuse_dict_ok_mono; [|by eapply Hd]. done.
  - intros rt c z Hrt Hz. specialize (Hc _ _ _ Hrt Hz). lia.
Qed.

(** The override with the reuse index [idx] stored under [reuse_type], when
    the other reuse key is absent. *)
Lemma override_ok_store b d a reuse_type idx :
  is_reuse_type reuse_type -> 0 <= idx < b ->
  (forall other, is_reuse_type other -> other <> reuse_type ->
                 dict_get a other = None) ->
  override_ok b
    (dict_set d "attn_config" (VDict (dict_set a reuse_type (VInt idx)))).
Proof.
  intros Hrt Hidx Hother a' rt' v Hattn Hrt' Hv.
  rewrite dict_get_set_eq in Hattn. injection Hattn as <-.
  destruct (decide (reuse_type = rt')) as [<-|Hne].
  - rewrite dict_get_set_eq in Hv. injection Hv as <-. eauto.
  - rewrite dict_get_set_ne in Hv by done.
    rewrite Hother in Hv by done. done.
Qed.

(** The override step of a layer keeps the invariant, and the override it
    returns holds reuse indices of earlier layers only. *)
Lemma layer_override_config_ok bo expanded b_idx module_name st oc st1 :
  build_state_ok st b_idx ->
  layer_override_config bo expanded b_idx module_name st = Ok (oc, st1) ->
  build_state_ok st1 (b_idx + 1) /\ override_ok b_idx oc.
Proof.
  intros Hst. unfold layer_override_config.
  assert (Hmono : build_state_ok st (b_idx + 1))
    by (eapply build_state_ok_mono; [|done]; lia).
  case_bool_decide.
  { intros [= <- <-]. split; [done|]. intros a rt v Ha. done. }
  destruct (bo_overrides bo) as [ovs|]; [|done]. cbn [mbind result_bind Py.bind].
  destruct (dict_get ovs module_name) as [[| | | | | |d]|]; try done.
  cbn [mbind result_bind Py.bind].
  destruct (dict_get d "attn_config") as [attn|] eqn:Hattn; cbn [from_option id].
  2:{ cbn. intros [= <- <-]. split; [done|]. intros a rt v Ha.
      rewrite Hattn in Ha. done. }
  destruct (py_contains "reuse_kv_layer_idx" attn) as [has_kv|] eqn:Hkv;
    [|done].
  cbn [mbind result_bind Py.bind].
  assert (Hdict : forall rt (d0 : gmap Z Z),
    reuse_dict_ok (default ∅ (reuse_state_layer_idx_dicts st !! rt)) b_idx).
  { intros rt _.
    destruct (reuse_state_layer_idx_dicts st !! rt) as [d0|] eqn:Hd0; cbn.
    - by eapply (dicts_ok _ _ Hst).
    - apply reuse_dict_ok_empty. }
  destruct has_kv.
  - destruct (py_contains "reuse_kv_x_layer_idx" attn) as [[]|] eqn:Hkvx;
      try done.
    cbn [mbind result_bind Py.bind andb].
    destruct (_resolve_reuse_state_layer_idx _ _ _ _ _ _) as [[idx d']|]
      eqn:Hres; [|done].
    cbn [mbind result_bind Py.bind].
    apply resolve_returns in Hres as (Hidx & _ & Hd'); [|by apply Hdict].
    destruct attn as [| | | | | |a]; try done. intros [= <- <-].
    split; [by apply build_state_ok_store|].
    apply override_ok_store; [by left|done|].
    intros other [->| ->] Hne; [done|].
    apply dict_has_false. by injection Hkvx.
  - cbn [mbind result_bind Py.bind andb].
    destruct (py_contains "reuse_kv_x_layer_idx" attn) as [[]|] eqn:Hkvx;
      try done; cbn [mbind result_bind Py.bind].
    + destruct (_resolve_reuse_state_layer_idx _ _ _ _ _ _) as [[idx d']|]
        eqn:Hres; [|done].
      cbn [mbind result_bind Py.bind].
      apply resolve_returns in Hres as (Hidx & _ & Hd'); [|by apply Hdict].
      destruct attn as [| | | | | |a]; try done. intros [= <- <-].
      split; [by apply build_state_ok_store|].
      apply override_ok_store; [by right|done|].
      intros other [->| ->] Hne; [|done].
      apply dict_has_false. by injection Hkv.
    + intros [= <- <-]. split; [done|].
      intros a rt v Ha [->| ->] Hv; rewrite Hattn in Ha; injection Ha as ->.
      * injection Hkv as Hkv. apply dict_has_false in Hkv. congruence.
      * injection Hkvx as Hkvx. apply dict_has_false in Hkvx. congruence.
Qed.

Lemma build_layer_ok config bo block_args expanded i st st' :
  build_state_ok st (Z.of_nat i) ->
  build_layer config bo block_args expanded i st = Ok st' ->
  build_state_ok st' (Z.of_nat (S i)).
Proof.
  intros Hst. unfold build_layer.
  destruct (list_getitem expanded (Z.of_nat i)) as [name|]; [|done].
  cbn [mbind result_bind Py.bind].
  destruct (layer_override_config _ _ _ _ _) as [[oc st1]|] eqn:Hoc; [|done].
  cbn [mbind result_bind Py.bind].
  destruct (_override_block_args _ _ _) as [nb|]; [|done].
  cbn [mbind result_bind Py.bind]. intros [= <-].
  apply layer_override_config_ok in Hoc as [[Hd Hc Hl] Hoc]; [|done].
  replace (Z.of_nat (S i)) with (Z.of_nat i + 1) by lia.
  split; cbn; [done|done|].
  apply Forall_app. split; [done|]. by constructor.
Qed.

Lemma build_layers_ok config bo block_args expanded i n st st' :
  build_state_ok st (Z.of_nat i) ->
  build_layers config bo block_args expanded (seq i n) st = Ok st' ->
  build_state_ok st' (Z.of_nat (i + n)).
Proof.
  revert i st. induction n as [|n IH]; intros i st Hst; simpl.
  - intros [= <-]. by rewrite Nat.add_0_r.
  - destruct (build_layer _ _ _ _ _ _) as [st1|] eqn:H1; [|done].
    cbn [mbind result_bind Py.bind]. intros Hrest.
    apply build_layer_ok in H1; [|done].
    apply IH in Hrest; [|done].
    by replace (i + S n)%nat with (S i + n)%nat by lia.
Qed.

(** The loop fails as soon as the body fails for one of its layers. *)
Lemma build_layers_raises config bo block_args expanded indices i st :
  i ∈ indices ->
  (forall st0, is_Raise (build_layer config bo block_args expanded i st0)) ->
  is_Raise (build_layers config bo block_args expanded indices st).
Proof.
  intros Hi Hraise. revert st.
  induction indices as [|j indices IH]; intros st;
    [by apply elem_of_nil in Hi|].
  simpl. apply elem_of_cons in Hi as [<-|Hi].
  - specialize (Hraise st). by destruct (build_layer _ _ _ _ _ _).
  - destruct (build_layer _ _ _ _ _ _); [|done].
    cbn [mbind result_bind Py.bind]. by apply IH.
Qed.

(** The body of the loop fails for a layer whose override holds a reuse
    offset that is not negative or that leads before the first layer. *)
Lemma build_layer_bad_offset config bo block_args expanded i st
  module_name ovs oc a reuse_type off :
  expanded !! i = Some module_name -> module_name <> "default" ->
  bo_overrides bo = Some ovs -> dict_get ovs module_name = Some (VDict oc) ->
  dict_get oc "attn_config" = Some (VDict a) ->
  is_reuse_type reuse_type -> dict_get a reuse_type = Some (VInt off) ->
  0 <= off \/ Z.of_nat i + off < 0 ->
  is_Raise (build_layer config bo block_args expanded i st).
Proof.
  intros Hi Hname Hovs Hoc Hattn Hrt Hoff Hbad.
  unfold build_layer. rewrite (list_getitem_nat _ _ _ Hi).
  cbn [mbind result_bind Py.bind]. unfold layer_override_config.
  rewrite bool_decide_eq_false_2 by done. rewrite Hovs.
  cbn [mbind result_bind Py.bind]. rewrite Hoc.
  cbn [mbind result_bind Py.bind]. rewrite Hattn. cbn [from_option id py_contains].
  cbn [mbind result_bind Py.bind].
  assert (Hres : forall rt d,
    dict_get a rt = Some (VInt off) ->
    exists e, _resolve_reuse_state_layer_idx ovs expanded (Z.of_nat i) oc d rt
              = Raise e).
  { intros rt d Hrt_off. destruct (Z_lt_le_dec off 0) as [Hneg|Hge].
    - destruct Hbad as [Hbad|Hbad]; [lia|]. eexists.
      by eapply resolve_absolute_negative.
    - eexists. by eapply resolve_offset_not_negative. }
  destruct (dict_has a "reuse_kv_layer_idx") eqn:Hkv.
  - destruct (dict_has a "reuse_kv_x_layer_idx") eqn:Hkvx; [done|].
    cbn [mbind result_bind Py.bind andb].
    destruct Hrt as [->| ->].
    + destruct (Hres "reuse_kv_layer_idx"
                  (default ∅ (reuse_state_layer_idx_dicts st
                              !! "reuse_kv_layer_idx")) Hoff) as [e ->].
      done.
    + apply dict_has_false in Hkvx. congruence.
  - cbn [mbind result_bind Py.bind andb].
    destruct Hrt as [->| ->].
    + apply dict_has_false in Hkv. congruence.
    + assert (dict_has a "reuse_kv_x_layer_idx" = true) as ->.
      { unfold dict_has. apply bool_decide_eq_true_2. rewrite Hoff. eauto. }
      cbn [mbind result_bind Py.bind].
      destruct (Hres "reuse_kv_x_layer_idx"
                  (default ∅ (reuse_state_layer_idx_dicts st
                              !! "reuse_kv_x_layer_idx")) Hoff) as [e ->].
      done.
Qed.

(** An offset written as a float is held to the same two tests. Past them
    the call returns only when the float index equals a key of the
    dictionary, that is when it points to a layer that itself reuses the
    state of another one; the index returned is then the integer stored
    under that key. *)
Lemma resolve_float_offset ovs expanded b_idx oc a d reuse_type x :
  dict_get oc "attn_config" = Some (VDict a) ->
  dict_get a reuse_type = Some (VFloat x) ->
  (PrimFloat.leb PrimFloat.zero x = true ->
   _resolve_reuse_state_layer_idx ovs expanded b_idx oc d reuse_type
   = Raise (ValueError
       "The relative index of kv layer to reuse should be negative."))
  /\ (PrimFloat.leb PrimFloat.zero x = false ->
      PrimFloat.ltb (PrimFloat.add (float_of_int b_idx) x) PrimFloat.zero
      = true ->
      _resolve_reuse_state_layer_idx ovs expanded b_idx oc d reuse_type
      = Raise (ValueError
          "The absolute index of kv layer to reuse should be non-negative."))
  /\ (forall idx d',
        _resolve_reuse_state_layer_idx ovs expanded b_idx oc d reuse_type
        = Ok (idx, d') ->
        exists k,
          d !! k = Some idx
          /\ PrimFloat.eqb (PrimFloat.add (float_of_int b_idx) x)
                           (float_of_int k) = true
          /\ d' = <[b_idx := idx]> d).
Proof.
  intros Hattn Hoff. unfold _resolve_reuse_state_layer_idx.
  rewrite Hattn. cbn [mbind result_bind Py.bind py_getitem]. rewrite Hoff.
  cbn [mbind result_bind Py.bind]. split; [|split].
  - by intros ->.
  - by intros -> ->.
  - intros idx d'. destruct (PrimFloat.leb _ _); [done|]. cbn zeta.
    destruct (PrimFloat.ltb _ _); [done|].
    destruct (float_lookup _ _) as [i|] eqn:Hfloat; [|done].
    intros Hres. apply resolve_parent_returns in Hres as [-> ->].
    apply float_lookup_Some in Hfloat as (k & Hk & Heq). by exists k.
Qed.

(** C3. A reuse offset that is not negative, or that added to the index of
    the layer gives a negative index, makes [_resolve_reuse_state_layer_idx]
    raise, whether the offset is an integer or a float, and the construction
    of the blocks fail. Whenever the construction returns, every reuse index
    that it has stored (in the override of a layer, in the dictionaries that
    flatten the chains, and in [state_cache_layers]) is non-negative and
    strictly less than the index of the layer that refers to it; this
    includes the constructions that return on a float offset, where the
    index stored is the integer that the dictionary holds for the layer
    pointed to. *)
Theorem reuse_index_points_backward config block_args :
  (forall ovs expanded b_idx oc a d reuse_type off,
     dict_get oc "attn_config" = Some (VDict a) ->
     dict_get a reuse_type = Some (VInt off) ->
     (0 <= off ->
      _resolve_reuse_state_layer_idx ovs expanded b_idx oc d reuse_type
      = Raise (ValueError
          "The relative index of kv layer to reuse should be negative."))
     /\ (off < 0 -> b_idx + off < 0 ->
         _resolve_reuse_state_layer_idx ovs expanded b_idx oc d reuse_type
         = Raise (ValueError
             "The absolute index of kv layer to reuse should be non-negative.")))
  /\ (forall ovs expanded b_idx oc a d reuse_type x,
        dict_get oc "attn_config" = Some (VDict a) ->
        dict_get a reuse_type = Some (VFloat x) ->
        (PrimFloat.leb PrimFloat.zero x = true ->
         _resolve_reuse_state_layer_idx ovs expanded b_idx oc d reuse_type
         = Raise (ValueError
             "The relative index of kv layer to reuse should be negative."))
        /\ (PrimFloat.leb PrimFloat.zero x = false ->
            PrimFloat.ltb (PrimFloat.add (float_of_int b_idx) x)
              PrimFloat.zero = true ->
            _resolve_reuse_state_layer_idx ovs expanded b_idx oc d reuse_type
            = Raise (ValueError
                "The absolute index of kv layer to reuse should be non-negative."))
        /\ (forall idx d',
              _resolve_reuse_state_layer_idx ovs expanded b_idx oc d
                reuse_type = Ok (idx, d') ->
              exists k,
                d !! k = Some idx
                /\ PrimFloat.eqb (PrimFloat.add (float_of_int b_idx) x)
                                 (float_of_int k) = true
                /\ d' = <[b_idx := idx]> d))
  /\ (forall bo order expanded i module_name ovs oc a reuse_type off,
        block_overrides config = Some bo -> bo_order bo = Some order ->
        _get_modules_order_expanded order = Ok expanded ->
        list_mul expanded (default 1 (bo_repeat bo)) !! i = Some module_name ->
        module_name <> "default" ->
        bo_overrides bo = Some ovs ->
        dict_get ovs module_name = Some (VDict oc) ->
        dict_get oc "attn_config" = Some (VDict a) ->
        is_reuse_type reuse_type ->
        dict_get a reuse_type = Some (VInt off) ->
        0 <= off \/ Z.of_nat i + off < 0 ->
        is_Raise (_get_override_block_args_list config block_args))
  /\ (forall st,
        _get_override_block_args_list config block_args = Ok st ->
        (forall b_idx module_name oc a reuse_type v,
           (b_idx, module_name, oc) ∈ layer_description_list st ->
           dict_get oc "attn_config" = Some (VDict a) ->
           is_reuse_type reuse_type -> dict_get a reuse_type = Some v ->
           exists idx, v = VInt idx /\ 0 <= idx < b_idx)
        /\ (forall reuse_type d b_idx idx,
              reuse_state_layer_idx_dicts st !! reuse_type = Some d ->
              d !! b_idx = Some idx ->
              0 <= idx < b_idx /\ b_idx < n_layers config)
        /\ (forall reuse_type c idx,
              state_cache_layers st !! reuse_type = Some c -> idx ∈ c ->
              0 <= idx < n_layers config)).
Proof.
  split; [|split; [|split]].
  - intros ovs expanded b_idx oc a d rt off Hattn Hoff. split.
    + intros Hge. by eapply resolve_offset_not_negative.
    + intros Hneg Habs. by eapply resolve_absolute_negative.
  - intros ovs expanded b_idx oc a d rt x Hattn Hoff.
    by eapply resolve_float_offset.
  - intros bo order expanded i name ovs oc a rt off Hbo Horder Hexp Hi Hname
      Hovs Hoc Hattn Hrt Hoff Hbad.
    unfold _get_override_block_args_list. rewrite Hbo, Horder.
    cbn [mbind result_bind Py.bind]. rewrite Hexp.
    cbn [mbind result_bind Py.bind].
    destruct (Z.of_nat (length _) =? n_layers config) eqn:Hlen; [|done].
    apply Z.eqb_eq in Hlen. cbn [negb].
    eapply (build_layers_raises _ _ _ _ _ i).
    + apply elem_of_seq. apply lookup_lt_Some in Hi. lia.
    + intros st0. by eapply build_layer_bad_offset.
  - intros st. unfold _get_override_block_args_list.
    destruct (block_overrides config) as [bo|]; [|done].
    destruct (bo_order bo) as [order|]; [|done].
    cbn [mbind result_bind Py.bind].
    destruct (_get_modules_order_expanded order) as [expanded|]; [|done].
    cbn [mbind result_bind Py.bind].
    destruct (Z.of_nat (length _) =? n_layers config) eqn:Hlen; [|done].
    apply Z.eqb_eq in Hlen. cbn [negb]. intros Hbuild.
    apply (build_layers_ok _ _ _ _ 0%nat) in Hbuild;
      [|apply build_state_ok_initial].
    assert (Hn : Z.of_nat (0 + Z.to_nat (n_layers config)) = n_layers config)
      by lia.
    rewrite Hn in Hbuild. destruct Hbuild as [Hd Hc Hl].
    split; [|split].
    + intros b_idx name oc a rt v Hin Hattn Hrt Hv.
      eapply Forall_forall in Hl; [|exact Hin]. by eapply Hl.
    + intros rt d b_idx idx Hrt Hk. destruct (Hd _ _ Hrt _ _ Hk). lia.
    + intros rt c idx Hrt Hin. by eapply Hc.
Qed.

(** The construction returns on the example: the second layer reuses layer
    0, and the third, which points to the second, is flattened to layer 0
    as well. *)
Example reuse_example_resolved :
  exists st,
    _get_override_block_args_list reuse_example example_block_args = Ok st
    /\ layer_description_list st
       = [(0, "default", []);
          (1, "kv_reuse",
           [("attn_config", VDict [("reuse_kv_layer_idx", VInt 0)])]);
          (2, "kv_reuse",
           [("attn_config", VDict [("reuse_kv_layer_idx", VInt 0)])])]
    /\ new_block_args_list st !! 2%nat
       = Some [("attn_config",
                VDict [("reuse_kv_layer_idx", VInt 0);
                       ("attn_impl", VStr "flash")]);
               ("d_model", VInt 64)].
Proof. eexists. split; [reflexivity|]. split; reflexivity. Qed.

(** The construction returns on the example with the float offset: the
    float index [1.0] of the third layer is replaced by the index [0] that
    the dictionary holds for layer 1, and it is that integer which is stored
    in the override, in the dictionary and in [state_cache_layers]. *)
Example reuse_float_example_resolved :
  exists st,
    _get_override_block_args_list reuse_float_example example_block_args
    = Ok st
    /\ layer_description_list st
       = [(0, "default", []);
          (1, "kv_reuse",
           [("attn_config", VDict [("reuse_kv_layer_idx", VInt 0)])]);
          (2, "kv_float",
           [("attn_config", VDict [("reuse_kv_layer_idx", VInt 0)])])]
    /\ reuse_state_layer_idx_dicts st !! "reuse_kv_layer_idx"
       = Some {[ 1 := 0; 2 := 0 ]}
    /\ state_cache_layers st !! "reuse_kv_layer_idx" = Some {[ 0 ]}.
Proof.
  eexists. split; [reflexivity|]. split; [reflexivity|].
  split; by vm_compute.
Qed.

(** A float offset that points to a layer which reuses nothing is not a key
    of the dictionary: the float index reaches the list of the module names,
    which refuses it. *)
Example reuse_float_offset_refused :
  _resolve_reuse_state_layer_idx [] ["default"; "kv_float"] 1
    [("attn_config", VDict [("reuse_kv_layer_idx", VFloat (PrimFloat.opp PrimFloat.one))])]
    ∅ "reuse_kv_layer_idx"
  = Raise (TypeError "list indices must be integers or slices").
Proof. reflexivity. Qed.

(** *** Left padding *)

(** C5. With sequence-id masking active (a sequence id is given,
    [attn_uses_sequence_id] is set and the implementation is flash), an
    attention mask whose first column does not sum to the batch size makes
    the generation of the sequence-id mask raise [NotImplementedError]; no
    mask is produced, by none of its three entry points. *)
Theorem left_padding_rejected sequence_id S attention_mask s :
  first_column_sum attention_mask = Ok s ->
  s <> shape_first attention_mask ->
  _get_attn_mask_in_len_seq_one_hot (Some sequence_id) S true "flash"
    (Some attention_mask)
  = Raise (NotImplementedError
      "Left padding is not supported with flash attention when attn_uses_sequence_id is set to True.")
  /\ gen_attention_mask_in_length (Some sequence_id) S true "flash"
       (Some attention_mask)
     = Raise (NotImplementedError
         "Left padding is not supported with flash attention when attn_uses_sequence_id is set to True.")
  /\ gen_sequence_id_info (Some sequence_id) S true "flash"
       (Some attention_mask)
     = Raise (NotImplementedError
         "Left padding is not supported with flash attention when attn_uses_sequence_id is set to True.").
Proof.
  intros Hsum Hne.
  assert (H : _get_attn_mask_in_len_seq_one_hot (Some sequence_id) S true
                "flash" (Some attention_mask)
    = Raise (NotImplementedError
        "Left padding is not supported with flash attention when attn_uses_sequence_id is set to True.")).
  { unfold _get_attn_mask_in_len_seq_one_hot. cbn [andb].
    rewrite bool_decide_eq_true_2 by done. rewrite Hsum.
    cbn [mbind result_bind Py.bind].
    by apply Z.eqb_neq in Hne as ->. }
  unfold gen_attention_mask_in_length, gen_sequence_id_info.
  rewrite H. done.
Qed.

Lemma left_padding_rejected_witness :
  _get_attn_mask_in_len_seq_one_hot (Some [[0; 0; 0]; [0; 0; 1]]) 3 true
    "flash" (Some [[false; true; true]; [true; true; true]])
  = Raise (NotImplementedError
      "Left padding is not supported with flash attention when attn_uses_sequence_id is set to True.")
  /\ gen_attention_mask_in_length (Some [[0; 0; 0]; [0; 0; 1]]) 3 true
       "flash" (Some [[false; true; true]; [true; true; true]])
     = Raise (NotImplementedError
         "Left padding is not supported with flash attention when attn_uses_sequence_id is set to True.")
  /\ gen_sequence_id_info (Some [[0; 0; 0]; [0; 0; 1]]) 3 true "flash"
       (Some [[false; true; true]; [true; true; true]])
     = Raise (NotImplementedError
         "Left padding is not supported with flash attention when attn_uses_sequence_id is set to True.").
Proof.
  apply (left_padding_rejected [[0; 0; 0]; [0; 0; 1]] 3
           [[false; true; true]; [true; true; true]] 1);
    [reflexivity | discriminate].
Defined.

(** *** Targets and loss *)

Lemma set_last_column_cons {A} (v : A) row t :
  row <> [] ->
  set_last_column v (row :: t)
  = rest ← set_last_column v t; Ok ((removelast row ++ [v]) :: rest).
Proof. intros Hrow. destruct row; [done|]. reflexivity. Qed.

Lemma take_succ_length_app {A} (row : list A) z zs :
  take (S (length row)) (row ++ z :: zs) = row ++ [z].
Proof. induction row as [|a row IH]; simpl; [done|]. by rewrite IH. Qed.

Lemma drop_succ_length_app {A} (row : list A) z zs :
  drop (S (length row)) (row ++ z :: zs) = zs.
Proof. induction row as [|a row IH]; simpl; [done|]. by rewrite IH. Qed.

(** Rolling the flattened tensor and overwriting the last column is the
    shift of every row: what the roll carries over the end of a row lands in
    the last column. *)
Lemma set_last_column_rolled {A} (v y : A) (rows : list (list A)) :
  Forall (fun row => row <> []) rows ->
  set_last_column v
    (unflatten (map length rows) (drop 1 (concat rows) ++ [y]))
  = Ok (map (fun row => drop 1 row ++ [v]) rows).
Proof.
  induction 1 as [|row rows Hrow Hrows IH]; [done|].
  destruct row as [|a row]; [done|]. clear Hrow.
  cbn [map length concat unflatten]. cbn [app drop].
  rewrite drop_0, <- app_assoc.
  destruct Hrows as [|row' rows Hrow' Hrows].
  - cbn [concat app map unflatten].
    rewrite take_succ_length_app, set_last_column_cons
      by (by destruct row).
    cbn. by rewrite removelast_last.
  - destruct row' as [|b row']; [done|].
    cbn [concat]. rewrite <- !app_comm_cons.
    rewrite take_succ_length_app, drop_succ_length_app.
    rewrite set_last_column_cons by (by destruct row).
    cbn [concat drop app] in IH. rewrite drop_0 in IH.
    rewrite <- app_assoc. rewrite <- app_assoc in IH.
    cbn [map length] in IH |- *. rewrite IH.
    cbn. by rewrite removelast_last.
Qed.

Lemma get_targets_shifted labels :
  Forall (fun row => row <> []) labels ->
  get_targets labels = Ok (shifted_targets labels).
Proof.
  intros Hrows. unfold get_targets, roll_left, shifted_targets.
  destruct labels as [|[|a row] labels]; [done| |].
  - by apply Forall_cons in Hrows as [? _].
  - replace (take 1 (concat ((a :: row) :: labels))) with [a] by done.
    by apply set_last_column_rolled.
Qed.

(** A row without entries has no last column. *)
Lemma get_targets_empty_row labels :
  [] ∈ labels -> is_Raise (get_targets labels).
Proof.
  intros Hin. unfold get_targets, roll_left.
  generalize (drop 1 (concat labels) ++ take 1 (concat labels)).
  induction labels as [|row labels IH]; intros flat;
    [by apply elem_of_nil in Hin|].
  apply elem_of_cons in Hin as [<-|Hin]; [done|].
  cbn [map unflatten]. specialize (IH Hin (drop (length row) flat)).
  cbn [set_last_column]. destruct (take (length row) flat); [done|].
  by destruct (set_last_column _ _).
Qed.

Lemma all_ignored_count ignore_index targets :
  all_ignored ignore_index targets = true ->
  count_not_ignored ignore_index targets = 0.
Proof.
  unfold all_ignored, count_not_ignored. intros Hall.
  induction targets as [|t targets IH]; [done|].
  cbn in Hall. apply andb_true_iff in Hall as [Ht Hall].
  apply bool_decide_eq_true in Ht.
  rewrite filter_cons_False by (intros Hne; done). by apply IH.
Qed.

Lemma not_all_ignored_count ignore_index targets :
  all_ignored ignore_index targets = false ->
  0 < count_not_ignored ignore_index targets.
Proof.
  unfold all_ignored, count_not_ignored. intros Hall.
  induction targets as [|t targets IH]; [done|].
  cbn in Hall. destruct (decide (t = ignore_index)) as [Ht|Ht].
  - rewrite bool_decide_eq_true_2 in Hall by done.
    rewrite filter_cons_False by (intros Hne; done). by apply IH.
  - rewrite filter_cons_True by done. simpl. lia.
Qed.

(** Under a loss function that gives [fzero] for an ignored target, the
    losses of targets that are all ignored are all [fzero]. *)
Lemma losses_all_zero {F} (fzero : F) ignore_index targets (losses : list F) :
  all_ignored ignore_index targets = true ->
  Forall2 (fun t l => t = ignore_index -> l = fzero) targets losses ->
  losses = replicate (length targets) fzero.
Proof.
  intros Hall Hloss. induction Hloss as [|t l targets losses Hl _ IH];
    [done|].
  cbn in Hall. apply andb_true_iff in Hall as [Ht Hall].
  apply bool_decide_eq_true in Ht. cbn. by rewrite Hl, IH.
Qed.

(** The binary64 sum of zeros is zero. *)
Lemma float_sum_zeros n :
  float_sum (replicate n PrimFloat.zero) = PrimFloat.zero.
Proof. unfold float_sum. induction n as [|n IH]; [done|]. exact IH. Qed.

(** C6. When every target is the ignore index, [compute_loss_from_logits]
    returns the sum of the per-token losses and does not divide by the count
    of the other targets, which is zero; with a loss function that gives zero
    for an ignored target (as the two loss functions of the model do) this is
    a sum of zeros, finite as soon as the tensor library sums zeros to a
    finite number. When some target is not ignored, it returns the sum
    divided by the count of the targets that are not ignored, which is
    positive. *)
Theorem compute_loss_guards_all_ignored {F Logits : Type}
  (fsum : list F -> F) (fdiv : F -> Z -> F)
  (loss_fn : Logits -> list Z -> list F) (ignore_index : Z)
  (fzero : F) (finite : F -> Prop)
  (logits : Logits) (shift_labels : bool) (labels targets : list (list Z)) :
  (if shift_labels then get_targets labels else Ok labels) = Ok targets ->
  let losses := loss_fn logits (concat targets) in
  let count := count_not_ignored ignore_index (concat targets) in
  (all_ignored ignore_index (concat targets) = true ->
   compute_loss_from_logits fsum fdiv loss_fn ignore_index logits
     shift_labels labels = Ok (fsum losses)
   /\ count = 0
   /\ (Forall2 (fun t l => t = ignore_index -> l = fzero)
         (concat targets) losses ->
       finite (fsum (replicate (length (concat targets)) fzero)) ->
       finite (fsum losses)))
  /\ (all_ignored ignore_index (concat targets) = false ->
      compute_loss_from_logits fsum fdiv loss_fn ignore_index logits
        shift_labels labels = Ok (fdiv (fsum losses) count)
      /\ 0 < count).
Proof.
  intros Htargets losses count. unfold compute_loss_from_logits.
  rewrite Htargets. cbn [mbind result_bind Py.bind]. split.
  - intros Hall. rewrite Hall. split; [done|].
    split; [by apply all_ignored_count|].
    intros Hzero Hfin.
    by rewrite (losses_all_zero fzero _ _ losses Hall Hzero).
  - intros Hall. rewrite Hall. split; [done|].
    by apply not_all_ignored_count.
Qed.

Lemma compute_loss_guards_all_ignored_witness :
  let losses := unit_loss (-100) tt (concat [[-100; -100; -100]]) in
  let count := count_not_ignored (-100) (concat [[-100; -100; -100]]) in
  (all_ignored (-100) (concat [[-100; -100; -100]]) = true ->
   compute_loss_from_logits float_sum float_div (unit_loss (-100)) (-100) tt
     true [[7; -100; -100]] = Ok (float_sum losses)
   /\ count = 0
   /\ (Forall2 (fun t l => t = -100 -> l = PrimFloat.zero)
         (concat [[-100; -100; -100]]) losses ->
       float_finite
         (float_sum (replicate (length (concat [[-100; -100; -100]]))
                       PrimFloat.zero)) ->
       float_finite (float_sum losses)))
  /\ (all_ignored (-100) (concat [[-100; -100; -100]]) = false ->
      compute_loss_from_logits float_sum float_div (unit_loss (-100)) (-100)
        tt true [[7; -100; -100]] = Ok (float_div (float_sum losses) count)
      /\ 0 < count).
Proof.
  apply (compute_loss_guards_all_ignored float_sum float_div
           (unit_loss (-100)) (-100) PrimFloat.zero float_finite tt true
           [[7; -100; -100]] [[-100; -100; -100]]).
  reflexivity.
Defined.

(** For binary64 scalars the loss of an all-ignored batch is 0.0, finite
    and not NaN, whatever the size of the batch. *)
Corollary compute_loss_all_ignored_binary64 {Logits : Type}
  (loss_fn : Logits -> list Z -> list PrimFloat.float) (ignore_index : Z)
  (logits : Logits) (shift_labels : bool) (labels targets : list (list Z)) :
  (if shift_labels then get_targets labels else Ok labels) = Ok targets ->
  all_ignored ignore_index (concat targets) = true ->
  Forall2 (fun t l => t = ignore_index -> l = PrimFloat.zero)
    (concat targets) (loss_fn logits (concat targets)) ->
  compute_loss_from_logits float_sum float_div loss_fn ignore_index logits
    shift_labels labels = Ok PrimFloat.zero
  /\ float_finite PrimFloat.zero.
Proof.
  intros Htargets Hall Hzero. unfold compute_loss_from_logits.
  rewrite Htargets. cbn [mbind result_bind Py.bind]. rewrite Hall.
  rewrite (losses_all_zero PrimFloat.zero _ _ _ Hall Hzero), float_sum_zeros.
  done.
Qed.

(** C10. With labels supplied, the loss of [MPTForCausalLM.forward] is the
    cross entropy with mean reduction over the targets obtained by shifting
    every row of labels left by one position and putting the ignore index
    -100 in the final position: the sum of the per-token losses divided by
    the count of the targets that are not ignored, also when that count is
    zero. On a batch whose targets are all ignored, [forward] divides by
    zero where [compute_loss_from_logits] returns the sum; on any other
    batch the two agree when their per-token losses agree. *)
Theorem forward_loss_divides_without_guard {F Logits : Type}
  (fsum : list F -> F) (fdiv : F -> Z -> F)
  (loss_fn token_loss : Logits -> list Z -> list F)
  (logits : Logits) (labels : list (list Z)) :
  Forall (fun row => row <> []) labels ->
  let targets := concat (shifted_targets labels) in
  let count := count_not_ignored CROSS_ENTROPY_IGNORE_INDEX targets in
  forward_loss fsum fdiv token_loss logits (Some labels)
  = Ok (Some (fdiv (fsum (token_loss logits targets)) count))
  /\ (all_ignored CROSS_ENTROPY_IGNORE_INDEX targets = true ->
      count = 0
      /\ compute_loss_from_logits fsum fdiv loss_fn
           CROSS_ENTROPY_IGNORE_INDEX logits true labels
         = Ok (fsum (loss_fn logits targets)))
  /\ (all_ignored CROSS_ENTROPY_IGNORE_INDEX targets = false ->
      token_loss logits targets = loss_fn logits targets ->
      Some <$> compute_loss_from_logits fsum fdiv loss_fn
                 CROSS_ENTROPY_IGNORE_INDEX logits true labels
      = forward_loss fsum fdiv token_loss logits (Some labels)).
Proof.
  intros Hrows targets count.
  pose proof (get_targets_shifted labels Hrows) as Hget.
  assert (Hfwd : forward_loss fsum fdiv token_loss logits (Some labels)
    = Ok (Some (fdiv (fsum (token_loss logits targets)) count))).
  { unfold forward_loss. unfold get_targets in Hget. by rewrite Hget. }
  split; [done|]. unfold compute_loss_from_logits. rewrite Hget.
  cbn [mbind result_bind Py.bind]. fold targets. split.
  - intros Hall. rewrite Hall. split; [|done]. by apply all_ignored_count.
  - intros Hall Hsame. rewrite Hall, Hfwd, Hsame. done.
Qed.

Lemma forward_loss_divides_without_guard_witness :
  let targets := concat (shifted_targets [[7; -100; -100]]) in
  let count := count_not_ignored CROSS_ENTROPY_IGNORE_INDEX targets in
  forward_loss float_sum float_div (unit_loss (-100)) tt
    (Some [[7; -100; -100]])
  = Ok (Some (float_div (float_sum (unit_loss (-100) tt targets)) count))
  /\ (all_ignored CROSS_ENTROPY_IGNORE_INDEX targets = true ->
      count = 0
      /\ compute_loss_from_logits float_sum float_div (unit_loss (-100))
           CROSS_ENTROPY_IGNORE_INDEX tt true [[7; -100; -100]]
         = Ok (float_sum (unit_loss (-100) tt targets)))
  /\ (all_ignored CROSS_ENTROPY_IGNORE_INDEX targets = false ->
      unit_loss (-100) tt targets = unit_loss (-100) tt targets ->
      Some <$> compute_loss_from_logits float_sum float_div
                 (unit_loss (-100)) CROSS_ENTROPY_IGNORE_INDEX tt true
                 [[7; -100; -100]]
      = forward_loss float_sum float_div (unit_loss (-100)) tt
          (Some [[7; -100; -100]])).
Proof.
  apply (forward_loss_divides_without_guard float_sum float_div
           (unit_loss (-100)) (unit_loss (-100)) tt [[7; -100; -100]]).
  repeat constructor; discriminate.
Defined.

(** On binary64 scalars: for the labels [7, -100, -100] every target is
    ignored; [forward] returns NaN (0.0 / 0) and
    [compute_loss_from_logits] returns 0.0. *)
Example forward_loss_all_ignored_nan :
  forward_loss float_sum float_div (unit_loss (-100)) tt
    (Some [[7; -100; -100]]) = Ok (Some PrimFloat.nan)
  /\ compute_loss_from_logits float_sum float_div (unit_loss (-100)) (-100)
       tt true [[7; -100; -100]] = Ok PrimFloat.zero.
Proof. split; reflexivity. Qed.

(** *** Segment lengths and positions within the sequences *)

Lemma coord_zip_add a b n :
  length a = length b ->
  coord (zip_with Z.add a b) n = coord a n + coord b n.
Proof.
  intros Hlen. unfold coord. rewrite lookup_zip_with.
  destruct (a !! n) as [x|] eqn:Ha, (b !! n) as [y|] eqn:Hb; cbn; try done.
  - apply lookup_lt_Some in Ha. apply lookup_ge_None in Hb. lia.
  - apply lookup_ge_None in Ha. apply lookup_lt_Some in Hb. lia.
Qed.

Lemma coord_replicate_zero m n : coord (replicate m 0) n = 0.
Proof.
  unfold coord. destruct (replicate m 0 !! n) as [x|] eqn:Hx; [|done].
  by apply lookup_replicate in Hx as [-> _].
Qed.

(** The sum over the tokens of a row, entry by entry. *)
Lemma sum_dim1_spec (width : nat) (row : list (list Z)) :
  Forall (fun v => length v = width) row ->
  length (sum_dim1 width row) = width
  /\ forall n, coord (sum_dim1 width row) n
               = sum_Z (map (fun v => coord v n) row).
Proof.
  unfold sum_dim1. induction 1 as [|v row Hv _ [IHlen IH]]; cbn.
  - split; [apply length_replicate|]. intros n. apply coord_replicate_zero.
  - split; [rewrite length_zip_with; lia|].
    intros n. rewrite coord_zip_add by lia. by rewrite IH.
Qed.

(** The running sum over the tokens of a row, entry by entry. *)
Lemma cumsum_from_spec (width : nat) acc (row : list (list Z)) t w :
  length acc = width -> Forall (fun v => length v = width) row ->
  cumsum_from acc row !! t = Some w ->
  length w = width
  /\ forall n, coord w n
               = coord acc n
                 + sum_Z (map (fun v => coord v n) (take (S t) row)).
Proof.
  intros Hacc Hrow. revert acc t Hacc.
  induction Hrow as [|v row Hv _ IH]; intros acc t Hacc; [done|].
  cbn [cumsum_from]. destruct t as [|t]; cbn [lookup list_lookup].
  - intros [= <-]. split; [rewrite length_zip_with; lia|].
    intros n. rewrite coord_zip_add by lia. cbn. rewrite take_0. cbn. lia.
  - intros Hw. apply IH in Hw as [Hlen Hw]; [|rewrite length_zip_with; lia].
    split; [done|]. intros n. rewrite Hw, coord_zip_add by lia.
    cbn [take map sum_Z foldr]. unfold sum_Z. lia.
Qed.

Lemma length_one_hot_vec num_classes id :
  length (one_hot_vec num_classes id) = Z.to_nat num_classes.
Proof. unfold one_hot_vec. by rewrite length_map, length_seqZ. Qed.

Lemma coord_one_hot_vec num_classes id n :
  Z.of_nat n < num_classes ->
  coord (one_hot_vec num_classes id) n
  = if bool_decide (id = Z.of_nat n) then 1 else 0.
Proof.
  intros Hn. unfold coord, one_hot_vec.
  rewrite list_lookup_fmap, lookup_seqZ_lt by done. cbn.
  rewrite Z.add_0_l. apply (f_equal (fun b : bool => if b then 1 else 0)).
  apply bool_decide_ext. split; congruence.
Qed.

Lemma length_hot num_classes id keep :
  length (hot num_classes id keep) = Z.to_nat num_classes.
Proof.
  unfold hot. destruct keep; rewrite ?length_map; apply length_one_hot_vec.
Qed.

Lemma coord_hot num_classes id keep n :
  Z.of_nat n < num_classes ->
  coord (hot num_classes id keep) n
  = if keep && bool_decide (id = Z.of_nat n) then 1 else 0.
Proof.
  intros Hn. unfold hot. destruct keep; cbn [andb].
  - by apply coord_one_hot_vec.
  - unfold coord. rewrite list_lookup_fmap.
    by destruct (one_hot_vec num_classes 0 !! n).
Qed.

(** The product with a vector of zeros sums to zero. *)
Lemma dot_zero v w :
  Forall (eq 0) v -> sum_Z (zip_with Z.mul v w) = 0.
Proof.
  intros Hv. revert w. induction Hv as [|x v <- _ IH]; intros [|y w];
    cbn; try done. by rewrite IH.
Qed.

(** The product with a vector that is one at [i] and zero elsewhere picks
    the entry [i]. *)
Lemma coord_cons_0 x v : coord (x :: v) 0 = x.
Proof. reflexivity. Qed.

Lemma coord_cons_S x v n : coord (x :: v) (S n) = coord v n.
Proof. reflexivity. Qed.

Lemma sum_Z_cons x l : sum_Z (x :: l) = x + sum_Z l.
Proof. reflexivity. Qed.

Lemma dot_unit v w (i : nat) :
  length v = length w -> (i < length v)%nat ->
  (forall n, (n < length v)%nat ->
             coord v n = if bool_decide (n = i) then 1 else 0) ->
  sum_Z (zip_with Z.mul v w) = coord w i.
Proof.
  revert w i. induction v as [|x v IH]; intros [|y w] i Hlen Hi Hv;
    try (cbn in Hlen, Hi; lia).
  cbn [zip_with]. rewrite sum_Z_cons. cbn [length] in *.
  assert (Hx : x = if bool_decide (0%nat = i) then 1 else 0).
  { rewrite <- (Hv 0%nat) by lia. by rewrite coord_cons_0. }
  destruct i as [|i].
  - rewrite bool_decide_eq_true_2 in Hx by done. subst x.
    rewrite coord_cons_0, dot_zero; [lia|].
    apply Forall_forall. intros z Hz.
    apply list_elem_of_lookup in Hz as [n Hn].
    assert (Hlt : (S n < S (length v))%nat)
      by (apply lookup_lt_Some in Hn; lia).
    specialize (Hv (S n) Hlt). rewrite coord_cons_S in Hv.
    rewrite bool_decide_eq_false_2 in Hv by done.
    unfold coord in Hv. rewrite Hn in Hv. done.
  - rewrite bool_decide_eq_false_2 in Hx by done. subst x.
    rewrite coord_cons_S, (IH w i); [lia|lia|lia|].
    intros n Hn. assert (Hlt : (S n < S (length v))%nat) by lia.
    specialize (Hv (S n) Hlt). rewrite coord_cons_S in Hv. rewrite Hv.
    apply (f_equal (fun b : bool => if b then 1 else 0)).
    apply bool_decide_ext. lia.
Qed.

(** The product of the one-hot vector of a token with a vector [w]: the
    entry of [w] for the id of a token that is kept, zero for a padded
    one. *)
Lemma dot_hot num_classes id keep w :
  (keep = true -> 0 <= id < num_classes) ->
  length w = Z.to_nat num_classes ->
  sum_Z (zip_with Z.mul (hot num_classes id keep) w)
  = if keep then coord w (Z.to_nat id) else 0.
Proof.
  intros Hid Hw. destruct keep.
  - specialize (Hid eq_refl). apply dot_unit.
    + by rewrite length_hot.
    + rewrite length_hot. lia.
    + intros n Hn. rewrite length_hot in Hn.
      rewrite coord_hot by lia. cbn [andb].
      apply (f_equal (fun b : bool => if b then 1 else 0)).
      apply bool_decide_ext. lia.
  - apply dot_zero. unfold hot. apply Forall_forall. intros z Hz.
    apply list_elem_of_fmap in Hz as (? & -> & _). done.
Qed.

Lemma hot_row_lengths num_classes ids keep :
  Forall (fun v => length v = Z.to_nat num_classes)
    (zip_with (hot num_classes) ids keep).
Proof.
  apply Forall_forall. intros v Hv.
  apply list_elem_of_lookup in Hv as [t Ht].
  apply lookup_zip_with_Some in Ht as (id & k & -> & _ & _).
  apply length_hot.
Qed.

(** The entries [n] of the one-hot vectors of a row count the tokens of the
    segment [n]. *)
Lemma hot_row_count num_classes ids keep n :
  Z.of_nat n < num_classes ->
  sum_Z (map (fun v => coord v n) (zip_with (hot num_classes) ids keep))
  = segment_count ids keep (Z.of_nat n).
Proof.
  intros Hn. unfold segment_count. revert keep.
  induction ids as [|id ids IH]; intros [|k keep]; try done.
  cbn [zip_with map]. rewrite !sum_Z_cons, IH, coord_hot by done. done.
Qed.

Lemma segment_count_nonneg ids keep c : 0 <= segment_count ids keep c.
Proof.
  unfold segment_count. revert keep.
  induction ids as [|id ids IH]; intros [|k keep]; try done.
  cbn [zip_with]. rewrite sum_Z_cons. specialize (IH keep).
  destruct (k && bool_decide (id = c)); lia.
Qed.

(** The count of a segment over a prefix of the row is at most the count
    over the whole row. *)
Lemma segment_count_take n ids keep c :
  segment_count (take n ids) (take n keep) c <= segment_count ids keep c.
Proof.
  revert ids keep. induction n as [|n IH]; intros ids keep.
  - rewrite !take_0. apply segment_count_nonneg.
  - destruct ids as [|id ids], keep as [|k keep];
      try (unfold segment_count; cbn; lia).
    unfold segment_count in *. cbn [take zip_with].
    rewrite !sum_Z_cons. specialize (IH ids keep). lia.
Qed.

(** A token that is kept counts for its own segment. *)
Lemma segment_count_take_S t ids keep id :
  ids !! t = Some id -> keep !! t = Some true ->
  segment_count (take (S t) ids) (take (S t) keep) id
  = segment_count (take t ids) (take t keep) id + 1.
Proof.
  revert ids keep. induction t as [|t IH]; intros [|i ids] [|k keep];
    try done.
  - intros [= ->] [= ->]. unfold segment_count. cbn.
    by rewrite bool_decide_eq_true_2.
  - intros Hid Hk. cbn in Hid, Hk. specialize (IH ids keep Hid Hk).
    unfold segment_count in *. cbn [take zip_with] in *.
    rewrite !sum_Z_cons. cbn [take] in IH. lia.
Qed.

Lemma length_cumsum_from acc row : length (cumsum_from acc row) = length row.
Proof.
  revert acc. induction row as [|v row IH]; intros acc; [done|].
  cbn. by rewrite IH.
Qed.

(** The segment lengths of a row, as [sum(dim=1)] computes them. *)
Lemma row_segment_length num_classes ids keep n :
  Z.of_nat n < num_classes ->
  coord (sum_dim1 (Z.to_nat num_classes) (zip_with (hot num_classes) ids keep))
    n = segment_count ids keep (Z.of_nat n).
Proof.
  intros Hn.
  destruct (sum_dim1_spec (Z.to_nat num_classes)
              (zip_with (hot num_classes) ids keep)
              (hot_row_lengths _ _ _)) as [_ ->].
  by apply hot_row_count.
Qed.

(** Padding or cropping to the sequence length keeps the entries below
    it. *)
Lemma coord_pad_right S v n :
  Z.of_nat n < S -> (n < length v)%nat ->
  coord (pad_right (S - Z.of_nat (length v)) v) n = coord v n.
Proof.
  intros HS Hv. unfold pad_right, coord.
  destruct (0 <=? S - Z.of_nat (length v)) eqn:Hpad.
  - by rewrite lookup_app_l.
  - rewrite lookup_take_lt; [done|]. lia.
Qed.

(** The position of a token within its sequence, as the cumulative sum
    computes it: one less than the number of tokens of its segment up to and
    including it, and -1 for a padded token. *)
Lemma row_position num_classes ids keep t id k :
  ids !! t = Some id -> keep !! t = Some k ->
  (k = true -> 0 <= id < num_classes) ->
  let row := zip_with (hot num_classes) ids keep in
  map (fun v => sum_Z v - 1)
    (zip_with (zip_with Z.mul) row (cumsum_dim1 (Z.to_nat num_classes) row))
  !! t
  = Some (if k
          then segment_count (take (S t) ids) (take (S t) keep) id - 1
          else -1).
Proof.
  intros Hid Hk Hbound row.
  assert (Hrow : row !! t = Some (hot num_classes id k)).
  { unfold row. apply lookup_zip_with_Some. eauto. }
  destruct (cumsum_dim1 (Z.to_nat num_classes) row !! t) as [w|] eqn:Hw.
  2:{ apply lookup_ge_None in Hw. unfold cumsum_dim1 in Hw.
      rewrite length_cumsum_from in Hw. apply lookup_lt_Some in Hrow. lia. }
  rewrite list_lookup_fmap, lookup_zip_with, Hrow, Hw. cbn.
  apply cumsum_from_spec with (width := Z.to_nat num_classes) in Hw
    as [Hlen Hcoord]; [|apply length_replicate|apply hot_row_lengths].
  rewrite dot_hot by done. destruct k; [|done].
  specialize (Hbound eq_refl).
  rewrite Hcoord, coord_replicate_zero. unfold row.
  rewrite zip_with_take, hot_row_count by lia.
  rewrite Z2Nat.id by lia. do 2 f_equal; lia.
Qed.

(** Shapes and entries of a batch. *)
Lemma length_concat_shape {A B} (a : list (list A)) (b : list (list B)) :
  map length a = map length b -> length (concat a) = length (concat b).
Proof.
  revert b. induction a as [|x a IH]; intros [|y b] Hshape;
    try discriminate Hshape; [done|].
  injection Hshape as Hxy Hab. cbn. rewrite !length_app, (IH b); [lia|done].
Qed.

Lemma elem_of_concat_lookup {A} (t : list (list A)) b row i x :
  t !! b = Some row -> row !! i = Some x -> x ∈ concat t.
Proof.
  revert b. induction t as [|r t IH]; intros [|b] Hrow Hx; try done; cbn.
  - injection Hrow as ->. apply elem_of_app. left.
    by eapply list_elem_of_lookup_2.
  - apply elem_of_app. right. by eapply IH.
Qed.

Lemma zip_rows_shape {A B C} (f : A -> B -> C) (a : list (list A))
  (b : list (list B)) :
  map length a = map length b ->
  map length (zip_with (zip_with f) a b) = map length a.
Proof.
  revert b. induction a as [|x a IH]; intros [|y b] Hshape;
    try discriminate Hshape; [done|].
  injection Hshape as Hxy Hab. cbn. rewrite IH by done.
  by rewrite length_zip_with_l_eq.
Qed.

Lemma foldr_max_bound x l : x ∈ l -> x <= foldr Z.max 0 l.
Proof.
  induction l as [|y l IH]; intros Hx; [by apply elem_of_nil in Hx|].
  cbn. apply elem_of_cons in Hx as [->|Hx]; [lia|]. specialize (IH Hx). lia.
Qed.

(** What [one_hot] returns. *)
Lemma one_hot_returns sequence_id t :
  one_hot sequence_id = Ok t ->
  exists num_classes,
    0 < num_classes
    /\ t = map (map (one_hot_vec num_classes)) sequence_id
    /\ concat sequence_id <> []
    /\ forall id, id ∈ concat sequence_id -> 0 <= id < num_classes.
Proof.
  unfold one_hot. destruct (concat sequence_id) as [|i ids] eqn:Hids; [done|].
  destruct (existsb _ _) eqn:Hneg; [done|]. intros [= <-].
  assert (Hpos : forall id, id ∈ i :: ids -> 0 <= id).
  { intros id Hid. apply Z.ltb_ge.
    destruct (id <? 0) eqn:Hlt; [|done].
    assert (existsb (fun id => id <? 0) (i :: ids) = true); [|congruence].
    apply existsb_exists. exists id. split; [|done].
    by apply list_elem_of_In. }
  exists (foldr Z.max 0 (i :: ids) + 1). split; [|split; [done|split; [done|]]].
  - pose proof (foldr_max_bound i (i :: ids) ltac:(by left)).
    pose proof (Hpos i ltac:(by left)). lia.
  - intros id Hid. pose proof (foldr_max_bound id _ Hid).
    pose proof (Hpos id Hid). lia.
Qed.

(** The one-hot encoding after the two [masked_fill]s, row by row. *)
Lemma masked_row_hot num_classes ids keep :
  zip_with (fun (v : list Z) (k : bool) =>
              if k then v else map (fun _ => 0) v)
    (map (one_hot_vec num_classes)
       (zip_with (fun (id : Z) (k : bool) => if k then id else 0) ids keep))
    keep
  = zip_with (hot num_classes) ids keep.
Proof.
  revert keep. induction ids as [|id ids IH]; intros [|k keep]; try done.
  cbn. rewrite IH. by destruct k.
Qed.

(** Broadcasting two tensors of one shape is the elementwise operation. *)
Lemma broadcast_with_same_length {A B C} (f : A -> B -> C) a b :
  length a = length b -> broadcast_with f a b = Ok (zip_with f a b).
Proof. intros Hlen. unfold broadcast_with. by rewrite Hlen, Nat.eqb_refl. Qed.

Lemma all_rows_same_shape {A B C} (f : A -> B -> C) a b :
  map length a = map length b ->
  all_rows (zip_with (broadcast_with f) a b) = Ok (zip_with (zip_with f) a b).
Proof.
  revert b. induction a as [|r a IH]; intros [|r' b] Hshape; try done.
  injection Hshape as Hr Hshape. cbn [zip_with all_rows].
  rewrite broadcast_with_same_length by done.
  cbn [mbind result_bind Py.bind]. by rewrite IH.
Qed.

Lemma broadcast_rows_same_shape {A B C} (f : A -> B -> C) a b :
  map length a = map length b ->
  broadcast_rows f a b = Ok (zip_with (zip_with f) a b).
Proof.
  intros Hshape. unfold broadcast_rows.
  rewrite broadcast_with_same_length.
  2:{ apply (f_equal length) in Hshape. by rewrite !length_map in Hshape. }
  cbn [mbind result_bind Py.bind]. by apply all_rows_same_shape.
Qed.

(** For a mask of the shape of the ids, [masked_fill_ids] fills place by
    place. *)
Lemma masked_fill_ids_same_shape sequence_id attention_mask :
  map length sequence_id = map length attention_mask ->
  masked_fill_ids sequence_id attention_mask
  = Ok (zip_with (zip_with (fun (id : Z) (k : bool) => if k then id else 0))
          sequence_id attention_mask).
Proof. intros Hshape. by apply broadcast_rows_same_shape. Qed.

Lemma zip_rows_masked_shape {A B C} (f : A -> B -> C) (a : list (list A))
  (b : list (list B)) :
  map length a = map length b ->
  map length (zip_with (zip_with f) a b) = map length b.
Proof.
  revert b. induction a as [|r a IH]; intros [|r' b] Hshape; try done.
  injection Hshape as Hr Hshape. cbn. rewrite IH by done.
  by rewrite length_zip_with, Hr, Nat.min_id.
Qed.

Lemma masked_batch_hot num_classes sequence_id attention_mask :
  map length sequence_id = map length attention_mask ->
  masked_fill_one_hot
    (map (map (one_hot_vec num_classes))
       (zip_with (zip_with (fun (id : Z) (k : bool) => if k then id else 0))
          sequence_id attention_mask))
    attention_mask
  = Ok (zip_with (zip_with (hot num_classes)) sequence_id attention_mask).
Proof.
  intros Hshape. unfold masked_fill_one_hot.
  rewrite broadcast_rows_same_shape.
  2:{ rewrite <- list_fmap_compose.
      rewrite <- (zip_rows_masked_shape
                    (fun (id : Z) (k : bool) => if k then id else 0)
                    sequence_id attention_mask Hshape).
      apply list_fmap_ext. intros i row _. cbn. by rewrite length_map. }
  f_equal. clear Hshape. revert attention_mask.
  induction sequence_id as [|ids seq IH]; intros [|keep m]; try done.
  cbn. by rewrite IH, masked_row_hot.
Qed.

Lemma unmasked_row_hot num_classes ids :
  map (one_hot_vec num_classes) ids
  = zip_with (hot num_classes) ids (replicate (length ids) true).
Proof. induction ids as [|id ids IH]; [done|]. cbn. by rewrite <- IH. Qed.

Lemma unmasked_batch_hot num_classes sequence_id :
  map (map (one_hot_vec num_classes)) sequence_id
  = zip_with (zip_with (hot num_classes)) sequence_id
      (effective_mask sequence_id None).
Proof.
  unfold effective_mask. induction sequence_id as [|ids seq IH]; [done|].
  cbn. by rewrite <- IH, <- unmasked_row_hot.
Qed.

Lemma effective_mask_shape sequence_id :
  map length (effective_mask sequence_id None) = map length sequence_id.
Proof.
  unfold effective_mask. induction sequence_id as [|ids seq IH]; [done|].
  cbn. by rewrite IH, length_replicate.
Qed.

(** The width of a one-hot tensor with entries. *)
Lemma one_hot_width_hot num_classes sequence_id mask :
  map length sequence_id = map length mask ->
  concat sequence_id <> [] ->
  one_hot_width (zip_with (zip_with (hot num_classes)) sequence_id mask)
  = Z.to_nat num_classes.
Proof.
  intros Hshape Hne. unfold one_hot_width.
  set (t := zip_with (zip_with (hot num_classes)) sequence_id mask).
  assert (Hlen : length (concat t) = length (concat sequence_id)).
  { apply length_concat_shape. by apply zip_rows_shape. }
  destruct (concat t) as [|v vs] eqn:Ht.
  - destruct (concat sequence_id); [done|discriminate Hlen].
  - assert (Hv : v ∈ concat t) by (rewrite Ht; by left).
    apply list_elem_of_In, in_concat in Hv as (row & Hrow & Hv).
    apply list_elem_of_In, list_elem_of_lookup in Hrow as [b Hb].
    apply lookup_zip_with_Some in Hb as (ids & keep & -> & _ & _).
    apply list_elem_of_In in Hv.
    eapply Forall_forall in Hv; [|apply hot_row_lengths]. done.
Qed.

Lemma lookup_pad_right S v n :
  Z.of_nat n < S -> (n < length v)%nat ->
  pad_right (S - Z.of_nat (length v)) v !! n = Some (coord v n).
Proof.
  intros HS Hv. pose proof (coord_pad_right S v n HS Hv) as Hc.
  unfold coord in *. apply lookup_lt_is_Some_2 in Hv as [x Hx].
  rewrite Hx. cbn. rewrite Hx in Hc. cbn in Hc.
  destruct (pad_right _ _ !! n) as [y|] eqn:Hy; cbn in Hc; [by subst|].
  exfalso. apply lookup_ge_None in Hy. unfold pad_right in Hy.
  apply lookup_lt_Some in Hx.
  destruct (0 <=? S - Z.of_nat (length v)).
  - rewrite length_app in Hy. lia.
  - rewrite length_take in Hy. lia.
Qed.

(** What the shared computation returns when sequence-id masking is
    active: the one-hot encoding of the ids with the padded tokens zeroed,
    and the segment lengths summed from it. *)
Lemma active_result sequence_id S mask r :
  map length sequence_id = map length (effective_mask sequence_id mask) ->
  _get_attn_mask_in_len_seq_one_hot (Some sequence_id) S true "flash" mask
  = Ok r ->
  exists num_classes,
    let keeps := effective_mask sequence_id mask in
    let sequence_id_one_hot :=
      zip_with (zip_with (hot num_classes)) sequence_id keeps in
    0 < num_classes
    /\ S = shape_last sequence_id
    /\ (forall b ids keep t id,
          sequence_id !! b = Some ids -> keeps !! b = Some keep ->
          ids !! t = Some id -> keep !! t = Some true ->
          0 <= id < num_classes)
    /\ one_hot_width sequence_id_one_hot = Z.to_nat num_classes
    /\ r = (Some (map (fun row =>
                         pad_right (S - Z.of_nat (Z.to_nat num_classes))
                           (sum_dim1 (Z.to_nat num_classes) row))
                    sequence_id_one_hot),
            Some sequence_id_one_hot).
Proof.
  intros Hshape. unfold _get_attn_mask_in_len_seq_one_hot. cbn [andb].
  rewrite bool_decide_eq_true_2 by done.
  destruct mask as [m|].
  - cbn [effective_mask] in Hshape.
    destruct (first_column_sum m) as [s|]; [|done].
    cbn [mbind result_bind Py.bind].
    destruct (negb (s =? shape_first m)); [done|].
    destruct (S =? shape_last sequence_id) eqn:HS; [|done].
    apply Z.eqb_eq in HS. cbn [negb].
    rewrite masked_fill_ids_same_shape by done.
    cbn [mbind result_bind Py.bind].
    destruct (one_hot _) as [t|] eqn:Hoh; [|done].
    cbn [mbind result_bind Py.bind].
    apply one_hot_returns in Hoh as (C & HC & -> & Hne & Hbound).
    rewrite masked_batch_hot by done.
    cbn [mbind result_bind Py.bind]. intros [= <-]. exists C. cbn zeta.
    cbn [effective_mask].
    assert (Hne' : concat sequence_id <> []).
    { intros Hnil. apply Hne. apply length_zero_iff_nil.
      rewrite (length_concat_shape _ sequence_id); [by rewrite Hnil|].
      by apply zip_rows_shape. }
    rewrite one_hot_width_hot by done.
    split; [done|split; [done|split; [|done]]].
    intros b ids keep t id Hids Hkeep Hid Hk. apply Hbound.
    eapply (elem_of_concat_lookup _ b _ t).
    + apply lookup_zip_with_Some. eauto.
    + apply lookup_zip_with_Some. by exists id, true.
  - clear Hshape. cbn [mbind result_bind Py.bind].
    destruct (S =? shape_last sequence_id) eqn:HS; [|done].
    apply Z.eqb_eq in HS. cbn [negb mbind result_bind Py.bind].
    destruct (one_hot _) as [t|] eqn:Hoh; [|done].
    cbn [mbind result_bind Py.bind].
    apply one_hot_returns in Hoh as (C & HC & -> & Hne & Hbound).
    rewrite unmasked_batch_hot. intros [= <-]. exists C. cbn zeta.
    pose proof (eq_sym (effective_mask_shape sequence_id)) as Hshape.
    cbn [effective_mask] in *. rewrite !one_hot_width_hot by done.
    split; [done|split; [done|split; [|done]]].
    intros b ids keep t id Hids Hkeep Hid Hk. apply Hbound.
    by eapply elem_of_concat_lookup.
Qed.

(** C4. For a row of six tokens that packs two documents of lengths 2 and
    3, [gen_sequence_id_info] returns segment lengths that begin with 2 and 3
    and are padded with zeros to the sequence length, and positions
    0, 1, 0, 1, 2 that restart at each document: with the sixth token padded
    (whatever id it carries), and with the sixth token a third document.
    In general both outputs come from one encoding: whenever the call returns
    under active sequence-id masking for a mask of the shape of the ids (or
    without a mask), a padded token has position -1, and a token that is
    kept has as position the number of kept tokens of its segment before it,
    which is less than the length that the first output gives for its
    segment. For ids and a mask of different shapes the code broadcasts the
    two, and the outputs have the broadcast shape;
    [sequence_id_broadcast_over_mask] below evaluates two such calls. *)
Theorem sequence_id_info_consistent :
  (forall x,
     gen_sequence_id_info (Some [[0; 0; 1; 1; 1; x]]) 6 true "flash"
       (Some [[true; true; true; true; true; false]])
     = Ok (Some [[2; 3; 0; 0; 0; 0]], [[0; 1; 0; 1; 2; -1]]))
  /\ gen_sequence_id_info (Some [[0; 0; 1; 1; 1; 2]]) 6 true "flash" None
     = Ok (Some [[2; 3; 1; 0; 0; 0]], [[0; 1; 0; 1; 2; 0]])
  /\ (forall sequence_id S mask lens pos,
        map length sequence_id
        = map length (effective_mask sequence_id mask) ->
        gen_sequence_id_info (Some sequence_id) S true "flash" mask
        = Ok (lens, pos) ->
        exists attention_mask_in_length sequence_id_one_hot,
          lens = Some attention_mask_in_length
          /\ _get_attn_mask_in_len_seq_one_hot (Some sequence_id) S true
               "flash" mask
             = Ok (Some attention_mask_in_length, Some sequence_id_one_hot)
          /\ pos = pos_id_within_seq_of sequence_id_one_hot
          /\ forall b ids keep t id k,
               sequence_id !! b = Some ids ->
               effective_mask sequence_id mask !! b = Some keep ->
               ids !! t = Some id -> keep !! t = Some k ->
               exists lens_b pos_b p,
                 attention_mask_in_length !! b = Some lens_b
                 /\ pos !! b = Some pos_b /\ pos_b !! t = Some p
                 /\ (k = false -> p = -1)
                 /\ (k = true ->
                     p = segment_count (take t ids) (take t keep) id
                     /\ 0 <= p
                     /\ (id < S ->
                         lens_b !! Z.to_nat id
                         = Some (segment_count ids keep id)
                         /\ p < segment_count ids keep id))).
Proof.
  split; [intros x; reflexivity|]. split; [reflexivity|].
  intros sequence_id S mask lens pos Hshape. unfold gen_sequence_id_info.
  destruct (_get_attn_mask_in_len_seq_one_hot _ _ _ _ _) as [r|] eqn:Hr;
    [|done].
  cbn [mbind result_bind Py.bind].
  apply active_result in Hr as (C & HC & HS & Hbound & Hwidth & ->);
    [|done].
  cbn [fst snd]. intros [= <- <-].
  eexists _, _. split; [done|]. split; [done|]. split; [done|].
  intros b ids keep t id k Hids Hkeep Hid Hk.
  assert (Hrow : zip_with (zip_with (hot C)) sequence_id
                   (effective_mask sequence_id mask) !! b
                 = Some (zip_with (hot C) ids keep)).
  { apply lookup_zip_with_Some. eauto. }
  pose proof (row_position C ids keep t id k Hid Hk) as Hpos.
  cbn zeta in Hpos.
  eexists _, _, _. unfold pos_id_within_seq_of.
  rewrite !list_lookup_fmap, Hrow, Hwidth. cbn [fmap option_fmap option_map].
  split; [done|]. split; [done|]. split.
  { apply Hpos. intros ->. by eapply Hbound. }
  split; [by intros ->|]. intros ->.
  specialize (Hbound _ _ _ _ _ Hids Hkeep Hid Hk).
  rewrite (segment_count_take_S _ _ _ _ Hid Hk).
  split; [lia|]. split.
  { pose proof (segment_count_nonneg (take t ids) (take t keep) id). lia. }
  intros HidS.
  pose proof (sum_dim1_spec (Z.to_nat C) (zip_with (hot C) ids keep)
                (hot_row_lengths _ _ _)) as [Hlen _].
  split.
  - rewrite <- Hlen at 1. rewrite lookup_pad_right by lia.
    rewrite row_segment_length by lia. by rewrite Z2Nat.id by lia.
  - pose proof (segment_count_take (Datatypes.S t) ids keep id) as Hle.
    rewrite (segment_count_take_S _ _ _ _ Hid Hk) in Hle. lia.
Qed.

Lemma sequence_id_info_consistent_witness :
  exists attention_mask_in_length sequence_id_one_hot,
    Some [[2; 3; 0; 0; 0; 0]] = Some attention_mask_in_length
    /\ _get_attn_mask_in_len_seq_one_hot (Some [[0; 0; 1; 1; 1; 7]]) 6 true
         "flash" (Some [[true; true; true; true; true; false]])
       = Ok (Some attention_mask_in_length, Some sequence_id_one_hot)
    /\ [[0; 1; 0; 1; 2; -1]] = pos_id_within_seq_of sequence_id_one_hot
    /\ forall b ids keep t id k,
         [[0; 0; 1; 1; 1; 7]] !! b = Some ids ->
         effective_mask [[0; 0; 1; 1; 1; 7]]
           (Some [[true; true; true; true; true; false]]) !! b = Some keep ->
         ids !! t = Some id -> keep !! t = Some k ->
         exists lens_b pos_b p,
           attention_mask_in_length !! b = Some lens_b
           /\ [[0; 1; 0; 1; 2; -1]] !! b = Some pos_b /\ pos_b !! t = Some p
           /\ (k = false -> p = -1)
           /\ (k = true ->
               p = segment_count (take t ids) (take t keep) id
               /\ 0 <= p
               /\ (id < 6 ->
                   lens_b !! Z.to_nat id
                   = Some (segment_count ids keep id)
                   /\ p < segment_count ids keep id)).
Proof.
  apply (proj2 (proj2 sequence_id_info_consistent)
           [[0; 0; 1; 1; 1; 7]] 6
           (Some [[true; true; true; true; true; false]])
           (Some [[2; 3; 0; 0; 0; 0]]) [[0; 1; 0; 1; 2; -1]]).
  - reflexivity.
  - reflexivity.
Defined.

(** Ids and a mask of different shapes are broadcast, as the [masked_fill]
    of torch does: ids of one token against a mask of two, and the one row
    of ids of a generation step against the mask of a batch of two rows. The
    outputs have the broadcast shape. *)
Example sequence_id_broadcast_over_mask :
  gen_sequence_id_info (Some [[0]]) 1 true "flash" (Some [[true; true]])
  = Ok (Some [[2]], [[0; 1]])
  /\ gen_sequence_id_info (Some [[0; 0]]) 2 true "flash"
       (Some [[true; true]; [true; false]])
     = Ok (Some [[2; 0]; [1; 0]], [[0; 1]; [0; -1]])
  /\ gen_sequence_id_info (Some [[0; 1]; [0; 0]]) 2 true "flash"
       (Some [[true; true; true]; [true; true; true]])
     = Raise (RuntimeError
         "The size of tensor a must match the size of tensor b").
Proof. split; [reflexivity|]. split; reflexivity. Qed.

End ModelingMptProofs.

(** * Further properties *)

(** ** The data preparation pipeline *)

Module ConvertTextToMdsExtras.

Import ConvertTextToMds ConvertTextToMdsProofs.

(** *** The windows of [__iter__] *)

Section Windows.

Variable tokenizer : pystr -> list Z.
Variable bos_token_id : option Z.
Variable ds : ConcatTokensDataset.

Lemma iter_chunks_full fuel chunks first_chunk buffer ws e :
  0 < max_length ds ->
  iter_chunks tokenizer bos_token_id ds fuel chunks first_chunk buffer
  = (ws, e) ->
  Forall (fun w => Z.of_nat (length w) = max_length ds) ws.
Proof.
  intros Hpos. revert first_chunk buffer ws e.
  induction chunks as [|[chunk|] chunks IH]; intros first_chunk buffer ws e;
    cbn [iter_chunks]; try (intros [= <- <-]; constructor).
  match goal with |- context [match ?c with Ok _ => _ | Raise _ => _ end] =>
    destruct c as [iids|err] end; [|intros [= <- <-]; constructor].
  destruct (yield_windows ds fuel (buffer ++ iids)) as [ws1 [buffer'|]]
    eqn:Hy.
  - destruct (iter_chunks _ _ _ _ _ _ _) as [ws2 e2] eqn:Hrec.
    intros [= <- <-]. apply Forall_app. split.
    + by eapply yield_windows_full.
    + by eapply IH.
  - intros [= <- <-]. by eapply yield_windows_full.
Qed.

Lemma iter_files_full fuel files buffer ws e :
  0 < max_length ds ->
  iter_files tokenizer bos_token_id ds fuel files buffer = (ws, e) ->
  Forall (fun w => Z.of_nat (length w) = max_length ds) ws.
Proof.
  intros Hpos. revert buffer ws e.
  induction files as [|file files IH]; intros buffer ws e; cbn [iter_files].
  - destruct (yield_windows ds fuel buffer) as [ws1 [b|]] eqn:Hy;
      intros [= <- <-]; by eapply yield_windows_full.
  - destruct (iter_chunks _ _ _ _ _ _ _) as [ws1 e1] eqn:Hc.
    apply iter_chunks_full in Hc; [|done].
    destruct e1 as [buffer'| |]; try (by intros [= <- <-]).
    destruct (iter_files _ _ _ _ _ _) as [ws2 e2] eqn:Hrec.
    intros [= <- <-]. apply Forall_app. split; [done|]. by eapply IH.
Qed.

(** With wrapping, the chunks of a readable file leave in the windows and
    the buffer exactly the tokens that entered. *)
Lemma iter_chunks_stream fuel chunks first_chunk buffer :
  0 < max_length ds -> should_wrap ds = true ->
  chunks_readable tokenizer first_chunk chunks ->
  (length buffer
   + length (chunks_stream tokenizer bos_token_id first_chunk chunks)
   < fuel)%nat ->
  exists ws rest,
    iter_chunks tokenizer bos_token_id ds fuel chunks first_chunk buffer
    = (ws, Exhausted rest)
    /\ concat ws ++ rest
       = buffer ++ chunks_stream tokenizer bos_token_id first_chunk chunks.
Proof.
  intros Hpos Hwrap. revert first_chunk buffer.
  induction chunks as [|[chunk|] chunks IH]; intros first_chunk buffer Hread
    Hfuel; cbn [iter_chunks chunks_stream] in *.
  - exists [], buffer. by rewrite app_nil_r.
  - destruct Hread as [Hne Hread].
    set (iids := if first_chunk then tokenizer chunk
                 else strip_bos bos_token_id (tokenizer chunk)) in *.
    assert (Hstrip :
      (if first_chunk then Ok (tokenizer chunk)
       else match tokenizer chunk with
            | [] => Raise (IndexError "list index out of range")
            | t :: rest =>
                if bool_decide (Some t = bos_token_id) then Ok rest
                else Ok (tokenizer chunk)
            end) = Ok iids).
    { unfold iids, strip_bos. destruct first_chunk; [done|].
      specialize (Hne eq_refl). destruct (tokenizer chunk); [done|].
      by case_bool_decide. }
    rewrite Hstrip. rewrite length_app in Hfuel.
    destruct (yield_windows_terminates ds fuel (buffer ++ iids) Hpos)
      as (ws1 & buffer' & Hy); [rewrite length_app; lia|].
    rewrite Hy.
    destruct (yield_windows_concat ds _ _ _ _ Hpos Hwrap Hy) as [Hcat Hlt].
    assert (Hlen : (length buffer' <= length buffer + length iids)%nat).
    { rewrite <- length_app, <- Hcat, length_app. lia. }
    destruct (IH false buffer' Hread) as (ws2 & rest & Hrec & Hcat2); [lia|].
    rewrite Hrec. exists (ws1 ++ ws2), rest. split; [done|].
    rewrite concat_app, <- app_assoc, Hcat2, app_assoc, Hcat.
    by rewrite <- app_assoc.
  - done.
Qed.

Lemma iter_files_stream fuel files buffer :
  0 < max_length ds -> should_wrap ds = true ->
  files_readable tokenizer files ->
  (length buffer + length (token_stream tokenizer bos_token_id ds files)
   < fuel)%nat ->
  exists ws rest,
    iter_files tokenizer bos_token_id ds fuel files buffer
    = (ws, Exhausted rest)
    /\ concat ws ++ rest
       = buffer ++ token_stream tokenizer bos_token_id ds files
    /\ Z.of_nat (length rest) < max_length ds.
Proof.
  intros Hpos Hwrap Hread. revert buffer.
  induction Hread as [|file files Hfile _ IH]; intros buffer Hfuel;
    cbn [iter_files]; unfold token_stream in *; cbn [map concat] in *.
  - destruct (yield_windows_terminates ds fuel buffer Hpos)
      as (ws & rest & Hy); [lia|].
    rewrite Hy. exists ws, rest. split; [done|]. rewrite app_nil_r.
    by eapply yield_windows_concat.
  - rewrite !length_app in Hfuel.
    destruct (iter_chunks_stream fuel file true (buffer ++ bos_tokens ds)
                Hpos Hwrap Hfile) as (ws1 & buffer' & Hc & Hcat1);
      [rewrite length_app; lia|].
    rewrite Hc.
    assert (Hlen : (length buffer'
                    <= length buffer + length (bos_tokens ds)
                       + length (chunks_stream tokenizer bos_token_id true
                                   file))%nat).
    { apply (f_equal length) in Hcat1. rewrite !length_app in Hcat1. lia. }
    destruct (IH (buffer' ++ eos_tokens ds)) as (ws2 & rest & Hrec & Hcat2
      & Hlt); [rewrite length_app; lia|].
    rewrite Hrec. exists (ws1 ++ ws2), rest. split; [done|]. split; [|done].
    rewrite concat_app, <- app_assoc, Hcat2, app_assoc, app_assoc, Hcat1.
    by rewrite <- !app_assoc.
Qed.

(** Without a positive window length the iteration is never exhausted. *)
Lemma iter_files_never_exhausted fuel files buffer :
  max_length ds <= 0 ->
  forall rest,
    snd (iter_files tokenizer bos_token_id ds fuel files buffer)
    <> Exhausted rest.
Proof.
  intros Hle. revert buffer.
  induction files as [|file files IH]; intros buffer rest; cbn [iter_files].
  - pose proof (yield_windows_diverges ds fuel buffer Hle) as Hd.
    destruct (yield_windows ds fuel buffer) as [ws [b|]]; [done|].
    cbn. done.
  - destruct (iter_chunks _ _ _ _ _ _ _) as [ws1 e1] eqn:Hc.
    destruct e1 as [buffer'| |]; cbn; try done.
    specialize (IH (buffer' ++ eos_tokens ds) rest).
    destruct (iter_files _ _ _ _ _ _) as [ws2 e2]. done.
Qed.

End Windows.

(** X1. Every window that [__iter__] yields has exactly [max_length]
    tokens, with or without wrapping and however the iteration ends
    (exhausted, with an exception, or still running): no short window is ever
    yielded. *)
Theorem iter_windows_all_full tokenizer bos_token_id ds fuel files :
  0 < max_length ds ->
  Forall (fun w => Z.of_nat (length w) = max_length ds)
    (fst (__iter__ tokenizer bos_token_id ds fuel files)).
Proof.
  intros Hpos. unfold __iter__.
  destruct (iter_files _ _ _ _ _ _) as [ws e] eqn:Hit.
  by eapply iter_files_full.
Qed.

Lemma iter_windows_all_full_witness :
  Forall (fun w => Z.of_nat (length w) = max_length (window8 [0]))
    (fst (__iter__ char_tokenizer None (window8 [0]) 3
            [[Some (str "0123456789")]; [Some (str "abcde")]])).
Proof.
  apply (iter_windows_all_full char_tokenizer None (window8 [0]) 3
           [[Some (str "0123456789")]; [Some (str "abcde")]]).
  reflexivity.
Defined.

(** X2. With a positive window length and wrapping enabled, on files whose
    reads all decode and whose later chunks each have a token, [__iter__]
    ends exhausted (given fuel above the number of tokens), and loses and
    reorders no token: the windows followed by what stays in the buffer are
    the token stream of the files (per file the BOS tokens, the tokens of its
    chunks without the BOS token heading a later chunk, the EOS tokens), and
    fewer than [max_length] tokens stay in the buffer. *)
Theorem iter_wrap_keeps_every_token tokenizer bos_token_id ds fuel files :
  0 < max_length ds -> should_wrap ds = true ->
  files_readable tokenizer files ->
  (length (token_stream tokenizer bos_token_id ds files) < fuel)%nat ->
  exists ws rest,
    __iter__ tokenizer bos_token_id ds fuel files = (ws, Exhausted rest)
    /\ concat ws ++ rest = token_stream tokenizer bos_token_id ds files
    /\ Z.of_nat (length rest) < max_length ds.
Proof.
  intros Hpos Hwrap Hread Hfuel. unfold __iter__.
  by apply (iter_files_stream tokenizer bos_token_id ds fuel files []).
Qed.

Lemma iter_wrap_keeps_every_token_witness :
  exists ws rest,
    __iter__ char_tokenizer (Some 48) (window8 [0]) 20
      [[Some (str "0123456"); Some (str "0789")]; [Some (str "abcde")]]
    = (ws, Exhausted rest)
    /\ concat ws ++ rest
       = token_stream char_tokenizer (Some 48) (window8 [0])
           [[Some (str "0123456"); Some (str "0789")]; [Some (str "abcde")]]
    /\ Z.of_nat (length rest) < max_length (window8 [0]).
Proof.
  apply (iter_wrap_keeps_every_token char_tokenizer (Some 48) (window8 [0]) 20
           [[Some (str "0123456"); Some (str "0789")]; [Some (str "abcde")]]).
  - reflexivity.
  - reflexivity.
  - repeat constructor; discriminate.
  - vm_compute. lia.
Defined.

(** X3. With a window length that is not positive, [__iter__] is never
    exhausted: whatever the files and the fuel, the iteration either raises
    or is still in its [while] loop. *)
Theorem iter_nonpositive_length_never_ends tokenizer bos_token_id ds fuel
  files rest :
  max_length ds <= 0 ->
  snd (__iter__ tokenizer bos_token_id ds fuel files) <> Exhausted rest.
Proof. intros Hle. by apply iter_files_never_exhausted. Qed.

Lemma iter_nonpositive_length_never_ends_witness :
  snd (__iter__ char_tokenizer None
         {| max_length := 0; bos_tokens := []; eos_tokens := [0];
            should_wrap := true |} 5 [[Some (str "abc")]])
  <> Exhausted [].
Proof.
  apply (iter_nonpositive_length_never_ends char_tokenizer None
           {| max_length := 0; bos_tokens := []; eos_tokens := [0];
              should_wrap := true |} 5 [[Some (str "abc")]] []).
  discriminate.
Defined.

(** *** The first chunk that cannot be read *)

Section Errors.

Variable tokenizer : pystr -> list Z.
Variable bos_token_id : option Z.
Variable ds : ConcatTokensDataset.

Lemma yield_windows_rest_le fuel buffer ws rest :
  0 < max_length ds ->
  yield_windows ds fuel buffer = (ws, Some rest) ->
  (length rest <= length buffer)%nat.
Proof.
  intros Hpos. revert buffer ws.
  induction fuel as [|fuel IH]; intros buffer ws; simpl; [done|].
  destruct (max_length ds <=? Z.of_nat (length buffer)) eqn:Hle.
  - destruct (yield_windows ds fuel _) as [ws' b] eqn:Hrec.
    intros [= <- ->]. apply IH in Hrec.
    etrans; [exact Hrec|]. destruct (should_wrap ds); simpl; [|lia].
    unfold slice_from. destruct (0 <=? max_length ds);
      rewrite length_drop; lia.
  - by intros [= <- <-].
Qed.

(** The chunks of a readable file are all consumed, with or without
    wrapping, and the buffer grows by their tokens at most. *)
Lemma iter_chunks_ends fuel chunks first_chunk buffer :
  0 < max_length ds ->
  chunks_readable tokenizer first_chunk chunks ->
  (length buffer
   + length (chunks_stream tokenizer bos_token_id first_chunk chunks)
   < fuel)%nat ->
  exists ws rest,
    iter_chunks tokenizer bos_token_id ds fuel chunks first_chunk buffer
    = (ws, Exhausted rest)
    /\ (length rest
        <= length buffer
           + length (chunks_stream tokenizer bos_token_id first_chunk chunks))%nat.
Proof.
  intros Hpos. revert first_chunk buffer.
  induction chunks as [|[chunk|] chunks IH]; intros first_chunk buffer Hread
    Hfuel; cbn [iter_chunks chunks_stream] in *.
  - exists [], buffer. split; [done|]. simpl. lia.
  - destruct Hread as [Hne Hread].
    set (iids := if first_chunk then tokenizer chunk
                 else strip_bos bos_token_id (tokenizer chunk)) in *.
    assert (Hstrip :
      (if first_chunk then Ok (tokenizer chunk)
       else match tokenizer chunk with
            | [] => Raise (IndexError "list index out of range")
            | t :: rest =>
                if bool_decide (Some t = bos_token_id) then Ok rest
                else Ok (tokenizer chunk)
            end) = Ok iids).
    { unfold iids, strip_bos. destruct first_chunk; [done|].
      specialize (Hne eq_refl). destruct (tokenizer chunk); [done|].
      by case_bool_decide. }
    rewrite Hstrip. rewrite length_app in Hfuel.
    destruct (yield_windows_terminates ds fuel (buffer ++ iids) Hpos)
      as (ws1 & buffer' & Hy); [rewrite length_app; lia|].
    rewrite Hy.
    pose proof (yield_windows_rest_le _ _ _ _ Hpos Hy) as Hlen.
    rewrite length_app in Hlen.
    destruct (IH false buffer' Hread) as (ws2 & rest & Hrec & Hle); [lia|].
    rewrite Hrec. exists (ws1 ++ ws2), rest. split; [done|].
    rewrite length_app. lia.
  - done.
Qed.

(** After readable chunks, the error of what follows is the error of the
    file. *)
Lemma iter_chunks_then fuel cs1 cs2 first_chunk buffer e :
  0 < max_length ds ->
  chunks_readable tokenizer first_chunk cs1 ->
  (length buffer
   + length (chunks_stream tokenizer bos_token_id first_chunk cs1)
   < fuel)%nat ->
  (forall buffer',
     snd (iter_chunks tokenizer bos_token_id ds fuel cs2
            (first_chunk && bool_decide (cs1 = [])) buffer') = Raised e) ->
  snd (iter_chunks tokenizer bos_token_id ds fuel (cs1 ++ cs2) first_chunk
         buffer) = Raised e.
Proof.
  intros Hpos. revert first_chunk buffer.
  induction cs1 as [|[chunk|] cs1 IH]; intros first_chunk buffer Hread
    Hfuel Hbad.
  - rewrite bool_decide_eq_true_2, andb_true_r in Hbad by done. apply Hbad.
  - rewrite bool_decide_eq_false_2, andb_false_r in Hbad by done.
    cbn [app iter_chunks chunks_stream chunks_readable] in *.
    destruct Hread as [Hne Hread].
    set (iids := if first_chunk then tokenizer chunk
                 else strip_bos bos_token_id (tokenizer chunk)) in *.
    assert (Hstrip :
      (if first_chunk then Ok (tokenizer chunk)
       else match tokenizer chunk with
            | [] => Raise (IndexError "list index out of range")
            | t :: rest =>
                if bool_decide (Some t = bos_token_id) then Ok rest
                else Ok (tokenizer chunk)
            end) = Ok iids).
    { unfold iids, strip_bos. destruct first_chunk; [done|].
      specialize (Hne eq_refl). destruct (tokenizer chunk); [done|].
      by destruct (bool_decide (Some _ = bos_token_id)). }
    rewrite Hstrip. rewrite length_app in Hfuel.
    destruct (yield_windows_terminates ds fuel (buffer ++ iids) Hpos)
      as (ws1 & buffer' & Hy); [rewrite length_app; lia|].
    rewrite Hy.
    pose proof (yield_windows_rest_le _ _ _ _ Hpos Hy) as Hlen.
    rewrite length_app in Hlen.
    specialize (IH false buffer' Hread).
    destruct (iter_chunks _ _ _ _ (cs1 ++ cs2) _ _) as [ws2 e2].
    cbn [snd] in *. apply IH; [lia|].
    intros buffer''. apply Hbad.
  - cbn [chunks_readable] in Hread. destruct Hread.
Qed.

Lemma iter_files_then fuel pre file post buffer e :
  0 < max_length ds ->
  files_readable tokenizer pre ->
  (length buffer + length (token_stream tokenizer bos_token_id ds pre)
   < fuel)%nat ->
  (forall buffer',
     (length buffer'
      <= length buffer + length (token_stream tokenizer bos_token_id ds pre)
         + length (bos_tokens ds))%nat ->
     snd (iter_chunks tokenizer bos_token_id ds fuel file true buffer')
     = Raised e) ->
  snd (iter_files tokenizer bos_token_id ds fuel (pre ++ file :: post) buffer)
  = Raised e.
Proof.
  intros Hpos Hread. revert buffer.
  induction Hread as [|f pre Hf _ IH]; intros buffer Hfuel Hbad;
    unfold token_stream in *; cbn [app iter_files map concat] in *.
  - specialize (Hbad (buffer ++ bos_tokens ds)).
    destruct (iter_chunks _ _ _ _ file _ _) as [ws e1]. cbn [snd] in Hbad.
    rewrite Hbad; [done|]. rewrite length_app. simpl. lia.
  - rewrite !length_app in Hfuel.
    destruct (iter_chunks_ends fuel f true (buffer ++ bos_tokens ds) Hpos Hf)
      as (ws1 & rest & Hc & Hle); [rewrite length_app; lia|].
    rewrite Hc. rewrite length_app in Hle.
    specialize (IH (rest ++ eos_tokens ds)).
    destruct (iter_files _ _ _ _ (pre ++ file :: post) _) as [ws2 e2].
    cbn [snd] in *. apply IH; [rewrite length_app; lia|].
    intros buffer' Hb. apply Hbad. rewrite !length_app in *. lia.
Qed.

End Errors.

(** X4. [__iter__] raises at the first chunk that cannot be read, after
    files and chunks that can: [CannotUnicodeDecodeFile] when the read does
    not decode, and [IndexError] when a chunk that is not the first of its
    file has no token (the test [iids[0] == bos_token_id] indexes an empty
    list). The files after it are not read. *)
Theorem iter_raises_at_first_bad_chunk tokenizer bos_token_id ds fuel pre cs1
  cs2 post :
  0 < max_length ds ->
  files_readable tokenizer pre ->
  chunks_readable tokenizer true cs1 ->
  (length (token_stream tokenizer bos_token_id ds pre)
   + length (bos_tokens ds)
   + length (chunks_stream tokenizer bos_token_id true cs1) < fuel)%nat ->
  snd (__iter__ tokenizer bos_token_id ds fuel
         (pre ++ (cs1 ++ None :: cs2) :: post))
  = Raised CannotUnicodeDecodeFile
  /\ forall chunk,
       cs1 <> [] -> tokenizer chunk = [] ->
       snd (__iter__ tokenizer bos_token_id ds fuel
              (pre ++ (cs1 ++ Some chunk :: cs2) :: post))
       = Raised (IndexError "list index out of range").
Proof.
  intros Hpos Hpre Hcs1 Hfuel. unfold __iter__. split.
  - apply iter_files_then; [done|done|simpl; lia|].
    intros buffer' Hb. apply iter_chunks_then; [done|done|simpl in Hb; lia|].
    intros buffer''. reflexivity.
  - intros chunk Hne Hempty.
    apply iter_files_then; [done|done|simpl; lia|].
    intros buffer' Hb. apply iter_chunks_then; [done|done|simpl in Hb; lia|].
    intros buffer''. rewrite bool_decide_eq_false_2 by done.
    cbn [andb iter_chunks]. rewrite Hempty. reflexivity.
Qed.

Lemma iter_raises_at_first_bad_chunk_witness :
  snd (__iter__ (fun chunk => filter (fun t => t <> 32) (char_tokenizer chunk))
         None (window8 [0]) 20
         ([[Some (str "0123456789")]]
          ++ ([Some (str "abc")] ++ None :: []) :: [[Some (str "xyz")]]))
  = Raised CannotUnicodeDecodeFile
  /\ snd (__iter__
            (fun chunk => filter (fun t => t <> 32) (char_tokenizer chunk))
            None (window8 [0]) 20
            ([[Some (str "0123456789")]]
             ++ ([Some (str "abc")] ++ Some (str " ") :: [])
             :: [[Some (str "xyz")]]))
     = Raised (IndexError "list index out of range").
Proof.
  pose proof (iter_raises_at_first_bad_chunk
                (fun chunk => filter (fun t => t <> 32) (char_tokenizer chunk))
                None (window8 [0]) 20
                [[Some (str "0123456789")]] [Some (str "abc")] []
                [[Some (str "xyz")]]) as H.
  destruct H as [Hdecode Hindex].
  - reflexivity.
  - repeat constructor; discriminate.
  - repeat constructor; discriminate.
  - vm_compute. lia.
  - split; [exact Hdecode|]. apply Hindex; [discriminate|reflexivity].
Defined.

(** *** The groups of [get_task_args] *)

Lemma groups_from_concat n k names :
  (0 < k)%nat -> (length names <= n)%nat ->
  concat (groups_from n k names) = names.
Proof.
  intros Hk. revert names.
  induction n as [|n IH]; intros names Hlen; simpl.
  - destruct names; [done|simpl in Hlen; lia].
  - destruct names as [|name names]; [done|].
    cbn [concat]. rewrite IH; [apply take_drop|].
    rewrite length_drop. simpl in *. lia.
Qed.

Lemma groups_from_sizes n k names :
  (0 < k)%nat ->
  Forall (fun g => g <> [] /\ (length g <= k)%nat) (groups_from n k names).
Proof.
  intros Hk. revert names.
  induction n as [|n IH]; intros names; simpl; [constructor|].
  destruct names as [|name names]; constructor; [|apply IH].
  split; [|rewrite length_take; lia].
  destruct k; [lia|]. done.
Qed.

Lemma groups_from_count n k names :
  (0 < k)%nat -> (length names <= n)%nat ->
  (length (groups_from n k names) * k < length names + k)%nat.
Proof.
  intros Hk. revert names.
  induction n as [|n IH]; intros names Hlen; simpl; [lia|].
  destruct names as [|name names]; [simpl; lia|].
  cbn [length]. specialize (IH (drop k (name :: names))).
  rewrite length_drop in IH. cbn [length] in *.
  destruct (decide (k <= S (length names))%nat); [lia|].
  assert (Hd : drop k (name :: names) = []).
  { apply drop_ge. simpl. lia. }
  rewrite Hd. destruct n; simpl; lia.
Qed.

Lemma str_inj s t : str s = str t -> s = t.
Proof.
  revert t. induction s as [|a s IH]; intros [|b t]; simpl; try done.
  intros [= Hab Hst]. f_equal; [|by apply IH].
  rewrite <- (Ascii.ascii_N_embedding a), <- (Ascii.ascii_N_embedding b).
  by rewrite Hab.
Qed.

Lemma pretty_N_go_no_sep x s :
  (forall s', s <> "/" +:+ s') ->
  forall s', pretty_N_go x s <> "/" +:+ s'.
Proof.
  revert s. induction (N.lt_wf_0 x) as [x _ IH]; intros s Hs.
  assert (x = 0 \/ 0 < x)%N as [->|Hx] by lia.
  - by rewrite pretty_N_go_0.
  - rewrite pretty_N_go_step by done. apply IH.
    { by apply N.div_lt. }
    intros s'. unfold pretty_N_char. by repeat case_match.
Qed.

(** The decimal numeral of a group is not empty and does not begin with the
    separator of paths. *)
Lemma group_numeral_head (group : nat) :
  exists c rest, str (pretty (N.of_nat group)) = c :: rest /\ c <> sep.
Proof.
  destruct (pretty (N.of_nat group)) as [|a s] eqn:Hp.
  - exfalso. unfold pretty, pretty_N in Hp. case_decide; [done|].
    assert (Hlen : forall x s, (String.length s
                                <= String.length (pretty_N_go x s))%nat).
    { intros x. induction (N.lt_wf_0 x) as [x _ IH]; intros s.
      assert (x = 0 \/ 0 < x)%N as [->|?] by lia;
        [by rewrite pretty_N_go_0|].
      rewrite pretty_N_go_step by done.
      etrans; [|by eapply IH, N.div_lt]. simpl. lia. }
    assert (0 < N.of_nat group)%N as Hpos by lia.
    rewrite pretty_N_go_step in Hp by done.
    specialize (Hlen (N.of_nat group `div` 10)%N
                  (String (pretty_N_char (N.of_nat group `mod` 10)) "")).
    rewrite Hp in Hlen. simpl in Hlen. lia.
  - exists (Ascii.N_of_ascii a), (str s). split; [done|].
    intros Hsep.
    assert (String a s = "/" +:+ s) as Ha.
    { rewrite <- (Ascii.ascii_N_embedding a), Hsep. reflexivity. }
    rewrite Ha in Hp. unfold pretty, pretty_N in Hp.
    case_decide; [done|]. by apply pretty_N_go_no_sep in Hp.
Qed.

Lemma path_join_inj a b b' c rest c' rest' :
  b = c :: rest -> c <> sep -> b' = c' :: rest' -> c' <> sep ->
  path_join a b = path_join a b' -> b = b'.
Proof.
  intros -> Hc -> Hc'. unfold path_join.
  rewrite !bool_decide_eq_false_2 by done.
  destruct (last a) as [d|]; [case_bool_decide|]; intros Heq.
  - by apply (inj (app a)) in Heq.
  - apply (inj (app a)) in Heq. by simplify_eq.
  - by apply (inj (app a)) in Heq.
Qed.

(** X5. [get_task_args] splits the object names into consecutive groups:
    for a positive number of groups and at least one name, the groups taken
    in order are the list of names (every name is in exactly one task, none
    is dropped or repeated), there are at most [n_groups] of them, none is
    empty, none holds more than ceil(len(names) / n_groups) names, and two
    different groups write to different sub-folders of the output root. With
    no name at all the call raises [ValueError], the step of [range] being
    zero. *)
Theorem get_task_args_partition object_names output_root input_folder
  n_groups tokenizer_name concat_tokens eos_text bos_text no_wrap compression
  trust_remote_code :
  0 < n_groups ->
  (object_names = [] ->
   get_task_args object_names output_root input_folder n_groups
     tokenizer_name concat_tokens eos_text bos_text no_wrap compression
     trust_remote_code
   = Raise (ValueError "range() arg 3 must not be zero"))
  /\ (object_names <> [] ->
      exists tasks,
        get_task_args object_names output_root input_folder n_groups
          tokenizer_name concat_tokens eos_text bos_text no_wrap compression
          trust_remote_code = Ok tasks
        /\ concat (map file_names tasks) = object_names
        /\ Z.of_nat (length tasks) <= n_groups
        /\ Forall (fun task =>
                     file_names task <> []
                     /\ Z.of_nat (length (file_names task))
                        <= ceil_div (Z.of_nat (length object_names)) n_groups)
             tasks
        /\ forall i j task_i task_j,
             tasks !! i = Some task_i -> tasks !! j = Some task_j ->
             i <> j ->
             ca_output_folder task_i <> ca_output_folder task_j).
Proof.
  intros Hg. split.
  - intros ->. unfold get_task_args, ceil_div. cbn [length Z.of_nat].
    rewrite Z.div_small by lia. reflexivity.
  - intros Hne. unfold get_task_args.
    set (n := length object_names).
    assert (Hn : (0 < n)%nat).
    { unfold n. destruct object_names; [done|simpl; lia]. }
    set (k := ceil_div (Z.of_nat n) n_groups).
    assert (Hk : 0 < k /\ Z.of_nat n <= k * n_groups).
    { unfold k, ceil_div. split.
      - apply Z.div_str_pos. lia.
      - pose proof (Z.div_mod (Z.of_nat n + n_groups - 1) n_groups
                      ltac:(lia)) as Hdm.
        pose proof (Z.mod_pos_bound (Z.of_nat n + n_groups - 1) n_groups Hg).
        nia. }
    destruct (k =? 0) eqn:Hk0; [lia|].
    eexists. split; [reflexivity|].
    set (groups := groups_from n (Z.to_nat k) object_names).
    pose proof (groups_from_concat n (Z.to_nat k) object_names
                  ltac:(lia) ltac:(done)) as Hcat.
    pose proof (groups_from_sizes n (Z.to_nat k) object_names ltac:(lia))
      as Hsizes.
    pose proof (groups_from_count n (Z.to_nat k) object_names
                  ltac:(lia) ltac:(done)) as Hcount.
    fold groups in Hcat, Hsizes, Hcount. fold n in Hcount.
    split; [|split; [|split]].
    + change (map file_names) with (fmap (M := list) file_names).
      rewrite fmap_imap. unfold compose. cbn [file_names].
      rewrite (imap_const id). by rewrite list_fmap_id.
    + rewrite length_imap. nia.
    + apply Forall_forall. intros task Hin.
      apply list_elem_of_lookup in Hin as [i Hi].
      rewrite list_lookup_imap in Hi.
      destruct (groups !! i) as [g|] eqn:Hgi; [|done].
      injection Hi as <-. cbn [file_names].
      eapply Forall_lookup in Hsizes as [Hg1 Hg2]; [|exact Hgi].
      split; [done|]. lia.
    + intros i j task_i task_j Hi Hj Hij Heq.
      rewrite list_lookup_imap in Hi, Hj.
      destruct (groups !! i) as [gi|]; [|done].
      destruct (groups !! j) as [gj|]; [|done].
      injection Hi as <-. injection Hj as <-. cbn [ca_output_folder] in Heq.
      destruct (group_numeral_head i) as (c & rest & Hc & Hcs).
      destruct (group_numeral_head j) as (c' & rest' & Hc' & Hcs').
      apply (path_join_inj _ _ _ _ _ _ _ Hc Hcs Hc' Hcs') in Heq.
      apply str_inj in Heq. apply (inj pretty) in Heq. lia.
Qed.

Lemma get_task_args_partition_witness :
  get_task_args [] (str "out") (str "in") 2 (str "gpt2") 8 (str "</s>") []
    false (str "zstd") false
  = Raise (ValueError "range() arg 3 must not be zero")
  /\ exists tasks,
       get_task_args [str "a.txt"; str "b.txt"; str "c.txt"] (str "out")
         (str "in") 2 (str "gpt2") 8 (str "</s>") [] false (str "zstd")
         false = Ok tasks
       /\ concat (map file_names tasks)
          = [str "a.txt"; str "b.txt"; str "c.txt"]
       /\ Z.of_nat (length tasks) <= 2
       /\ Forall (fun task =>
                    file_names task <> []
                    /\ Z.of_nat (length (file_names task))
                       <= ceil_div
                            (Z.of_nat
                               (length [str "a.txt"; str "b.txt";
                                        str "c.txt"])) 2)
            tasks
       /\ forall i j task_i task_j,
            tasks !! i = Some task_i -> tasks !! j = Some task_j ->
            i <> j ->
            ca_output_folder task_i <> ca_output_folder task_j.
Proof.
  split.
  - apply (get_task_args_partition [] (str "out") (str "in") 2 (str "gpt2") 8
             (str "</s>") [] false (str "zstd") false); [lia|reflexivity].
  - apply (get_task_args_partition [str "a.txt"; str "b.txt"; str "c.txt"]
             (str "out") (str "in") 2 (str "gpt2") 8 (str "</s>") [] false
             (str "zstd") false); [lia|discriminate].
Defined.

(** *** The done file and a second run *)

Lemma splitlines_from_nil line s :
  splitlines_from line s = [] <-> line = [] /\ s = [].
Proof.
  split; [|by intros [-> ->]].
  revert line. induction s as [|c s IH]; intros line; simpl.
  - by destruct line.
  - repeat case_match; try done. intros Hs. by apply IH in Hs as [? ?].
Qed.

Lemma universal_newlines_nil s : universal_newlines s = [] <-> s = [].
Proof.
  split; [|by intros ->]. destruct s as [|c s]; [done|]. simpl.
  by repeat case_match.
Qed.

(** X6. For a local output folder that holds a done file,
    [is_already_processed] is decided by the lines of that file: it returns
    True exactly when the first line is the argument string and the other
    lines are the object names, in order. A done file without a line raises
    [IndexError], and the only such file is the empty one. *)
Theorem is_already_processed_reads_lines env w output_root args_str
  object_names content :
  maybe_create_object_store_from_uri env output_root = Ok None ->
  files w !! path_join output_root DONE_FILENAME = Some content ->
  is_already_processed env w output_root args_str object_names
  = match splitlines (universal_newlines content) with
    | [] => Raise (IndexError "list index out of range")
    | prev_args_str :: prev_names =>
        Ok (bool_decide (args_str = prev_args_str
                         /\ object_names = prev_names))
    end
  /\ (is_already_processed env w output_root args_str object_names
      = Raise (IndexError "list index out of range") <-> content = []).
Proof.
  intros Hlocal Hfile.
  assert (Heq : is_already_processed env w output_root args_str object_names
    = match splitlines (universal_newlines content) with
      | [] => Raise (IndexError "list index out of range")
      | prev_args_str :: prev_names =>
          Ok (bool_decide (args_str = prev_args_str
                           /\ object_names = prev_names))
      end).
  { destruct (splitlines (universal_newlines content))
      as [|prev_args_str prev_names] eqn:Hlines.
    - unfold is_already_processed. rewrite Hlocal.
      unfold mbind, result_bind, Py.bind, isfile, read_text.
      rewrite Hfile, bool_decide_eq_true_2 by eauto. by rewrite Hlines.
    - by eapply is_already_processed_local. }
  split; [exact Heq|]. rewrite Heq.
  destruct (splitlines (universal_newlines content)) as [|a l] eqn:Hlines.
  - apply (proj1 (splitlines_from_nil _ _)) in Hlines as [_ Hnil].
    apply (proj1 (universal_newlines_nil _)) in Hnil. by split.
  - split; [done|]. intros ->. done.
Qed.

Lemma is_already_processed_reads_lines_witness :
  is_already_processed local_env
    {| files := {[ str "out/.text_to_mds_conversion_done" := [] ]};
       dirs := {[ str "out" := [str ".text_to_mds_conversion_done"] ]};
       objects := ∅ |} (str "out") (str "args") [str "in/a.txt"]
  = match splitlines (universal_newlines []) with
    | [] => Raise (IndexError "list index out of range")
    | prev_args_str :: prev_names =>
        Ok (bool_decide (str "args" = prev_args_str
                         /\ [str "in/a.txt"] = prev_names))
    end
  /\ (is_already_processed local_env
        {| files := {[ str "out/.text_to_mds_conversion_done" := [] ]};
           dirs := {[ str "out" := [str ".text_to_mds_conversion_done"] ]};
           objects := ∅ |} (str "out") (str "args") [str "in/a.txt"]
      = Raise (IndexError "list index out of range")
      <-> ([] : pystr) = []).
Proof.
  apply (is_already_processed_reads_lines local_env
           {| files := {[ str "out/.text_to_mds_conversion_done" := [] ]};
              dirs := {[ str "out" := [str ".text_to_mds_conversion_done"] ]};
              objects := ∅ |} (str "out") (str "args") [str "in/a.txt"] []).
  - reflexivity.
  - vm_compute. reflexivity.
Defined.

(** X7. A second run is a no-op. When [convert_text_to_mds] has completed
    for a local output folder, the same call with [reprocess=False] on the
    world that it left returns that world unchanged: it converts nothing and
    does not fail on the output folder, which is no longer empty. The input
    listing is the same in both runs, and the argument string and the names
    hold no line boundary. *)
Theorem second_run_is_noop env w w' tokenizer_name output_folder input_folder
  concat_tokens eos_text bos_text no_wrap compression processes args_str
  reprocess trust_remote_code object_names :
  maybe_create_object_store_from_uri env output_folder = Ok None ->
  is_remote_path env output_folder = false ->
  get_object_names env w input_folder = Ok object_names ->
  get_object_names env w' input_folder = Ok object_names ->
  one_line args_str -> Forall one_line object_names ->
  convert_text_to_mds env w tokenizer_name output_folder input_folder
    concat_tokens eos_text bos_text no_wrap compression processes args_str
    reprocess trust_remote_code = Ok w' ->
  convert_text_to_mds env w' tokenizer_name output_folder input_folder
    concat_tokens eos_text bos_text no_wrap compression processes args_str
    false trust_remote_code = Ok w'.
Proof.
  intros Hlocal Hremote Hnames Hnames' Hargs Hone Hrun.
  unfold convert_text_to_mds in *.
  rewrite Hnames in Hrun. rewrite Hnames'. rewrite Hremote in *.
  unfold mbind, result_bind, Py.bind in *.
  destruct (from_pretrained env tokenizer_name trust_remote_code)
    as [tokenizer|]; [|done].
  destruct (length object_names =? 0)%nat; [done|].
  assert (Hdone : is_already_processed env w' output_folder args_str
                    object_names = Ok true); [|by rewrite Hdone].
  destruct (if reprocess then Ok false
            else is_already_processed env w output_folder args_str
                   object_names) as [[|]|] eqn:Halready; [| |done].
  - injection Hrun as <-. by destruct reprocess.
  - clear Halready.
    destruct (if isdir w output_folder then _ else _) as [[|]|]; try done.
    destruct (if 1 <? processes then _ else _) as [w1|]; [|done].
    destruct (index_has_shards env w1 _) as [[|]|]; try done.
    cbn [negb] in Hrun.
    destruct (write_done_file w1 output_folder args_str object_names)
      as [w2|] eqn:Hwrite; [|done].
    injection Hrun as <-.
    unfold write_done_file, write_text in Hwrite.
    destruct (bool_decide (output_folder = []) || isdir w1 output_folder);
      [|done].
    destruct (forallb encodable _); [|done].
    injection Hwrite as <-.
    rewrite (is_already_processed_local env _ output_folder args_str
               object_names
               (join_lines (args_str :: object_names) ++ [LF])
               args_str object_names); [|done| |].
    + by rewrite bool_decide_eq_true_2.
    + cbn [files]. apply lookup_insert_eq.
    + rewrite universal_newlines_id
        by (apply join_lines_no_CR; by constructor).
      apply splitlines_join_lines. by constructor.
Qed.

Lemma second_run_is_noop_witness :
  convert_text_to_mds local_env
    {| files := {[ str "out/index.json" := str "{'shards': [0]}";
                   str "out/.text_to_mds_conversion_done"
                   := str "args" ++ LF :: str "in/a.txt" ++ [LF] ]};
       dirs := {[ str "out" := [str "index.json";
                                str ".text_to_mds_conversion_done"] ]};
       objects := ∅ |}
    (str "gpt2") (str "out") (str "in") 8 (str "</s>") [] false (str "zstd")
    1 (str "args") false false
  = Ok {| files := {[ str "out/index.json" := str "{'shards': [0]}";
                      str "out/.text_to_mds_conversion_done"
                      := str "args" ++ LF :: str "in/a.txt" ++ [LF] ]};
          dirs := {[ str "out" := [str "index.json";
                                   str ".text_to_mds_conversion_done"] ]};
          objects := ∅ |}.
Proof.
  apply (second_run_is_noop local_env (world_with_output []) _
           (str "gpt2") (str "out") (str "in") 8 (str "</s>") [] false
           (str "zstd") 1 (str "args") true false [str "in/a.txt"]).
  - reflexivity.
  - reflexivity.
  - reflexivity.
  - reflexivity.
  - unfold one_line. repeat constructor.
  - unfold one_line. repeat constructor.
  - vm_compute. reflexivity.
Defined.


(** *** The upload of a remote run *)

(** The objects after the upload of the files [l]: each file is stored
    under its remote path, a later file replacing an earlier one of the same
    path. *)
Lemma upload_files_objects w store prefix local l w' :
  upload_files w store prefix local l = Ok w' ->
  files w' = files w /\ dirs w' = dirs w
  /\ Forall (fun file => is_Some (files w !! path_join local file)) l
  /\ objects w'
     = fold_left (fun o file =>
                    match files w !! path_join local file with
                    | Some s => <[(store, path_join prefix file) := s]> o
                    | None => o
                    end) l (objects w).
Proof.
  revert w. induction l as [|file l IH]; intros w; cbn [upload_files].
  - intros [= <-]. done.
  - destruct (isdir w file); [done|].
    destruct (files w !! path_join local file) as [s|] eqn:Hs; [|done].
    cbn [mbind result_bind Py.bind]. intros Hrest.
    apply IH in Hrest as (Hf & Hd & Hall & Ho). cbn in Hf, Hd, Hall, Ho.
    split; [done|]. split; [done|]. split.
    + constructor; [by rewrite Hs|done].
    + cbn [fold_left]. by rewrite Hs.
Qed.

Lemma uploaded_lookup (fs : gmap pystr pystr) (store prefix local : pystr)
  (l : list pystr) (o : gmap (pystr * pystr) pystr) (file : pystr) :
  Forall (fun file => is_Some (fs !! path_join local file)) l ->
  file ∈ l ->
  exists file' s,
    file' ∈ l /\ path_join prefix file' = path_join prefix file
    /\ fs !! path_join local file' = Some s
    /\ fold_left (fun (o : gmap (pystr * pystr) pystr) file =>
                    match fs !! path_join local file with
                    | Some s => <[(store, path_join prefix file) := s]> o
                    | None => o
                    end) l o
       !! (store, path_join prefix file) = Some s.
Proof.
  induction l as [|x l IH] using rev_ind; intros Hall Hin;
    [by apply elem_of_nil in Hin|].
  apply Forall_app in Hall as [Hall Hx].
  apply Forall_singleton in Hx as [s Hs].
  rewrite fold_left_app. cbn [fold_left]. rewrite Hs.
  destruct (decide (path_join prefix x = path_join prefix file)) as [Heq|Hne].
  - exists x, s. split; [apply elem_of_app; right; by left|].
    split; [done|]. split; [done|]. rewrite Heq. apply lookup_insert_eq.
  - apply elem_of_app in Hin as [Hin|Hin].
    + destruct (IH Hall Hin) as (file' & s' & Hin' & Hkey & Hfile & Hobj).
      exists file', s'. split; [apply elem_of_app; by left|].
      split; [done|]. split; [done|].
      rewrite lookup_insert_ne by congruence. done.
    + apply list_elem_of_singleton in Hin as ->. done.
Qed.

(** X17. A run with a remote output uploads what it has written. When
    [convert_text_to_mds] returns for a remote output folder without taking
    the early return ([reprocess] is set), the temporary local folder lists
    the done file, which holds the argument string and the object names, and
    every file that the folder lists has an object under its remote path in
    the store of the output: the text of the file, or of a file of that
    listing with the same remote path. *)
Theorem remote_run_uploads_output env w w' tokenizer_name output_folder
  input_folder concat_tokens eos_text bos_text no_wrap compression processes
  args_str trust_remote_code store object_names :
  is_remote_path env output_folder = true ->
  maybe_create_object_store_from_uri env output_folder = Ok (Some store) ->
  get_object_names env w input_folder = Ok object_names ->
  convert_text_to_mds env w tokenizer_name output_folder input_folder
    concat_tokens eos_text bos_text no_wrap compression processes args_str
    true trust_remote_code = Ok w' ->
  exists listing,
    dirs w' !! temporary_directory env w = Some listing
    /\ DONE_FILENAME ∈ listing
    /\ files w' !! path_join (temporary_directory env w) DONE_FILENAME
       = Some (join_lines (args_str :: object_names) ++ [LF])
    /\ forall file,
         file ∈ listing ->
         exists file' s,
           file' ∈ listing
           /\ path_join (parse_uri env output_folder).2 file'
              = path_join (parse_uri env output_folder).2 file
           /\ files w' !! path_join (temporary_directory env w) file' = Some s
           /\ objects w'
              !! (store, path_join (parse_uri env output_folder).2 file)
              = Some s.
Proof.
  intros Hremote Hstore Hnames. unfold convert_text_to_mds.
  rewrite Hnames, Hremote, Hstore.
  unfold mbind, result_bind, Py.bind.
  destruct (from_pretrained env tokenizer_name trust_remote_code)
    as [tokenizer|]; [|done].
  destruct (length object_names =? 0)%nat; [done|].
  set (tmp := temporary_directory env w).
  destruct (if isdir w output_folder then _ else _) as [[|]|]; try done.
  destruct (if 1 <? processes then _ else _) as [w1|]; [|done].
  destruct (index_has_shards env w1 _) as [[|]|]; try done.
  cbn [negb].
  destruct (write_done_file w1 tmp args_str object_names) as [w2|] eqn:Hwrite;
    [|done].
  destruct (parse_uri env output_folder) as [[backend bucket] prefix].
  destruct (listdir w2 tmp) as [listing|] eqn:Hlist; [|done].
  intros Hupload. cbn [snd].
  apply upload_files_objects in Hupload as (Hfiles & Hdirs & Hall & Hobjects).
  unfold write_done_file, write_text in Hwrite.
  destruct (bool_decide (tmp = []) || isdir w1 tmp); [|done].
  destruct (forallb encodable _); [|done].
  injection Hwrite as <-. cbn [files dirs objects] in *.
  unfold listdir in Hlist. cbn [dirs] in Hlist.
  exists listing. rewrite Hdirs, Hfiles.
  assert (Hdone : (match dirs w1 !! tmp with
                   | Some l => if bool_decide (DONE_FILENAME ∈ l) then dirs w1
                               else <[tmp := l ++ [DONE_FILENAME]]> (dirs w1)
                   | None => dirs w1
                   end) !! tmp = Some listing
                  /\ DONE_FILENAME ∈ listing).
  { destruct (dirs w1 !! tmp) as [l|] eqn:Hl.
    - case_bool_decide as Hin.
      + rewrite Hl in Hlist |- *. case_bool_decide; [done|].
        injection Hlist as <-. done.
      + rewrite lookup_insert_eq in Hlist |- *. case_bool_decide; [done|].
        injection Hlist as <-. split; [done|].
        apply elem_of_app. right. by left.
    - by rewrite Hl in Hlist. }
  destruct Hdone as [Hdir Hin]. split; [done|]. split; [done|].
  split; [apply lookup_insert_eq|].
  intros file Hfile. rewrite Hobjects.
  by apply uploaded_lookup.
Qed.

Lemma remote_run_uploads_output_witness :
  exists listing,
    dirs remote_run_world !! temporary_directory remote_env empty_world
    = Some listing
    /\ DONE_FILENAME ∈ listing
    /\ files remote_run_world
       !! path_join (temporary_directory remote_env empty_world) DONE_FILENAME
       = Some (join_lines (str "args" :: [str "in/a.txt"]) ++ [LF])
    /\ forall file,
         file ∈ listing ->
         exists file' s,
           file' ∈ listing
           /\ path_join (parse_uri remote_env (str "s3://bucket/mds")).2 file'
              = path_join (parse_uri remote_env (str "s3://bucket/mds")).2
                  file
           /\ files remote_run_world
              !! path_join (temporary_directory remote_env empty_world) file'
              = Some s
           /\ objects remote_run_world
              !! (str "bucket",
                  path_join (parse_uri remote_env (str "s3://bucket/mds")).2
                    file)
              = Some s.
Proof.
  apply (remote_run_uploads_output remote_env empty_world remote_run_world
           (str "gpt2") (str "s3://bucket/mds") (str "in") 8 (str "</s>") []
           false (str "zstd") 1 (str "args") false (str "bucket")
           [str "in/a.txt"]).
  - reflexivity.
  - reflexivity.
  - reflexivity.
  - vm_compute. reflexivity.
Defined.


(** *** Windows without wrapping *)

Section NoWrap.

Variable tokenizer : pystr -> list Z.
Variable bos_token_id : option Z.
Variable ds : ConcatTokensDataset.

(** What one [while] loop yields: its windows, followed by what it leaves
    in the buffer, are tokens of the buffer in their order; without wrapping
    it yields one window at most. *)
Lemma yield_windows_sublist fuel buffer ws rest :
  0 < max_length ds ->
  yield_windows ds fuel buffer = (ws, Some rest) ->
  concat ws ++ rest `sublist_of` buffer
  /\ (should_wrap ds = false -> (length ws <= 1)%nat).
Proof.
  intros Hpos. revert buffer ws.
  induction fuel as [|fuel IH]; intros buffer ws; simpl; [done|].
  destruct (max_length ds <=? Z.of_nat (length buffer)) eqn:Hle.
  - destruct (yield_windows ds fuel _) as [ws' b] eqn:Hrec.
    intros [= <- ->]. destruct (IH _ _ Hrec) as [Hsub Hone].
    unfold slice_to, slice_from in *.
    destruct (0 <=? max_length ds) eqn:H0; [|lia].
    destruct (should_wrap ds) eqn:Hwrap.
    + split; [|done]. cbn [concat]. rewrite <- app_assoc. etrans.
      * apply sublist_app; [reflexivity|exact Hsub].
      * by rewrite take_drop.
    + destruct fuel as [|fuel']; [done|]. cbn in Hrec.
      destruct (max_length ds <=? Z.of_nat 0) eqn:Hm;
        [apply Z.leb_le in Hm; lia|].
      injection Hrec as <- <-. split; [|intros _; cbn; lia]. cbn [concat].
      rewrite !app_nil_r. apply sublist_take.
  - intros [= <- <-]. split; [reflexivity|cbn; lia].
Qed.

Lemma iter_chunks_sublist fuel chunks first_chunk buffer ws rest :
  0 < max_length ds ->
  iter_chunks tokenizer bos_token_id ds fuel chunks first_chunk buffer
  = (ws, Exhausted rest) ->
  concat ws ++ rest
  `sublist_of` buffer ++ chunks_stream tokenizer bos_token_id first_chunk chunks
  /\ (should_wrap ds = false -> (length ws <= length chunks)%nat).
Proof.
  intros Hpos. revert first_chunk buffer ws.
  induction chunks as [|[chunk|] chunks IH]; intros first_chunk buffer ws;
    cbn [iter_chunks chunks_stream]; [| |done].
  - intros [= <- <-]. rewrite app_nil_r. done.
  - assert (Hstrip : forall iids',
      (if first_chunk then Ok (tokenizer chunk)
       else match tokenizer chunk with
            | [] => Raise (IndexError "list index out of range")
            | t :: rest =>
                if bool_decide (Some t = bos_token_id) then Ok rest
                else Ok (tokenizer chunk)
            end) = Ok iids' ->
      iids' = if first_chunk then tokenizer chunk
              else strip_bos bos_token_id (tokenizer chunk)).
    { intros iids'. unfold strip_bos. destruct first_chunk; [by intros [= <-]|].
      destruct (tokenizer chunk) as [|t l]; [done|].
      destruct (bool_decide (Some t = bos_token_id)); by intros [= <-]. }
    match goal with |- context [match ?c with Ok _ => _ | Raise _ => _ end] =>
      destruct c as [iids|err] eqn:Hiids end; [|done].
    pose proof (Hstrip iids eq_refl) as Hiids'. clear Hstrip Hiids.
    destruct (yield_windows ds fuel (buffer ++ iids)) as [ws1 [buffer'|]]
      eqn:Hy; [|done].
    destruct (iter_chunks _ _ _ _ chunks _ _) as [ws2 e2] eqn:Hrec.
    intros [= <- ->].
    destruct (yield_windows_sublist _ _ _ _ Hpos Hy) as [Hsub1 Hone].
    destruct (IH _ _ _ Hrec) as [Hsub2 Hcount]. rewrite <- Hiids'. split.
    + rewrite concat_app, <- app_assoc. etrans.
      * apply sublist_app; [reflexivity|exact Hsub2].
      * rewrite !app_assoc. by apply sublist_app.
    + intros Hwrap. rewrite length_app. cbn [length].
      specialize (Hone Hwrap). specialize (Hcount Hwrap). lia.
Qed.

Lemma iter_files_sublist fuel files buffer ws rest :
  0 < max_length ds ->
  iter_files tokenizer bos_token_id ds fuel files buffer
  = (ws, Exhausted rest) ->
  concat ws ++ rest
  `sublist_of` buffer ++ token_stream tokenizer bos_token_id ds files
  /\ (should_wrap ds = false ->
      (length ws <= length (concat files) + 1)%nat).
Proof.
  intros Hpos. revert buffer ws.
  induction files as [|file files IH]; intros buffer ws;
    unfold token_stream; cbn [iter_files map concat].
  - destruct (yield_windows ds fuel buffer) as [ws1 [b|]] eqn:Hy; [|done].
    intros [= <- <-]. rewrite app_nil_r.
    destruct (yield_windows_sublist _ _ _ _ Hpos Hy) as [Hsub Hone].
    split; [done|]. intros Hwrap. specialize (Hone Hwrap). cbn. lia.
  - destruct (iter_chunks _ _ _ _ _ _ _) as [ws1 e1] eqn:Hc.
    destruct e1 as [buffer'| |]; try done.
    destruct (iter_files _ _ _ _ files _) as [ws2 e2] eqn:Hrec.
    intros [= <- ->].
    destruct (iter_chunks_sublist _ _ _ _ _ _ Hpos Hc) as [Hsub1 Hcount1].
    destruct (IH _ _ Hrec) as [Hsub2 Hcount2]. split.
    + rewrite concat_app, <- app_assoc. etrans.
      * apply sublist_app; [reflexivity|exact Hsub2].
      * unfold token_stream. rewrite !app_assoc.
        apply sublist_app; [|reflexivity]. by apply sublist_app.
    + intros Hwrap. rewrite !length_app.
      specialize (Hcount1 Hwrap). specialize (Hcount2 Hwrap). lia.
Qed.

End NoWrap.

(** X18. [__iter__] never repeats or reorders a token, with or without
    wrapping: on readable files it is exhausted (given fuel above the number
    of tokens), and the windows in the order they are yielded, followed by
    what is left in the buffer, are tokens of the token stream of the files
    in their order. Without wrapping the tokens of the buffer beyond a window
    are dropped, and every read of a chunk yields one window at most: there
    are no more windows than chunks, and one for the loop after the files. *)
Theorem iter_yields_tokens_in_order tokenizer bos_token_id ds fuel files :
  0 < max_length ds ->
  files_readable tokenizer files ->
  (length (token_stream tokenizer bos_token_id ds files) < fuel)%nat ->
  exists ws rest,
    __iter__ tokenizer bos_token_id ds fuel files = (ws, Exhausted rest)
    /\ concat ws ++ rest
       `sublist_of` token_stream tokenizer bos_token_id ds files
    /\ (should_wrap ds = false ->
        (length ws <= length (concat files) + 1)%nat).
Proof.
  intros Hpos Hread Hfuel. unfold __iter__.
  assert (Hends : forall buffer,
            (length buffer
             + length (token_stream tokenizer bos_token_id ds files)
             < fuel)%nat ->
            exists ws rest,
              iter_files tokenizer bos_token_id ds fuel files buffer
              = (ws, Exhausted rest)).
  { clear Hfuel. induction Hread as [|file files Hfile _ IH]; intros buffer;
      unfold token_stream; cbn [iter_files map concat].
    - intros Hfuel.
      destruct (yield_windows_terminates ds fuel buffer Hpos)
        as (ws & rest & ->); [lia|]. eauto.
    - rewrite !length_app. intros Hfuel.
      destruct (iter_chunks_ends tokenizer bos_token_id ds fuel file true
                  (buffer ++ bos_tokens ds) Hpos Hfile)
        as (ws1 & rest1 & -> & Hle); [rewrite length_app; lia|].
      rewrite length_app in Hle.
      destruct (IH (rest1 ++ eos_tokens ds)) as (ws2 & rest & ->);
        [rewrite length_app; unfold token_stream; lia|]. eauto. }
  destruct (Hends []) as (ws & rest & Hit); [simpl; lia|].
  exists ws, rest. split; [done|].
  by apply (iter_files_sublist tokenizer bos_token_id ds fuel files [] ws rest).
Qed.

Lemma iter_yields_tokens_in_order_witness :
  exists ws rest,
    __iter__ char_tokenizer None
      {| max_length := 8; bos_tokens := []; eos_tokens := [0];
         should_wrap := false |} 20
      [[Some (str "0123456789")]; [Some (str "abcde")]]
    = (ws, Exhausted rest)
    /\ concat ws ++ rest
       `sublist_of` token_stream char_tokenizer None
                      {| max_length := 8; bos_tokens := []; eos_tokens := [0];
                         should_wrap := false |}
                      [[Some (str "0123456789")]; [Some (str "abcde")]]
    /\ (should_wrap {| max_length := 8; bos_tokens := []; eos_tokens := [0];
                       should_wrap := false |} = false ->
        (length ws
         <= length (concat [[Some (str "0123456789")]; [Some (str "abcde")]])
            + 1)%nat).
Proof.
  apply (iter_yields_tokens_in_order char_tokenizer None
           {| max_length := 8; bos_tokens := []; eos_tokens := [0];
              should_wrap := false |} 20
           [[Some (str "0123456789")]; [Some (str "abcde")]]).
  - reflexivity.
  - repeat constructor; discriminate.
  - vm_compute. lia.
Defined.

(** *** The done file, written and read back *)

(** X20. What [write_done_file] writes, [is_already_processed] recognises,
    for names that both can handle. For a local output folder that exists
    (or the working directory), an argument string and object names that
    the encoding of the file can write (no surrogate code point) and none of
    which holds a line boundary of [str.splitlines] (\n, \r, \x0b, \x0c,
    \x1c, \x1d, \x1e, \x85, U+2028, U+2029): [write_done_file] returns, and
    right after it [is_already_processed] returns True for the same argument
    string and names, and False for every argument string that differs and
    for every list of names that differs in count, in content or in order.
    A first name with a surrogate in it, as [os.fsdecode] gives for a file
    name whose bytes are not UTF-8, makes [write_done_file] raise
    [UnicodeEncodeError]. *)
Theorem done_file_recognised_after_write env w folder args_str object_names :
  maybe_create_object_store_from_uri env folder = Ok None ->
  folder = [] \/ isdir w folder = true ->
  forallb encodable args_str = true ->
  Forall (fun name => forallb encodable name = true) object_names ->
  one_line args_str -> Forall one_line object_names ->
  (exists w',
     write_done_file w folder args_str object_names = Ok w'
     /\ is_already_processed env w' folder args_str object_names = Ok true
     /\ forall args_str' object_names',
          is_already_processed env w' folder args_str' object_names'
          = Ok (bool_decide (args_str' = args_str
                             /\ object_names' = object_names)))
  /\ (forall (pre : pystr) c (post : pystr),
        encodable c = false ->
        write_done_file w folder args_str
          ((pre ++ c :: post) :: object_names)
        = Raise UnicodeEncodeError).
Proof.
  intros Hlocal Hdir Hargs_enc Hnames_enc Hargs Hnames. split.
  - by apply done_file_round_trip.
  - intros pre c post Hc. by apply done_file_surrogate_name.
Qed.

Lemma done_file_recognised_after_write_witness :
  (exists w',
     write_done_file (world_with_output []) (str "out") (str "args")
       [str "a.txt"; str "b.txt"] = Ok w'
     /\ is_already_processed local_env w' (str "out") (str "args")
          [str "a.txt"; str "b.txt"] = Ok true
     /\ forall args_str' object_names',
          is_already_processed local_env w' (str "out") args_str'
            object_names'
          = Ok (bool_decide (args_str' = str "args"
                             /\ object_names' = [str "a.txt"; str "b.txt"])))
  /\ (forall (pre : pystr) c (post : pystr),
        encodable c = false ->
        write_done_file (world_with_output []) (str "out") (str "args")
          ((pre ++ c :: post) :: [str "a.txt"; str "b.txt"])
        = Raise UnicodeEncodeError).
Proof.
  apply (done_file_recognised_after_write local_env (world_with_output [])
           (str "out") (str "args") [str "a.txt"; str "b.txt"]).
  - reflexivity.
  - right. vm_compute. reflexivity.
  - reflexivity.
  - repeat constructor.
  - unfold one_line. repeat constructor.
  - unfold one_line. repeat constructor.
Defined.

(** The name that [os.fsdecode] gives for the bytes [a\xff] is [a\udcff]:
    [write_done_file] raises on it. *)
Example done_file_surrogate_example :
  write_done_file (world_with_output []) (str "out") (str "args")
    [[97; 56575]%N]
  = Raise UnicodeEncodeError.
Proof. reflexivity. Qed.

End ConvertTextToMdsExtras.

(** ** The MPT model *)

Module ModelingMptExtras.

Import ModelingMpt ModelingMptProofs.

(** *** The expansion of the order *)




(** *** The merge of [_override_block_args] *)

Lemma override_block_args_val_loop block_args oc allowed :
  override_block_args_val block_args (VDict oc) allowed
  = if existsb (fun kv => negb (dict_has allowed (fst kv))) oc
    then Raise (KeyError "Overriding unpermitted keys is not supported.")
    else override_common_keys block_args allowed oc (dict_union oc block_args).
Proof. reflexivity. Qed.

Lemma dict_get_not_key d k : k ∉ keys d -> dict_get d k = None.
Proof.
  induction d as [|[k' v] d IH]; [done|]. cbn [keys map fst dict_get].
  intros Hnot. rewrite bool_decide_eq_false_2.
  - apply IH. intros Hin. apply Hnot. by right.
  - intros ->. apply Hnot. by left.
Qed.

Lemma dict_get_key d k v : dict_get d k = Some v -> k ∈ keys d.
Proof.
  induction d as [|[k' v'] d IH]; [done|]. cbn [keys map fst dict_get].
  case_bool_decide as Hk; [intros _; subst; by left|].
  intros Hget. right. by apply IH.
Qed.

Lemma keys_dict_set d k v :
  keys (dict_set d k v) = if dict_has d k then keys d else keys d ++ [k].
Proof.
  unfold dict_has. induction d as [|[k' v'] d IH]; [done|].
  cbn [dict_set dict_get]. destruct (decide (k' = k)) as [->|Hk].
  - rewrite !bool_decide_eq_true_2 by eauto. done.
  - rewrite !(bool_decide_eq_false_2 (k' = k)) by done.
    unfold keys in *. cbn [map fst]. rewrite IH.
    by destruct (bool_decide (is_Some (dict_get d k))).
Qed.

Lemma NoDup_keys_dict_set d k v : NoDup (keys d) -> NoDup (keys (dict_set d k v)).
Proof.
  intros Hd. rewrite keys_dict_set. unfold dict_has. case_bool_decide as Hk;
    [done|].
  apply NoDup_app. split; [done|]. split; [|apply NoDup_singleton].
  intros k' Hin Hk'. apply list_elem_of_singleton in Hk' as ->.
  apply Hk. destruct (dict_get d k) eqn:Hget; [eauto|].
  exfalso. clear Hk. induction d as [|[k0 v0] d IH]; [by apply elem_of_nil in Hin|].
  cbn [dict_get] in Hget. case_bool_decide; [done|].
  apply NoDup_cons in Hd as [_ Hd]. apply elem_of_cons in Hin as [Hin|Hin];
    [done|by apply IH].
Qed.

(** [a | b]: the items of [b], and the items of [a] under the other
    keys. *)
Lemma dict_get_union a b k :
  NoDup (keys b) ->
  dict_get (dict_union a b) k
  = match dict_get b k with
    | Some v => Some v
    | None => dict_get a k
    end.
Proof.
  unfold dict_union. revert a.
  induction b as [|[k' v'] b IH]; intros a Hb; [done|].
  cbn [keys map fst] in Hb. apply NoDup_cons in Hb as [Hk' Hb].
  cbn [fold_left fst snd dict_get]. rewrite IH by done.
  case_bool_decide as Hk.
  - subst k'. rewrite dict_get_not_key by done. apply dict_get_set_eq.
  - destruct (dict_get b k); [done|]. by apply dict_get_set_ne.
Qed.

(** What the loop over the common keys leaves under a key. *)
Lemma override_common_keys_lookup block_args allowed items acc new k :
  NoDup (keys items) ->
  override_common_keys block_args allowed items acc = Ok new ->
  match dict_get items k, dict_get block_args k with
  | Some ov, Some bv =>
      type_of ov = type_of bv
      /\ match ov with
         | VDict od =>
             exists bd ad r,
               bv = VDict bd /\ dict_get allowed k = Some (VDict ad)
               /\ _override_block_args bd od ad = Ok r
               /\ dict_get new k = Some (VDict r)
         | _ => dict_get new k = Some ov
         end
  | _, _ => dict_get new k = dict_get acc k
  end.
Proof.
  revert acc. induction items as [|[k0 ov0] items IH]; intros acc Hnd.
  - cbn. by intros [= <-].
  - cbn [keys map fst] in Hnd. apply NoDup_cons in Hnd as [Hk0 Hnd].
    cbn [override_common_keys dict_get].
    destruct (decide (k0 = k)) as [->|Hne].
    + rewrite bool_decide_eq_true_2 by done.
      destruct (dict_get block_args k) as [bv|] eqn:Hbv.
      * case_bool_decide as Hty; [|done]. cbn [negb].
        assert (Hrest : forall acc',
          override_common_keys block_args allowed items acc' = Ok new ->
          dict_get new k = dict_get acc' k).
        { intros acc' Hloop. specialize (IH acc' Hnd Hloop).
          by rewrite (dict_get_not_key items k) in IH. }
        destruct ov0 as [| | | | | |od];
          try (intros Hloop; split; [done|];
               rewrite (Hrest _ Hloop); apply dict_get_set_eq).
        destruct bv as [| | | | | |bd]; try done.
        destruct (dict_get allowed k) as [[| | | | | |ad]|]; try done.
        destruct (override_block_args_val bd (VDict od) ad) as [r|] eqn:Hr;
          [|done].
        cbn [mbind result_bind Py.bind]. intros Hloop. split; [done|].
        exists bd, ad, r. split; [done|]. split; [done|]. split; [done|].
        rewrite (Hrest _ Hloop). apply dict_get_set_eq.
      * intros Hloop. specialize (IH acc Hnd Hloop).
        by rewrite (dict_get_not_key items k) in IH.
    + rewrite bool_decide_eq_false_2 by done.
      destruct (dict_get block_args k0) as [bv0|] eqn:Hbv0; [|by apply IH].
      case_bool_decide as Hty; [|done]. cbn [negb].
      assert (Hrest : forall v,
        override_common_keys block_args allowed items (dict_set acc k0 v)
        = Ok new ->
        match dict_get items k, dict_get block_args k with
        | Some ov, Some bv =>
            type_of ov = type_of bv
            /\ match ov with
               | VDict od =>
                   exists bd ad r,
                     bv = VDict bd /\ dict_get allowed k = Some (VDict ad)
                     /\ _override_block_args bd od ad = Ok r
                     /\ dict_get new k = Some (VDict r)
               | _ => dict_get new k = Some ov
               end
        | _, _ => dict_get new k = dict_get acc k
        end).
      { intros v Hloop. specialize (IH _ Hnd Hloop).
        by rewrite dict_get_set_ne in IH. }
      destruct ov0 as [| | | | | |od]; try apply Hrest.
      destruct bv0 as [| | | | | |bd]; try done.
      destruct (dict_get allowed k0) as [[| | | | | |ad]|]; try done.
      destruct (override_block_args_val bd (VDict od) ad) as [r|]; [|done].
      cbn [mbind result_bind Py.bind]. apply Hrest.
Qed.

(** The result of [_override_block_args], key by key. *)
Lemma override_block_args_lookup block_args override_config allowed new k :
  NoDup (keys block_args) -> NoDup (keys override_config) ->
  _override_block_args block_args override_config allowed = Ok new ->
  match dict_get override_config k, dict_get block_args k with
  | None, bv => dict_get new k = bv
  | Some ov, None => dict_has allowed k = true /\ dict_get new k = Some ov
  | Some ov, Some bv =>
      dict_has allowed k = true
      /\ type_of ov = type_of bv
      /\ match ov with
         | VDict od =>
             exists bd ad r,
               bv = VDict bd /\ dict_get allowed k = Some (VDict ad)
               /\ _override_block_args bd od ad = Ok r
               /\ dict_get new k = Some (VDict r)
         | _ => dict_get new k = Some ov
         end
  end.
Proof.
  intros Hba Hoc. unfold _override_block_args.
  rewrite override_block_args_val_loop.
  destruct (existsb _ override_config) eqn:Hperm; [done|].
  intros Hloop.
  pose proof (override_common_keys_lookup _ _ _ _ _ k Hoc Hloop) as Hk.
  rewrite dict_get_union in Hk by done.
  assert (Hallowed : forall ov, dict_get override_config k = Some ov ->
                                dict_has allowed k = true).
  { intros ov Hov. apply not_true_iff_false in Hperm.
    destruct (dict_has allowed k) eqn:Hal; [done|]. exfalso. apply Hperm.
    apply existsb_exists. exists (k, ov). split; [|cbn [fst]; by rewrite Hal].
    clear -Hov. induction override_config as [|[k' v'] d IH]; [done|].
    cbn [dict_get] in Hov. case_bool_decide; [|right; by apply IH].
    left. by simplify_eq. }
  destruct (dict_get override_config k) as [ov|] eqn:Hov.
  - specialize (Hallowed ov eq_refl).
    destruct (dict_get block_args k) as [bv|]; [|done].
    destruct Hk as [Hty Hk]. done.
  - by destruct (dict_get block_args k).
Qed.

(** X9. [_override_block_args] merges the override into the arguments of
    a block key by key (dictionaries with one item per key): a key that the
    override does not give keeps the value of the block arguments; a key that
    only the override gives is added with the override's value; a key that
    both give takes the override's value when this is not a dictionary, and
    the merge of the two dictionaries, by the same rules and under the
    permissions listed for that key, when it is. The call returns only if
    every key of the override is permitted and the two values under a common
    key have the same type. *)
Theorem override_block_args_merges block_args override_config allowed
  new_block_args :
  NoDup (keys block_args) -> NoDup (keys override_config) ->
  _override_block_args block_args override_config allowed
  = Ok new_block_args ->
  forall k,
    match dict_get override_config k, dict_get block_args k with
    | None, bv => dict_get new_block_args k = bv
    | Some ov, None =>
        dict_has allowed k = true /\ dict_get new_block_args k = Some ov
    | Some ov, Some bv =>
        dict_has allowed k = true
        /\ type_of ov = type_of bv
        /\ match ov with
           | VDict od =>
               exists bd ad r,
                 bv = VDict bd /\ dict_get allowed k = Some (VDict ad)
                 /\ _override_block_args bd od ad = Ok r
                 /\ dict_get new_block_args k = Some (VDict r)
           | _ => dict_get new_block_args k = Some ov
           end
    end.
Proof.
  intros Hba Hoc Hnew k. by apply override_block_args_lookup.
Qed.

Lemma override_block_args_merges_witness :
  dict_has (allowed_block_overrides reuse_example) "attn_config" = true
  /\ type_of (VDict [("reuse_kv_layer_idx", VInt 0)])
     = type_of (VDict [("attn_impl", VStr "flash")])
  /\ exists bd ad r,
       VDict [("attn_impl", VStr "flash")] = VDict bd
       /\ dict_get (allowed_block_overrides reuse_example) "attn_config"
          = Some (VDict ad)
       /\ _override_block_args bd [("reuse_kv_layer_idx", VInt 0)] ad = Ok r
       /\ dict_get [("attn_config",
                     VDict [("reuse_kv_layer_idx", VInt 0);
                            ("attn_impl", VStr "flash")]);
                    ("d_model", VInt 64)] "attn_config" = Some (VDict r).
Proof.
  apply (override_block_args_merges example_block_args
           [("attn_config", VDict [("reuse_kv_layer_idx", VInt 0)])]
           (allowed_block_overrides reuse_example)
           [("attn_config",
             VDict [("reuse_kv_layer_idx", VInt 0);
                    ("attn_impl", VStr "flash")]);
            ("d_model", VInt 64)]
           ltac:(unfold keys; apply (bool_decide_unpack _); vm_compute; exact I)
           ltac:(unfold keys; apply (bool_decide_unpack _); vm_compute; exact I)
           ltac:(reflexivity) "attn_config").
Defined.

(** *** Reuse chains and the caches of [forward] *)

Lemma dict_get_In d k v : dict_get d k = Some v -> In (k, v) d.
Proof.
  induction d as [|[k' v'] d IH]; [done|]. cbn [dict_get].
  case_bool_decide; [|right; by apply IH]. intros [= <-]. left. by subst.
Qed.

Lemma well_formed_dict d :
  well_formed (VDict d) = true ->
  NoDup (keys d)
  /\ forall k v, dict_get d k = Some v -> well_formed v = true.
Proof.
  cbn [well_formed]. intros Hwf. apply andb_true_iff in Hwf as [Hnd Hall].
  apply bool_decide_eq_true in Hnd. split; [done|].
  intros k v Hget. rewrite forallb_forall in Hall.
  apply (Hall (k, v)). by apply dict_get_In.
Qed.

Lemma args_well_formed_of d : well_formed (VDict d) = true -> args_well_formed d.
Proof.
  intros Hwf. apply well_formed_dict in Hwf as [Hnd Hall]. split; [done|].
  intros a Ha. apply Hall in Ha. by apply well_formed_dict in Ha as [? _].
Qed.

Lemma args_well_formed_nil : args_well_formed [].
Proof. split; [constructor|done]. Qed.

Lemma args_well_formed_store d a reuse_type v :
  args_well_formed d -> dict_get d "attn_config" = Some (VDict a) ->
  args_well_formed
    (dict_set d "attn_config" (VDict (dict_set a reuse_type v))).
Proof.
  intros [Hnd Hattn] Ha. split; [by apply NoDup_keys_dict_set|].
  intros a'. rewrite dict_get_set_eq. intros [= <-].
  apply NoDup_keys_dict_set. by apply Hattn.
Qed.

(** The merge keeps the reuse index of the override, when the arguments of
    the model give none. *)
Lemma merged_attn_arg block_args oc allowed new reuse_type :
  args_well_formed block_args -> args_well_formed oc ->
  _override_block_args block_args oc allowed = Ok new ->
  attn_arg block_args reuse_type = VNone ->
  attn_arg new reuse_type = attn_arg oc reuse_type.
Proof.
  intros [Hba Hba'] [Hoc Hoc'] Hnew Hnone.
  pose proof (override_block_args_lookup _ _ _ _ "attn_config" Hba Hoc Hnew)
    as Hk.
  unfold attn_arg in *.
  destruct (dict_get oc "attn_config") as [ov|] eqn:Hov.
  - destruct (dict_get block_args "attn_config") as [bv|] eqn:Hbv.
    + destruct Hk as (_ & Hty & Hk).
      destruct ov as [| | | | | |od]; try (by rewrite Hk).
      destruct Hk as (bd & ad & r & -> & _ & Hr & ->).
      pose proof (override_block_args_lookup _ _ _ _ reuse_type
                    (Hba' _ eq_refl) (Hoc' _ eq_refl) Hr) as Hrt.
      destruct (dict_get od reuse_type) as [x|].
      * destruct (dict_get bd reuse_type) as [y|].
        -- destruct Hrt as (_ & Hxy & Hrt). cbn [default from_option id] in *.
           subst y. destruct x; try done. by rewrite Hrt.
        -- destruct Hrt as [_ ->]. done.
      * rewrite Hrt. done.
    + destruct Hk as [_ ->]. done.
  - rewrite Hk. by destruct (dict_get block_args "attn_config") as [[]|].
Qed.

(** The index that [_resolve_reuse_state_layer_idx] returns is the layer
    pointed to, or the layer which that one reuses. *)
Lemma resolve_source ovs expanded b_idx oc d reuse_type idx d' :
  reuse_dict_ok d b_idx ->
  _resolve_reuse_state_layer_idx ovs expanded b_idx oc d reuse_type
  = Ok (idx, d') ->
  exists j, 0 <= j < b_idx /\ idx = default j (d !! j)
            /\ d' = <[b_idx := idx]> d.
Proof.
  intros Hd. unfold _resolve_reuse_state_layer_idx.
  destruct (dict_get oc "attn_config") as [attn|]; [|done].
  cbn [mbind result_bind Py.bind].
  destruct (py_getitem attn reuse_type) as [offset|]; [|done].
  cbn [mbind result_bind Py.bind].
  assert (Hint : forall off,
    (if 0 <=? off
     then Raise (ValueError
            "The relative index of kv layer to reuse should be negative.")
     else
       let reuse_state_layer_idx := b_idx + off in
       if reuse_state_layer_idx <? 0
       then Raise (ValueError
              "The absolute index of kv layer to reuse should be non-negative.")
       else
         let reuse_state_layer_idx :=
           match d !! reuse_state_layer_idx with
           | Some i => i
           | None => reuse_state_layer_idx
           end in
         resolve_parent ovs expanded b_idx d reuse_state_layer_idx)
    = Ok (idx, d') ->
    exists j, 0 <= j < b_idx /\ idx = default j (d !! j)
              /\ d' = <[b_idx := idx]> d).
  { intros off.
    destruct (0 <=? off) eqn:Hoff; [done|]. apply Z.leb_gt in Hoff.
    cbn zeta. destruct (b_idx + off <? 0) eqn:Habs; [done|].
    apply Z.ltb_ge in Habs. intros Hres.
    apply resolve_parent_returns in Hres as [-> ->].
    exists (b_idx + off). split; [lia|]. split; [|done].
    by destruct (d !! (b_idx + off)). }
  destruct offset as [|[]|z|x| | |]; try done; try apply Hint.
  destruct (PrimFloat.leb _ _); [done|]. cbn zeta.
  destruct (PrimFloat.ltb _ _); [done|].
  destruct (float_lookup _ _) as [i|] eqn:Hfloat; [|done].
  intros Hres. apply resolve_parent_returns in Hres as [-> ->].
  apply float_lookup_Some in Hfloat as (k & Hk & _).
  destruct (Hd _ _ Hk). exists k. split; [lia|]. by rewrite Hk.
Qed.

(** The two ways in which the override of a layer is made: without a reuse
    index the override is the one of the configuration and the state is left
    alone; with one, the index resolved is stored in the override, in the
    dictionary and in the set of layers to cache. *)
Lemma layer_override_config_cases bo expanded b_idx module_name st oc st1 :
  layer_override_config bo expanded b_idx module_name st = Ok (oc, st1) ->
  (st1 = st
   /\ (forall a reuse_type,
         dict_get oc "attn_config" = Some (VDict a) ->
         is_reuse_type reuse_type -> dict_get a reuse_type = None)
   /\ (oc = []
       \/ exists ovs, bo_overrides bo = Some ovs
                      /\ dict_get ovs module_name = Some (VDict oc)))
  \/ (exists ovs d a reuse_type idx d',
        bo_overrides bo = Some ovs
        /\ dict_get ovs module_name = Some (VDict d)
        /\ dict_get d "attn_config" = Some (VDict a)
        /\ is_reuse_type reuse_type
        /\ _resolve_reuse_state_layer_idx ovs expanded b_idx d
             (default ∅ (reuse_state_layer_idx_dicts st !! reuse_type))
             reuse_type = Ok (idx, d')
        /\ (forall other, is_reuse_type other -> other <> reuse_type ->
                          dict_get a other = None)
        /\ oc = dict_set d "attn_config"
                  (VDict (dict_set a reuse_type (VInt idx)))
        /\ st1 = {| reuse_state_layer_idx_dicts :=
                      <[reuse_type := d']> (reuse_state_layer_idx_dicts st);
                    state_cache_layers :=
                      <[reuse_type :=
                          {[idx]} ∪
                          default ∅ (state_cache_layers st !! reuse_type)]>
                        (state_cache_layers st);
                    layer_description_list := layer_description_list st;
                    new_block_args_list := new_block_args_list st |}).
Proof.
  unfold layer_override_config. case_bool_decide.
  { intros [= <- <-]. left. split; [done|]. split; [done|]. by left. }
  destruct (bo_overrides bo) as [ovs|]; [|done].
  cbn [mbind result_bind Py.bind].
  destruct (dict_get ovs module_name) as [[| | | | | |d]|] eqn:Hd;
    try done.
  cbn [mbind result_bind Py.bind].
  destruct (dict_get d "attn_config") as [attn|] eqn:Hattn;
    cbn [from_option id].
  2:{ cbn. intros [= <- <-]. left. split; [done|].
      split; [intros a rt Ha; by rewrite Hattn in Ha|]. right. eauto. }
  destruct (py_contains "reuse_kv_layer_idx" attn) as [has_kv|] eqn:Hkv;
    [|done].
  cbn [mbind result_bind Py.bind].
  destruct has_kv.
  - destruct (py_contains "reuse_kv_x_layer_idx" attn) as [[]|] eqn:Hkvx;
      try done.
    cbn [mbind result_bind Py.bind andb].
    destruct (_resolve_reuse_state_layer_idx _ _ _ _ _ _) as [[idx d']|]
      eqn:Hres; [|done].
    cbn [mbind result_bind Py.bind].
    destruct attn as [| | | | | |a]; try done. intros [= <- <-].
    right. exists ovs, d, a, "reuse_kv_layer_idx", idx, d'.
    repeat (split; [done|]). split; [by left|]. split; [done|].
    split; [|done]. intros other [->| ->] Hne; [done|].
    apply dict_has_false. by injection Hkvx.
  - cbn [mbind result_bind Py.bind andb].
    destruct (py_contains "reuse_kv_x_layer_idx" attn) as [[]|] eqn:Hkvx;
      try done; cbn [mbind result_bind Py.bind].
    + destruct (_resolve_reuse_state_layer_idx _ _ _ _ _ _) as [[idx d']|]
        eqn:Hres; [|done].
      cbn [mbind result_bind Py.bind].
      destruct attn as [| | | | | |a]; try done. intros [= <- <-].
      right. exists ovs, d, a, "reuse_kv_x_layer_idx", idx, d'.
      repeat (split; [done|]). split; [by right|]. split; [done|].
      split; [|done]. intros other [->| ->] Hne; [|done].
      apply dict_has_false. by injection Hkv.
    + intros [= <- <-]. left. split; [done|]. split; [|right; eauto].
      intros a rt Ha [->| ->]; rewrite Hattn in Ha; injection Ha as ->.
      * injection Hkv as Hkv. by apply dict_has_false in Hkv.
      * injection Hkvx as Hkvx. by apply dict_has_false in Hkvx.
Qed.

Lemma reuse_dict_flat_empty : reuse_dict_flat ∅.
Proof. intros k v Hk. by rewrite lookup_empty in Hk. Qed.

(** Storing the resolved index of layer [b] keeps the dictionary flat. *)
Lemma reuse_dict_flat_store d b j :
  reuse_dict_ok d b -> reuse_dict_flat d -> 0 <= j < b ->
  reuse_dict_flat (<[b := default j (d !! j)]> d).
Proof.
  intros Hok Hflat Hj.
  assert (Hidx : d !! default j (d !! j) = None /\ default j (d !! j) < b).
  { destruct (d !! j) as [v|] eqn:Hv; cbn.
    - split; [by eapply Hflat|]. destruct (Hok _ _ Hv). lia.
    - split; [done|lia]. }
  destruct Hidx as [Hnone Hlt].
  intros k v. destruct (decide (k = b)) as [->|Hne].
  - rewrite lookup_insert_eq. intros [= <-].
    rewrite lookup_insert_ne by lia. done.
  - rewrite lookup_insert_ne by done. intros Hk.
    destruct (Hok _ _ Hk). rewrite lookup_insert_ne by lia. by eapply Hflat.
Qed.

Lemma build_state_linked_initial config block_args :
  build_state_linked config block_args initial_build_state 0.
Proof.
  split; cbn; try done; try constructor.
  - intros rt d Hd.
    apply lookup_insert_Some in Hd as [[_ <-]|[_ Hd]];
      [apply reuse_dict_flat_empty|].
    apply lookup_singleton_Some in Hd as [_ <-]. apply reuse_dict_flat_empty.
  - intros rt [->| ->]; [by rewrite lookup_insert_eq|].
    rewrite lookup_insert_ne by done. by rewrite lookup_singleton_eq.
Qed.

(** The description of an earlier layer stays linked when the index of
    layer [b] is stored. *)
Lemma description_linked_store st b reuse_type idx d0 descs news desc :
  d0 = default ∅ (reuse_state_layer_idx_dicts st !! reuse_type) ->
  desc.1.1 <> b ->
  description_linked st desc ->
  description_linked
    {| reuse_state_layer_idx_dicts :=
         <[reuse_type := <[b := idx]> d0]> (reuse_state_layer_idx_dicts st);
       state_cache_layers :=
         <[reuse_type :=
             {[idx]} ∪ default ∅ (state_cache_layers st !! reuse_type)]>
           (state_cache_layers st);
       layer_description_list := descs;
       new_block_args_list := news |} desc.
Proof.
  intros -> Hne Hdesc a rt v Ha Hrt Hv.
  destruct (Hdesc a rt v Ha Hrt Hv) as (z & -> & Hz & Hd).
  exists z. split; [done|]. cbn.
  destruct (decide (rt = reuse_type)) as [->|Hrt'].
  - rewrite !lookup_insert_eq. cbn. split; [set_solver|].
    by rewrite lookup_insert_ne.
  - by rewrite !lookup_insert_ne.
Qed.

(** The description of a layer is linked to the state whatever the two
    lists of the state hold. *)
Lemma description_linked_lists st descs news desc :
  description_linked st desc ->
  description_linked
    {| reuse_state_layer_idx_dicts := reuse_state_layer_idx_dicts st;
       state_cache_layers := state_cache_layers st;
       layer_description_list := descs;
       new_block_args_list := news |} desc.
Proof. intros Hdesc a rt v Ha Hrt Hv. by apply (Hdesc a rt v). Qed.

Lemma build_layer_linked config bo block_args expanded i st st' :
  build_state_ok st (Z.of_nat i) ->
  build_state_linked config block_args st i ->
  build_layer config bo block_args expanded i st = Ok st' ->
  build_state_linked config block_args st' (S i).
Proof.
  intros Hok [Hflat Hcaches Hlen Hidx Hargs Hreuse].
  unfold build_layer.
  destruct (list_getitem expanded (Z.of_nat i)) as [name|]; [|done].
  cbn [mbind result_bind Py.bind].
  destruct (layer_override_config _ _ _ _ _) as [[oc st1]|] eqn:Hoc; [|done].
  cbn [mbind result_bind Py.bind].
  destruct (_override_block_args _ _ _) as [nb|] eqn:Hnb; [|done].
  cbn [mbind result_bind Py.bind]. intros [= <-].
  assert (Hlast : forall (j : nat) (desc : Z * string * dict),
    (layer_description_list st ++ [(Z.of_nat i, name, oc)]) !! j = Some desc ->
    desc.1.1 = Z.of_nat j).
  { intros j desc Hj. apply lookup_app_Some in Hj as [Hj|[Hge Hj]].
    - by apply Hidx.
    - rewrite Hlen in Hj, Hge. destruct (j - i)%nat eqn:Hji; [|done].
      injection Hj as <-. cbn. f_equal. lia. }
  assert (Hold : Forall (fun desc => desc.1.1 <> Z.of_nat i)
                   (layer_description_list st)).
  { apply Forall_forall. intros desc Hin.
    apply list_elem_of_lookup in Hin as [j Hj].
    rewrite (Hidx _ _ Hj). apply lookup_lt_Some in Hj. lia. }
  apply layer_override_config_cases in Hoc
    as [(-> & Hnone & Hfrom)
       |(ovs & d & a & rt & idx & d' & Hovs & Hd & Ha & Hrt & Hres & Hother
         & -> & ->)].
  - split; cbn; try done.
    + rewrite length_app, Hlen. simpl. lia.
    + apply Forall2_app; [done|]. by constructor.
    + apply Forall_app. split.
      * eapply Forall_impl; [exact Hreuse|].
        intros desc Hdesc. by apply (description_linked_lists st).
      * constructor; [|constructor]. intros a' rt v Ha' Hrt Hv. cbn in Ha'.
        by rewrite (Hnone _ _ Ha' Hrt) in Hv.
  - set (d0 := default ∅ (reuse_state_layer_idx_dicts st !! rt)) in *.
    assert (Hd0 : reuse_dict_ok d0 (Z.of_nat i) /\ reuse_dict_flat d0).
    { unfold d0.
      destruct (reuse_state_layer_idx_dicts st !! rt) as [dd|] eqn:Hdd; cbn.
      - split; [by eapply (dicts_ok _ _ Hok)|by eapply Hflat].
      - split; [apply reuse_dict_ok_empty|apply reuse_dict_flat_empty]. }
    destruct Hd0 as [Hd0ok Hd0flat].
    apply resolve_source in Hres as (j & Hj & -> & ->); [|done].
    split; cbn; try done.
    + intros rt' dd Hdd.
      apply lookup_insert_Some in Hdd as [[_ <-]|[_ Hdd]]; [|by eapply Hflat].
      by apply reuse_dict_flat_store.
    + intros rt' Hrt'. destruct (decide (rt' = rt)) as [->|Hne].
      * by rewrite lookup_insert_eq.
      * rewrite lookup_insert_ne by done. by apply Hcaches.
    + rewrite length_app, Hlen. simpl. lia.
    + apply Forall2_app; [done|]. by constructor.
    + apply Forall_app. split.
      * apply Forall_forall. intros desc Hin.
        apply (description_linked_store st (Z.of_nat i) rt
                 (default j (d0 !! j)) d0 _ _ desc eq_refl).
        -- eapply Forall_forall in Hold; [|exact Hin]. done.
        -- eapply Forall_forall in Hreuse; [|exact Hin]. done.
      * constructor; [|constructor]. intros a' rt' v Ha' Hrt' Hv.
        cbn in Ha'. rewrite dict_get_set_eq in Ha'. injection Ha' as <-.
        destruct (decide (rt' = rt)) as [->|Hne].
        -- rewrite dict_get_set_eq in Hv. injection Hv as <-.
           eexists. split; [done|]. cbn. rewrite !lookup_insert_eq. cbn.
           split; [|by rewrite lookup_insert_eq].
           apply elem_of_union. left. by apply elem_of_singleton.
        -- rewrite dict_get_set_ne in Hv by done.
           by rewrite (Hother rt' Hrt' Hne) in Hv.
Qed.

(** The overrides of a configuration with well-formed dictionaries are well
    formed, with the reuse index stored too. *)
Lemma build_layer_well_formed config bo block_args expanded i st st' :
  (forall ovs, bo_overrides bo = Some ovs -> well_formed (VDict ovs) = true) ->
  Forall (fun desc => args_well_formed desc.2) (layer_description_list st) ->
  build_layer config bo block_args expanded i st = Ok st' ->
  Forall (fun desc => args_well_formed desc.2) (layer_description_list st').
Proof.
  intros Hwf Hwfs. unfold build_layer.
  destruct (list_getitem expanded (Z.of_nat i)) as [name|]; [|done].
  cbn [mbind result_bind Py.bind].
  destruct (layer_override_config _ _ _ _ _) as [[oc st1]|] eqn:Hoc; [|done].
  cbn [mbind result_bind Py.bind].
  destruct (_override_block_args _ _ _) as [nb|] eqn:Hnb; [|done].
  cbn [mbind result_bind Py.bind]. intros [= <-]. cbn.
  apply layer_override_config_cases in Hoc
    as [(-> & Hnone & Hfrom)
       |(ovs & d & a & rt & idx & d' & Hovs & Hd & Ha & Hrt & Hres & Hother
         & -> & ->)];
    cbn; apply Forall_app; (split; [done|]); apply Forall_singleton; cbn.
  - destruct Hfrom as [->|(ovs & Hovs & Hd)]; [apply args_well_formed_nil|].
    apply Hwf in Hovs. apply well_formed_dict in Hovs as [_ Hall].
    apply args_well_formed_of. by eapply Hall.
  - apply args_well_formed_store; [|done].
    apply Hwf in Hovs. apply well_formed_dict in Hovs as [_ Hall].
    apply args_well_formed_of. by eapply Hall.
Qed.

Lemma build_layers_well_formed config bo block_args expanded indices st st' :
  (forall ovs, bo_overrides bo = Some ovs -> well_formed (VDict ovs) = true) ->
  Forall (fun desc => args_well_formed desc.2) (layer_description_list st) ->
  build_layers config bo block_args expanded indices st = Ok st' ->
  Forall (fun desc => args_well_formed desc.2) (layer_description_list st').
Proof.
  intros Hwf. revert st.
  induction indices as [|i indices IH]; intros st Hst; simpl.
  - by intros [= <-].
  - destruct (build_layer _ _ _ _ _ _) as [st1|] eqn:H1; [|done].
    cbn [mbind result_bind Py.bind]. apply IH.
    by eapply build_layer_well_formed.
Qed.

Lemma build_layers_linked config bo block_args expanded i n st st' :
  build_state_ok st (Z.of_nat i) ->
  build_state_linked config block_args st i ->
  build_layers config bo block_args expanded (seq i n) st = Ok st' ->
  build_state_linked config block_args st' (i + n).
Proof.
  revert i st.
  induction n as [|n IH]; intros i st Hok Hst; simpl.
  - intros [= <-]. by rewrite Nat.add_0_r.
  - destruct (build_layer _ _ _ _ _ _) as [st1|] eqn:H1; [|done].
    cbn [mbind result_bind Py.bind]. intros Hrest.
    pose proof (build_layer_linked _ _ _ _ _ _ _ Hok Hst H1) as Hst1.
    apply build_layer_ok in H1; [|done].
    apply IH in Hrest; [|done|done].
    by replace (i + S n)%nat with (S i + n)%nat by lia.
Qed.

(** What holds of the state that the construction returns. *)
Lemma override_block_args_list_linked config block_args st :
  _get_override_block_args_list config block_args = Ok st ->
  build_state_ok st (n_layers config)
  /\ build_state_linked config block_args st (Z.to_nat (n_layers config)).
Proof.
  unfold _get_override_block_args_list.
  destruct (block_overrides config) as [bo|]; [|done].
  destruct (bo_order bo) as [order|]; [|done].
  cbn [mbind result_bind Py.bind].
  destruct (_get_modules_order_expanded order) as [expanded|]; [|done].
  cbn [mbind result_bind Py.bind].
  destruct (Z.of_nat (length _) =? n_layers config) eqn:Hlen; [|done].
  apply Z.eqb_eq in Hlen. cbn [negb]. intros Hbuild. split.
  - apply (build_layers_ok _ _ _ _ 0%nat) in Hbuild;
      [|apply build_state_ok_initial].
    by replace (Z.of_nat (0 + Z.to_nat (n_layers config)))
      with (n_layers config) in Hbuild by lia.
  - apply (build_layers_linked _ _ _ _ 0%nat) in Hbuild;
      [done|apply build_state_ok_initial|apply build_state_linked_initial].
Qed.

Lemma override_block_args_list_well_formed config block_args st :
  (forall bo ovs, block_overrides config = Some bo ->
                  bo_overrides bo = Some ovs ->
                  well_formed (VDict ovs) = true) ->
  _get_override_block_args_list config block_args = Ok st ->
  Forall (fun desc => args_well_formed desc.2) (layer_description_list st).
Proof.
  intros Hwf. unfold _get_override_block_args_list.
  destruct (block_overrides config) as [bo|]; [|done].
  destruct (bo_order bo) as [order|]; [|done].
  cbn [mbind result_bind Py.bind].
  destruct (_get_modules_order_expanded order) as [expanded|]; [|done].
  cbn [mbind result_bind Py.bind].
  destruct (negb _); [done|].
  apply build_layers_well_formed; [|constructor].
  intros ovs Hovs. by apply (Hwf bo ovs).
Qed.

(** X10. The reuse chains are flattened to their source. When the
    construction returns, the reuse index stored in the override of a layer
    is an integer that names an earlier layer, that layer is in the set of
    layers whose state [forward] caches, and its own override holds no reuse
    index of the same kind: a layer never reuses the state of a layer that
    reuses it from elsewhere. *)
Theorem reuse_index_names_a_source config block_args st b_idx module_name oc
  a reuse_type v :
  _get_override_block_args_list config block_args = Ok st ->
  (b_idx, module_name, oc) ∈ layer_description_list st ->
  dict_get oc "attn_config" = Some (VDict a) ->
  is_reuse_type reuse_type -> dict_get a reuse_type = Some v ->
  exists idx layers,
    v = VInt idx /\ 0 <= idx < b_idx
    /\ state_cache_layers st !! reuse_type = Some layers /\ idx ∈ layers
    /\ forall name_idx oc_idx a_idx,
         (idx, name_idx, oc_idx) ∈ layer_description_list st ->
         dict_get oc_idx "attn_config" = Some (VDict a_idx) ->
         dict_get a_idx reuse_type = None.
Proof.
  intros Hst Hin Ha Hrt Hv.
  apply override_block_args_list_linked in Hst as [Hok Hlinked].
  destruct Hok as [_ _ Hdescs].
  destruct Hlinked as [Hflat Hcaches _ _ _ Hreuse].
  pose proof Hin as Hin'.
  eapply Forall_forall in Hin; [|exact Hreuse].
  destruct (Hin a reuse_type v Ha Hrt Hv) as (idx & -> & Hidx & Hd).
  eapply Forall_forall in Hin'; [|exact Hdescs].
  destruct (Hin' a reuse_type (VInt idx) Ha Hrt Hv) as (z & [= <-] & Hz).
  destruct (Hcaches _ Hrt) as [layers Hlayers].
  rewrite Hlayers in Hidx. cbn in Hidx, Hd, Hz.
  exists idx, layers. repeat (split; [done|]).
  intros name_idx oc_idx a_idx Hin_idx Ha_idx.
  destruct (dict_get a_idx reuse_type) as [v'|] eqn:Hv'; [|done].
  exfalso. eapply Forall_forall in Hin_idx; [|exact Hreuse].
  destruct (Hin_idx a_idx reuse_type v' Ha_idx Hrt Hv') as (z' & _ & _ & Hd').
  cbn in Hd'.
  destruct (reuse_state_layer_idx_dicts st !! reuse_type) as [d|] eqn:Hdict;
    cbn in Hd, Hd'; [|by rewrite lookup_empty in Hd].
  rewrite (Hflat _ _ Hdict _ _ Hd) in Hd'. done.
Qed.

Lemma reuse_index_names_a_source_witness :
  exists idx layers,
    VInt 0 = VInt idx /\ 0 <= idx < 2
    /\ state_cache_layers (built_state reuse_example example_block_args)
       !! "reuse_kv_layer_idx" = Some layers
    /\ idx ∈ layers
    /\ forall name_idx oc_idx a_idx,
         (idx, name_idx, oc_idx)
         ∈ layer_description_list
             (built_state reuse_example example_block_args) ->
         dict_get oc_idx "attn_config" = Some (VDict a_idx) ->
         dict_get a_idx "reuse_kv_layer_idx" = None.
Proof.
  apply (reuse_index_names_a_source reuse_example example_block_args
           (built_state reuse_example example_block_args) 2 "kv_reuse"
           [("attn_config", VDict [("reuse_kv_layer_idx", VInt 0)])]
           [("reuse_kv_layer_idx", VInt 0)] "reuse_kv_layer_idx" (VInt 0)).
  - reflexivity.
  - vm_compute. right. right. left.
  - reflexivity.
  - by left.
  - reflexivity.
Defined.

(** *** The caches of [forward] *)

(** A reuse attribute that [forward] can serve at layer [b]: none, or a
    layer before [b] that is cached. *)
Lemma check_cache_found (layers cache : gset Z) b attr :
  (forall z, z ∈ layers -> 0 <= z < b -> z ∈ cache) ->
  attr = VNone \/ (exists z, attr = VInt z /\ z ∈ layers /\ 0 <= z < b) ->
  check_cache cache attr = Ok tt.
Proof.
  intros Hcache [->|(z & -> & Hz & Hb)]; [done|].
  cbn. rewrite bool_decide_eq_true_2 by auto. done.
Qed.

Lemma forward_blocks_returns caches kv_layers kv_x_layers blocks b kv kvx :
  caches !! "reuse_kv_layer_idx" = Some kv_layers ->
  caches !! "reuse_kv_x_layer_idx" = Some kv_x_layers ->
  0 <= b ->
  (forall z, z ∈ kv_layers -> 0 <= z < b -> z ∈ kv) ->
  (forall z, z ∈ kv_x_layers -> 0 <= z < b -> z ∈ kvx) ->
  (forall (i : nat) block,
     blocks !! i = Some block ->
     (reuse_kv_layer_idx block = VNone
      \/ exists z, reuse_kv_layer_idx block = VInt z /\ z ∈ kv_layers
                   /\ 0 <= z < b + Z.of_nat i)
     /\ (reuse_kv_x_layer_idx block = VNone
         \/ exists z, reuse_kv_x_layer_idx block = VInt z /\ z ∈ kv_x_layers
                      /\ 0 <= z < b + Z.of_nat i)) ->
  is_Ok (forward_blocks caches b blocks kv kvx).
Proof.
  intros Hkv Hkvx. revert b kv kvx.
  induction blocks as [|block blocks IH]; intros b kv kvx Hb Hc Hcx Hblocks;
    [done|].
  cbn [forward_blocks]. unfold cache_layers. rewrite Hkv, Hkvx.
  destruct (Hblocks 0%nat block eq_refl) as [H1 H2].
  rewrite Z.add_0_r in H1, H2.
  rewrite (check_cache_found kv_layers kv b _ Hc H1).
  cbn [mbind result_bind Py.bind].
  rewrite (check_cache_found kv_x_layers _ b _); [|  |exact H2].
  2:{ intros z Hz Hzb. case_bool_decide; [|by apply Hcx].
      apply elem_of_union. right. by apply Hcx. }
  cbn [mbind result_bind Py.bind]. apply IH; [lia| | |].
  - intros z Hz Hzb. destruct (decide (z = b)) as [->|Hne].
    + rewrite bool_decide_eq_true_2 by done.
      apply elem_of_union. left. by apply elem_of_singleton.
    + case_bool_decide; [apply elem_of_union; right|]; apply Hc; (done || lia).
  - intros z Hz Hzb. destruct (decide (z = b)) as [->|Hne].
    + rewrite bool_decide_eq_true_2 by done.
      apply elem_of_union. left. by apply elem_of_singleton.
    + case_bool_decide; [apply elem_of_union; right|]; apply Hcx; (done || lia).
  - intros i blk Hi. specialize (Hblocks (S i) blk Hi).
    replace (b + 1 + Z.of_nat i) with (b + Z.of_nat (S i)) by lia. done.
Qed.

(** The reuse attribute of a block built by the construction. *)
Lemma built_block_attr config block_args st (i : nat) new reuse_type :
  args_well_formed block_args ->
  attn_arg block_args reuse_type = VNone ->
  is_reuse_type reuse_type ->
  build_state_ok st (n_layers config) ->
  build_state_linked config block_args st (Z.to_nat (n_layers config)) ->
  Forall (fun desc => args_well_formed desc.2) (layer_description_list st) ->
  new_block_args_list st !! i = Some new ->
  attn_arg new reuse_type = VNone
  \/ exists z, attn_arg new reuse_type = VInt z
               /\ z ∈ default ∅ (state_cache_layers st !! reuse_type)
               /\ 0 <= z < Z.of_nat i.
Proof.
  intros Hba Hnone Hrt [_ _ Hdescs] [_ _ _ Hidx Hargs Hreuse] Hwfs Hnew.
  destruct (Forall2_lookup_r _ _ _ _ _ Hargs Hnew) as (desc & Hdesc & Hmerge).
  pose proof (Hidx _ _ Hdesc) as Hi.
  apply list_elem_of_lookup_2 in Hdesc.
  eapply Forall_forall in Hdescs; [|exact Hdesc].
  eapply Forall_forall in Hreuse; [|exact Hdesc].
  eapply Forall_forall in Hwfs; [|exact Hdesc].
  rewrite (merged_attn_arg _ _ _ _ _ Hba Hwfs Hmerge Hnone).
  unfold attn_arg.
  destruct (dict_get desc.2 "attn_config") as [[| | | | | |a]|] eqn:Ha;
    try (by left).
  destruct (dict_get a reuse_type) as [v|] eqn:Hv; [|by left].
  destruct (Hreuse a reuse_type v Ha Hrt Hv) as (z & -> & Hz & _).
  destruct (Hdescs a reuse_type (VInt z) Ha Hrt Hv) as (z' & [= <-] & Hlt).
  right. exists z. cbn. split; [done|]. split; [done|]. lia.
Qed.

(** X11. [forward] finds every state that a block reuses. For a model
    whose blocks are built from the arguments that
    [_get_override_block_args_list] returns, when the arguments of the model
    themselves give no reuse index, the loop over the blocks never raises the
    [KeyError] of a missing cache: the layer that a block reuses is an
    earlier layer, and it is in [state_cache_layers], so that its state has
    been stored when the block asks for it. *)
Theorem forward_finds_reused_state config block_args st blocks :
  well_formed (VDict block_args) = true ->
  (forall bo ovs, block_overrides config = Some bo ->
                  bo_overrides bo = Some ovs ->
                  well_formed (VDict ovs) = true) ->
  attn_arg block_args "reuse_kv_layer_idx" = VNone ->
  attn_arg block_args "reuse_kv_x_layer_idx" = VNone ->
  _get_override_block_args_list config block_args = Ok st ->
  Forall2 block_reads (new_block_args_list st) blocks ->
  is_Ok (forward_blocks (state_cache_layers st) 0 blocks ∅ ∅).
Proof.
  intros Hba Hwf Hkv Hkvx Hst Hblocks.
  apply args_well_formed_of in Hba.
  pose proof (override_block_args_list_well_formed _ _ _ Hwf Hst) as Hwfs.
  apply override_block_args_list_linked in Hst as [Hok Hlinked].
  destruct (linked_caches _ _ _ _ Hlinked "reuse_kv_layer_idx")
    as [kv_layers Hkv_layers]; [by left|].
  destruct (linked_caches _ _ _ _ Hlinked "reuse_kv_x_layer_idx")
    as [kv_x_layers Hkv_x_layers]; [by right|].
  apply (forward_blocks_returns _ kv_layers kv_x_layers);
    [done|done|lia|intros z _ ?; lia|intros z _ ?; lia|].
  intros i blk Hblk.
  destruct (Forall2_lookup_r _ _ _ _ _ Hblocks Hblk)
    as (new & Hnew & Hreads1 & Hreads2).
  rewrite Hreads1, Hreads2, Z.add_0_l. split.
  - destruct (built_block_attr _ _ _ i new "reuse_kv_layer_idx" Hba Hkv
                ltac:(by left) Hok Hlinked Hwfs Hnew) as [H|H]; [by left|].
    right. by rewrite Hkv_layers in H.
  - destruct (built_block_attr _ _ _ i new "reuse_kv_x_layer_idx" Hba Hkvx
                ltac:(by right) Hok Hlinked Hwfs Hnew) as [H|H]; [by left|].
    right. by rewrite Hkv_x_layers in H.
Qed.

Lemma forward_finds_reused_state_witness :
  is_Ok (forward_blocks
           (state_cache_layers (built_state reuse_example example_block_args))
           0
           [ {| reuse_kv_layer_idx := VNone; reuse_kv_x_layer_idx := VNone |};
             {| reuse_kv_layer_idx := VInt 0; reuse_kv_x_layer_idx := VNone |};
             {| reuse_kv_layer_idx := VInt 0; reuse_kv_x_layer_idx := VNone |} ]
           ∅ ∅).
Proof.
  apply (forward_finds_reused_state reuse_example example_block_args
           (built_state reuse_example example_block_args)).
  - reflexivity.
  - intros bo ovs [= <-] [= <-]. reflexivity.
  - reflexivity.
  - reflexivity.
  - reflexivity.
  - repeat constructor.
Defined.


(** *** The targets of next-token prediction *)

(** X12. [get_targets] shifts every row by one position. The roll of the
    flattened labels carries the first label of a row to the end of the row
    before it (and the first label of the batch to the very end), and the
    assignment to the last column overwrites exactly these: for labels whose
    rows are not empty, the target at position [t] of a row is the label at
    position [t + 1] of the same row, the last target of every row is the
    ignore index, and the shape is the one of the labels. A row without
    entries makes the call raise. *)
Theorem get_targets_shifts_each_row labels :
  (Forall (fun row => row <> []) labels ->
   exists targets,
     get_targets labels = Ok targets
     /\ map length targets = map length labels
     /\ forall (b : nat) row,
          labels !! b = Some row ->
          exists target_row,
            targets !! b = Some target_row
            /\ last target_row = Some CROSS_ENTROPY_IGNORE_INDEX
            /\ forall t : nat,
                 (S t < length row)%nat -> target_row !! t = row !! S t)
  /\ ([] ∈ labels -> is_Raise (get_targets labels)).
Proof.
  split; [|apply get_targets_empty_row].
  intros Hrows. exists (shifted_targets labels).
  split; [by apply get_targets_shifted|]. unfold shifted_targets. split.
  - rewrite map_map. apply map_ext_in. intros row Hin.
    rewrite length_app, length_drop. cbn.
    assert (row <> []) as Hne.
    { eapply Forall_forall in Hrows; [done|]. by apply list_elem_of_In. }
    destruct row; [done|]. cbn. lia.
  - intros b row Hb. exists (drop 1 row ++ [CROSS_ENTROPY_IGNORE_INDEX]).
    split; [|split].
    + change (map ?f labels) with (f <$> labels).
      by rewrite list_lookup_fmap, Hb.
    + apply last_snoc.
    + intros t Ht. rewrite lookup_app_l by (rewrite length_drop; lia).
      rewrite lookup_drop. f_equal.
Qed.

Lemma get_targets_shifts_each_row_witness :
  (exists targets,
     get_targets [[1; 2; 3]; [4; 5; 6]] = Ok targets
     /\ map length targets = map length [[1; 2; 3]; [4; 5; 6]]
     /\ forall (b : nat) row,
          [[1; 2; 3]; [4; 5; 6]] !! b = Some row ->
          exists target_row,
            targets !! b = Some target_row
            /\ last target_row = Some CROSS_ENTROPY_IGNORE_INDEX
            /\ forall t : nat,
                 (S t < length row)%nat -> target_row !! t = row !! S t)
  /\ is_Raise (get_targets [[1; 2; 3]; []]).
Proof.
  split.
  - apply (proj1 (get_targets_shifts_each_row [[1; 2; 3]; [4; 5; 6]])).
    repeat constructor; discriminate.
  - apply (proj2 (get_targets_shifts_each_row [[1; 2; 3]; []])).
    right. left.
Defined.

(** *** Position ids under padding *)

Lemma sum_Z_app l1 l2 : sum_Z (l1 ++ l2) = sum_Z l1 + sum_Z l2.
Proof.
  unfold sum_Z. induction l1 as [|x l1 IH]; cbn; [done|].
  rewrite IH. lia.
Qed.

Lemma cumsum_Z_length acc row : length (cumsum_Z acc row) = length row.
Proof.
  revert acc. induction row as [|x row IH]; intros acc; cbn; [done|].
  by rewrite IH.
Qed.

(** The running sum at [n] is the sum of the entries up to [n]. *)
Lemma cumsum_Z_lookup acc row (n : nat) :
  (n < length row)%nat ->
  cumsum_Z acc row !! n = Some (acc + sum_Z (take (S n) row)).
Proof.
  revert acc n. induction row as [|x row IH]; intros acc n Hn;
    [cbn in Hn; lia|].
  destruct n as [|n]; cbn [cumsum_Z].
  - cbn [take]. rewrite sum_Z_cons. change (sum_Z []) with 0.
    rewrite Z.add_0_r. done.
  - rewrite lookup_cons_ne_0 by done. cbn [pred].
    rewrite IH by (cbn in Hn; lia).
    cbn [take]. rewrite (sum_Z_cons x). f_equal. lia.
Qed.

Lemma all_rows_Ok {A} (rows : list (list A)) :
  all_rows (map Ok rows) = Ok rows.
Proof.
  induction rows as [|r rows IH]; [done|]. cbn [map all_rows].
  rewrite IH. done.
Qed.

Lemma sum_padding_replicate_false n :
  sum_Z (padding_of (replicate n false)) = Z.of_nat n.
Proof.
  induction n as [|n IH]; [done|].
  cbn [replicate padding_of map]. rewrite sum_Z_cons.
  fold (padding_of (replicate n false)). rewrite IH. lia.
Qed.

Lemma sum_padding_replicate_true n :
  sum_Z (padding_of (replicate n true)) = 0.
Proof.
  induction n as [|n IH]; [done|].
  cbn [replicate padding_of map]. rewrite sum_Z_cons.
  fold (padding_of (replicate n true)). rewrite IH. lia.
Qed.

Lemma padding_of_take n row : padding_of (take n row) = take n (padding_of row).
Proof. unfold padding_of. by rewrite <- fmap_take. Qed.

(** The positions of one row of the batch. *)
Lemma position_row past S row :
  0 <= past -> 0 <= S -> Z.of_nat (length row) = past + S ->
  exists pos_b,
    broadcast_with Z.sub (seqZ past S)
      (slice_from past (cumsum_Z 0 (padding_of row))) = Ok pos_b
    /\ length pos_b = Z.to_nat S
    /\ forall i : nat,
         (i < Z.to_nat S)%nat ->
         pos_b !! i
         = Some (past + Z.of_nat i
                 - sum_Z (padding_of (take (Datatypes.S (Z.to_nat past + i)) row))).
Proof.
  intros Hpast HS Hlen. unfold broadcast_with, slice_from.
  destruct (0 <=? past) eqn:Hp; [|lia].
  assert (Hlens : length (seqZ past S)
                  = length (drop (Z.to_nat past)
                              (cumsum_Z 0 (padding_of row)))).
  { rewrite length_seqZ, length_drop, cumsum_Z_length.
    unfold padding_of. rewrite length_map. lia. }
  rewrite Hlens, Nat.eqb_refl. eexists. split; [done|]. split.
  - rewrite length_zip_with, <- Hlens, length_seqZ. lia.
  - intros i Hi. apply lookup_zip_with_Some.
    exists (past + Z.of_nat i),
      (sum_Z (padding_of (take (Datatypes.S (Z.to_nat past + i)) row))).
    split; [done|]. split.
    + apply lookup_seqZ. lia.
    + rewrite lookup_drop, cumsum_Z_lookup.
      * by rewrite padding_of_take.
      * unfold padding_of. rewrite length_map. lia.
Qed.

(** X13. The position ids of [MPTModel.forward] number the tokens that are
    not padded. With an attention mask of [past_position + S] columns and no
    [position_ids] given, the position of the token in column
    [past_position + i] is that column less the number of padded tokens up to
    and including it, and not less than 0. So in a row padded on the left by
    [p] tokens the tokens that follow get the positions 0, 1, 2, ... (the
    padded ones get 0), and in a row padded on the right every token before
    the padding keeps its column as position. *)
Theorem position_ids_skip_padding past S attention_mask :
  0 <= past -> 0 <= S ->
  Forall (fun row => Z.of_nat (length row) = past + S) attention_mask ->
  exists pos,
    forward_position_ids past S None (Some attention_mask) = Ok pos
    /\ length pos = length attention_mask
    /\ forall (b : nat) row,
         attention_mask !! b = Some row ->
         exists pos_b,
           pos !! b = Some pos_b /\ length pos_b = Z.to_nat S
           /\ (forall i : nat,
                 (i < Z.to_nat S)%nat ->
                 pos_b !! i
                 = Some (Z.max 0
                           (past + Z.of_nat i
                            - sum_Z (padding_of
                                       (take (Datatypes.S (Z.to_nat past + i)) row)))))
           /\ (forall p q (i : nat),
                 row = replicate p false ++ replicate q true ->
                 (i < Z.to_nat S)%nat ->
                 pos_b !! i
                 = Some (Z.max 0 (past + Z.of_nat i - Z.of_nat p)))
           /\ (forall p q (i : nat),
                 row = replicate q true ++ replicate p false ->
                 (i < Z.to_nat S)%nat -> past + Z.of_nat i < Z.of_nat q ->
                 pos_b !! i = Some (past + Z.of_nat i)).
Proof.
  intros Hpast HS Hrows. unfold forward_position_ids, broadcast_rows.
  set (padded := map (fun row => slice_from past
                                   (cumsum_Z 0 (padding_of row)))
                   attention_mask).
  assert (Hrowsb : forall b row, attention_mask !! b = Some row ->
            exists pos_b,
              broadcast_with Z.sub (seqZ past S)
                (slice_from past (cumsum_Z 0 (padding_of row))) = Ok pos_b
              /\ length pos_b = Z.to_nat S
              /\ forall i : nat,
                   (i < Z.to_nat S)%nat ->
                   pos_b !! i
                   = Some (past + Z.of_nat i
                           - sum_Z (padding_of
                                      (take (Datatypes.S (Z.to_nat past + i)) row)))).
  { intros b row Hb. apply position_row; [done|done|].
    eapply Forall_lookup in Hrows; [|exact Hb]. done. }
  assert (Hbroad : broadcast_with (broadcast_with Z.sub) [seqZ past S] padded
                   = Ok (map (broadcast_with Z.sub (seqZ past S)) padded)).
  { unfold broadcast_with at 1. destruct (_ =? _)%nat eqn:Hlen; [|done].
    apply Nat.eqb_eq in Hlen. destruct padded as [|r [|? ?]]; done. }
  rewrite Hbroad. cbn [mbind result_bind Py.bind].
  assert (Hall : exists rows,
            map (broadcast_with Z.sub (seqZ past S)) padded = map Ok rows
            /\ length rows = length attention_mask
            /\ forall b row, attention_mask !! b = Some row ->
                 exists pos_b,
                   rows !! b = Some pos_b
                   /\ broadcast_with Z.sub (seqZ past S)
                        (slice_from past (cumsum_Z 0 (padding_of row)))
                      = Ok pos_b).
  { unfold padded. clear Hbroad padded Hrows.
    induction attention_mask as [|row m IH].
    - exists []. split; [done|]. split; [done|]. intros b row Hb.
      by rewrite lookup_nil in Hb.
    - destruct (Hrowsb 0%nat row eq_refl) as (pos_b & Hpos & _).
      destruct IH as (rows & Hmap & Hlen & Hlook).
      { intros b r Hb. apply (Hrowsb (Datatypes.S b) r). done. }
      exists (pos_b :: rows). cbn [map]. rewrite Hpos, Hmap.
      split; [done|]. split; [cbn; by rewrite Hlen|].
      intros [|b] r Hb.
      + injection Hb as <-. eauto.
      + apply (Hlook b r Hb). }
  destruct Hall as (rows & -> & Hlen & Hlook).
  rewrite all_rows_Ok. cbn [mbind result_bind Py.bind].
  eexists. split; [done|]. split; [by rewrite length_map|].
  intros b row Hb.
  destruct (Hlook b row Hb) as (pos_b & Hposb & Hbr).
  destruct (Hrowsb b row Hb) as (pos_b' & Hbr' & Hlenb & Hpoint).
  rewrite Hbr in Hbr'. injection Hbr' as <-.
  assert (Hgeneral : forall i : nat,
    (i < Z.to_nat S)%nat ->
    map (Z.max 0) pos_b !! i
    = Some (Z.max 0
              (past + Z.of_nat i
               - sum_Z (padding_of (take (Datatypes.S (Z.to_nat past + i)) row))))).
  { intros i Hi. change (map ?f pos_b) with (f <$> pos_b).
    by rewrite list_lookup_fmap, (Hpoint i Hi). }
  exists (map (Z.max 0) pos_b).
  split; [|split; [by rewrite length_map|split; [exact Hgeneral|split]]].
  - change (map ?f rows) with (f <$> rows).
    by rewrite list_lookup_fmap, Hposb.
  - intros p q i -> Hi. rewrite (Hgeneral i Hi). f_equal.
    rewrite take_app, take_replicate, length_replicate.
    unfold padding_of. rewrite map_app. fold (padding_of (replicate (Datatypes.S (Z.to_nat past + i) `min` p) false)).
    rewrite sum_Z_app, take_replicate.
    fold (padding_of (replicate ((Datatypes.S (Z.to_nat past + i) - p) `min` q) true)).
    rewrite sum_padding_replicate_false, sum_padding_replicate_true. lia.
  - intros p q i -> Hi Hq. rewrite (Hgeneral i Hi). f_equal.
    rewrite take_app_le by (rewrite length_replicate; lia).
    rewrite take_replicate, sum_padding_replicate_true. lia.
Qed.

Lemma position_ids_skip_padding_witness :
  exists pos,
    forward_position_ids 0 5 None
      (Some [[false; false; true; true; true]; [true; true; true; true; false]])
    = Ok pos
    /\ length pos
       = length [[false; false; true; true; true];
                 [true; true; true; true; false]]
    /\ forall (b : nat) row,
         [[false; false; true; true; true]; [true; true; true; true; false]]
         !! b = Some row ->
         exists pos_b,
           pos !! b = Some pos_b /\ length pos_b = Z.to_nat 5
           /\ (forall i : nat,
                 (i < Z.to_nat 5)%nat ->
                 pos_b !! i
                 = Some (Z.max 0
                           (0 + Z.of_nat i
                            - sum_Z (padding_of
                                       (take (Datatypes.S (Z.to_nat 0 + i)) row)))))
           /\ (forall p q (i : nat),
                 row = replicate p false ++ replicate q true ->
                 (i < Z.to_nat 5)%nat ->
                 pos_b !! i
                 = Some (Z.max 0 (0 + Z.of_nat i - Z.of_nat p)))
           /\ (forall p q (i : nat),
                 row = replicate q true ++ replicate p false ->
                 (i < Z.to_nat 5)%nat -> 0 + Z.of_nat i < Z.of_nat q ->
                 pos_b !! i = Some (0 + Z.of_nat i)).
Proof.
  apply (position_ids_skip_padding 0 5
           [[false; false; true; true; true];
            [true; true; true; true; false]]).
  - lia.
  - lia.
  - repeat constructor.
Defined.

(** *** Sequence ids at padded positions *)

Lemma concat_lookup_of {A} (t : list (list A)) x :
  x ∈ concat t ->
  exists (b : nat) row (i : nat), t !! b = Some row /\ row !! i = Some x.
Proof.
  intros Hin. apply list_elem_of_In, in_concat in Hin as (row & Hrow & Hx).
  apply list_elem_of_In, list_elem_of_lookup in Hrow as [b Hb].
  apply list_elem_of_In, list_elem_of_lookup in Hx as [i Hi]. eauto.
Qed.

(** X14. The sequence ids of padded tokens do not matter to the
    sequence-id masking of flash attention. With a mask of the shape of the
    ids and without left padding, the generation of the sequence-id
    information returns when every token that is kept has an id that is not
    negative, whatever ids the padded tokens carry (the collator writes -1
    there); and a token that is kept with a negative id makes it raise the
    [RuntimeError] of [one_hot]. *)
Theorem padded_sequence_ids_are_ignored sequence_id S attention_mask :
  first_column_sum attention_mask = Ok (shape_first attention_mask) ->
  S = shape_last sequence_id ->
  map length sequence_id = map length attention_mask ->
  concat sequence_id <> [] ->
  ((forall (b t : nat) ids keep id,
      sequence_id !! b = Some ids -> attention_mask !! b = Some keep ->
      ids !! t = Some id -> keep !! t = Some true -> 0 <= id) ->
   is_Ok (gen_sequence_id_info (Some sequence_id) S true "flash"
            (Some attention_mask)))
  /\ (forall (b t : nat) ids keep id,
        sequence_id !! b = Some ids -> attention_mask !! b = Some keep ->
        ids !! t = Some id -> keep !! t = Some true -> id < 0 ->
        gen_sequence_id_info (Some sequence_id) S true "flash"
          (Some attention_mask)
        = Raise (RuntimeError "Class values must be non-negative.")).
Proof.
  intros Hfirst HS Hshape Hne.
  unfold gen_sequence_id_info, _get_attn_mask_in_len_seq_one_hot.
  cbn [andb]. rewrite bool_decide_eq_true_2 by done. rewrite Hfirst.
  cbn [mbind result_bind Py.bind]. rewrite Z.eqb_refl. cbn [negb].
  rewrite HS, Z.eqb_refl. cbn [negb].
  rewrite masked_fill_ids_same_shape by done.
  cbn [mbind result_bind Py.bind].
  set (masked := zip_with (zip_with (fun (id : Z) (keep : bool) =>
                                       if keep then id else 0))
                   sequence_id attention_mask).
  assert (Hmasked : concat masked <> []).
  { intros Hnil. apply Hne. apply length_zero_iff_nil.
    rewrite <- (length_concat_shape masked sequence_id);
      [by rewrite Hnil|]. unfold masked. by apply zip_rows_shape. }
  unfold one_hot. destruct (concat masked) as [|x xs] eqn:Hcat; [done|].
  rewrite <- Hcat. clear Hmasked. split.
  - intros Hkept.
    assert (existsb (fun id => id <? 0) (concat masked) = false) as ->.
    { apply not_true_iff_false. intros Hex.
      apply existsb_exists in Hex as (id & Hin & Hneg).
      apply Z.ltb_lt in Hneg.
      apply list_elem_of_In, concat_lookup_of in Hin
        as (b & row & t & Hb & Ht).
      apply lookup_zip_with_Some in Hb as (ids & keep & -> & Hids & Hkeep).
      apply lookup_zip_with_Some in Ht as (id0 & k & -> & Hid & Hk).
      destruct k; [|lia].
      specialize (Hkept b t ids keep id0 Hids Hkeep Hid Hk). lia. }
    cbn [mbind result_bind Py.bind]. unfold masked.
    rewrite masked_batch_hot by done. done.
  - intros b t ids keep id Hids Hkeep Hid Hk Hneg.
    assert (existsb (fun id => id <? 0) (concat masked) = true) as ->.
    { apply existsb_exists. exists id. split; [|by apply Z.ltb_lt].
      apply list_elem_of_In.
      apply (elem_of_concat_lookup masked b (zip_with (fun (id : Z) (keep : bool) => if keep then id else 0) ids keep) t).
      - apply lookup_zip_with_Some. eauto.
      - apply lookup_zip_with_Some. by exists id, true. }
    done.
Qed.

Lemma padded_sequence_ids_are_ignored_witness :
  is_Ok (gen_sequence_id_info (Some [[0; 0; 1; -1]; [0; 1; 1; 1]]) 4 true
           "flash"
           (Some [[true; true; true; false]; [true; true; true; true]]))
  /\ gen_sequence_id_info (Some [[0; -1; 1; -1]; [0; 1; 1; 1]]) 4 true
       "flash" (Some [[true; true; true; false]; [true; true; true; true]])
     = Raise (RuntimeError "Class values must be non-negative.").
Proof.
  split.
  - apply (proj1 (padded_sequence_ids_are_ignored
                    [[0; 0; 1; -1]; [0; 1; 1; 1]] 4
                    [[true; true; true; false]; [true; true; true; true]]
                    eq_refl eq_refl eq_refl ltac:(discriminate))).
    intros b t ids keep id Hids Hkeep Hid Hk.
    destruct b as [|[|b]]; simplify_eq/=;
      destruct t as [|[|[|[|t]]]]; simplify_eq/=; lia.
  - apply (proj2 (padded_sequence_ids_are_ignored
                    [[0; -1; 1; -1]; [0; 1; 1; 1]] 4
                    [[true; true; true; false]; [true; true; true; true]]
                    eq_refl eq_refl eq_refl ltac:(discriminate))
             0%nat 1%nat [0; -1; 1; -1] [true; true; true; false] (-1));
      [reflexivity|reflexivity|reflexivity|reflexivity|lia].
Defined.

(** *** The inputs of a generation step *)

Lemma last_column_Some {A} (t : list (list A)) :
  Forall (fun row => row <> []) t ->
  exists col, last_column t = Ok col /\ map last t = map Some col.
Proof.
  induction 1 as [|row t Hrow _ (col & Hcol & Hmap)]; [by exists []|].
  cbn [last_column]. destruct (last row) as [x|] eqn:Hx.
  - rewrite Hcol. exists (x :: col). split; [done|]. cbn. by rewrite Hx, Hmap.
  - by apply last_None in Hx.
Qed.

Lemma last_column_Raise {A} (t : list (list A)) e :
  last_column t = Raise e ->
  e = IndexError "index -1 is out of bounds for dimension 1 with size 0".
Proof.
  induction t as [|row t IH]; [done|]. cbn [last_column].
  destruct (last row); [|by intros [= <-]].
  destruct (last_column t); [done|]. cbn. intros [= <-]. by apply IH.
Qed.

(** A column of booleans sums to its length exactly when all are true. *)
Lemma sum_column_all_true (col : list bool) :
  sum_Z (map (fun keep : bool => if keep then 1 else 0) col)
  = Z.of_nat (length col)
  <-> Forall (fun keep => keep = true) col.
Proof.
  assert (Hle : forall c : list bool,
            0 <= sum_Z (map (fun keep : bool => if keep then 1 else 0) c)
            <= Z.of_nat (length c)).
  { induction c as [|[] c IH]; cbn [map length]; rewrite ?sum_Z_cons;
      [done|lia|lia]. }
  induction col as [|k col IH]; [done|].
  cbn [map length]. rewrite sum_Z_cons. specialize (Hle col). split.
  - intros Hsum. destruct k; [|lia]. constructor; [done|]. apply IH. lia.
  - intros Hall. apply Forall_cons in Hall as [-> Hall].
    apply IH in Hall. lia.
Qed.

(** X15. [prepare_inputs_for_generation] refuses right padding and hands
    on one kind of input. For an attention mask whose rows are not empty it
    raises [NotImplementedError] exactly when some row of the mask ends with
    a padded token. When it returns, it has set exactly one of [input_ids]
    and [inputs_embeds] ([inputs_embeds] only in the first step, when no
    past is given), and with a past the [input_ids] are the last token of
    each row, one column. *)
Theorem generation_inputs_prepared {Embeds Past : Type}
  (attn_uses_sequence_id training : bool) (input_ids : list (list Z))
  (past_key_values : option Past) (inputs_embeds : option Embeds)
  (attention_mask : list (list bool)) (use_cache : option bool) :
  Forall (fun row => row <> []) attention_mask ->
  (prepare_inputs_for_generation attn_uses_sequence_id training input_ids
     past_key_values inputs_embeds (Some attention_mask) use_cache
   = Raise (NotImplementedError
              "MPT does not support generation with right padding.")
   <-> exists row, row ∈ attention_mask /\ last row = Some false)
  /\ forall inputs,
       prepare_inputs_for_generation attn_uses_sequence_id training input_ids
         past_key_values inputs_embeds (Some attention_mask) use_cache
       = Ok inputs ->
       Forall (fun row => last row = Some true) attention_mask
       /\ mi_attention_mask inputs = attention_mask
       /\ (mi_input_ids inputs = None <-> is_Some (mi_inputs_embeds inputs))
       /\ (is_Some (mi_inputs_embeds inputs) ->
           past_key_values = None /\ mi_inputs_embeds inputs = inputs_embeds)
       /\ (past_key_values = None -> inputs_embeds = None ->
           mi_input_ids inputs = Some input_ids)
       /\ (is_Some past_key_values ->
           exists ids,
             mi_input_ids inputs = Some ids
             /\ map Some ids = map (fun row => (fun x => [x]) <$> last row)
                                 input_ids).
Proof.
  intros Hrows. unfold prepare_inputs_for_generation.
  cbn [mbind result_bind Py.bind].
  destruct (last_column_Some attention_mask Hrows) as (col & -> & Hcol).
  cbn [mbind result_bind Py.bind].
  assert (Hlen : shape_first attention_mask = Z.of_nat (length col)).
  { unfold shape_first. apply (f_equal length) in Hcol.
    rewrite !length_map in Hcol. by rewrite Hcol. }
  assert (Hall : Forall (fun keep => keep = true) col
                 <-> Forall (fun row => last row = Some true) attention_mask).
  { rewrite !Forall_lookup. split.
    - intros Hc i row Hi.
      assert (Hl : map last attention_mask !! i = Some (last row)).
      { change (map ?f ?l) with (f <$> l).
        by rewrite list_lookup_fmap, Hi. }
      rewrite Hcol in Hl. change (map ?f ?l) with (f <$> l) in Hl.
      rewrite list_lookup_fmap in Hl.
      destruct (col !! i) as [k|] eqn:Hk; [|done].
      injection Hl as <-. by rewrite (Hc i k Hk).
    - intros Hm i k Hi.
      assert (Hl : map Some col !! i = Some (Some k)).
      { change (map ?f ?l) with (f <$> l).
        by rewrite list_lookup_fmap, Hi. }
      rewrite <- Hcol in Hl. change (map ?f ?l) with (f <$> l) in Hl.
      rewrite list_lookup_fmap in Hl.
      destruct (attention_mask !! i) as [row|] eqn:Hrow; [|done].
      injection Hl as Hl. rewrite (Hm i row Hrow) in Hl. by injection Hl. }
  rewrite Hlen.
  destruct (sum_Z _ =? Z.of_nat (length col)) eqn:Hsum; cbn [negb].
  - apply Z.eqb_eq, sum_column_all_true, Hall in Hsum. split.
    + split.
      * destruct past_key_values; [|done].
        destruct (last_column input_ids) as [c|e] eqn:Hc; [done|].
        apply last_column_Raise in Hc as ->. done.
      * intros (row & Hin & Hlast).
        eapply Forall_forall in Hsum; [|exact Hin]. congruence.
    + intros inputs Hinputs. split; [done|].
      destruct past_key_values as [past|].
      * destruct (last_column input_ids) as [c|] eqn:Hc; [|done].
        cbn [mbind result_bind Py.bind] in Hinputs. injection Hinputs as <-.
        cbn. split; [done|].
        split; [by destruct inputs_embeds; split; [|intros []|..]|].
        split; [by destruct inputs_embeds; intros []|].
        split; [done|]. intros _.
        exists (map (fun x => [x]) c).
        split; [by destruct inputs_embeds|].
        clear -Hc. revert c Hc.
        induction input_ids as [|row t IH]; intros c;
          cbn [last_column map]; [by intros [= <-]|].
        destruct (last row) as [x|]; [|done].
        destruct (last_column t) as [c'|]; [|done].
        cbn [mbind result_bind Py.bind]. intros [= <-]. cbn.
        by rewrite (IH c').
      * cbn [mbind result_bind Py.bind] in Hinputs. injection Hinputs as <-.
        cbn. split; [done|]. destruct inputs_embeds as [e|].
        -- split; [split; [eauto|done]|]. split; [done|].
           split; [done|]. by intros [].
        -- split; [split; [done|by intros []]|]. split; [by intros []|].
           split; [done|]. by intros [].
  - split.
    + split; [|done]. intros _. apply Z.eqb_neq in Hsum.
      rewrite sum_column_all_true, Hall in Hsum.
      apply not_Forall_Exists in Hsum; [|intros row; apply _].
      apply Exists_exists in Hsum as (row & Hin & Hlast).
      exists row. split; [done|].
      eapply Forall_forall in Hrows; [|exact Hin].
      destruct (last row) as [[]|] eqn:Hl; [done|done|].
      by apply last_None in Hl.
    + intros inputs. done.
Qed.

Lemma generation_inputs_prepared_witness :
  (prepare_inputs_for_generation (Embeds := unit) (Past := unit) false false
     [[7; 8; 9]] None None (Some [[true; true; false]]) None
   = Raise (NotImplementedError
              "MPT does not support generation with right padding.")
   <-> exists row, row ∈ [[true; true; false]] /\ last row = Some false)
  /\ Forall (fun row => last row = Some true) [[false; true; true]]
  /\ (exists ids,
        Some [[9]] = Some ids
        /\ map Some ids
           = map (fun row => (fun x => [x]) <$> last row) [[7; 8; 9]]).
Proof.
  split; [|split].
  - apply (generation_inputs_prepared (Embeds := unit) (Past := unit) false
             false [[7; 8; 9]] None None [[true; true; false]] None).
    repeat constructor; discriminate.
  - apply (proj2 (generation_inputs_prepared (Embeds := unit) (Past := unit)
                    false false [[7; 8; 9]] (Some tt) None
                    [[false; true; true]] None
                    ltac:(repeat constructor; discriminate))
             {| mi_input_ids := Some [[9]]; mi_inputs_embeds := None;
                mi_attention_mask := [[false; true; true]];
                mi_sequence_id := None; mi_past_key_values := Some tt;
                mi_use_cache := true |} eq_refl).
  - apply (proj2 (generation_inputs_prepared (Embeds := unit) (Past := unit)
                    false false [[7; 8; 9]] (Some tt) None
                    [[false; true; true]] None
                    ltac:(repeat constructor; discriminate))
             {| mi_input_ids := Some [[9]]; mi_inputs_embeds := None;
                mi_attention_mask := [[false; true; true]];
                mi_sequence_id := None; mi_past_key_values := Some tt;
                mi_use_cache := true |} eq_refl).
    eauto.
Defined.

(** X16. In training mode with [attn_uses_sequence_id], a generation step
    with a past cannot pass the sequence-id masking of flash attention.
    [prepare_inputs_for_generation] builds [sequence_id] from the whole
    [input_ids] and then cuts [input_ids] to its last column, so that
    [forward] sees a sequence length of 1: unless [input_ids] had one column,
    [gen_sequence_id_info] raises (the length of the sequence ids does not
    match, when the check for left padding has not raised before). *)
Theorem generation_step_sequence_id_mismatch {Embeds Past : Type}
  (input_ids : list (list Z)) (past : Past) (inputs_embeds : option Embeds)
  (attention_mask : list (list bool)) (use_cache : option bool)
  (inputs : ModelInputs Embeds Past) :
  prepare_inputs_for_generation true true input_ids (Some past) inputs_embeds
    (Some attention_mask) use_cache = Ok inputs ->
  shape_last input_ids <> 1 ->
  (exists ids,
     mi_input_ids inputs = Some ids
     /\ Forall (fun row => length row = 1%nat) ids)
  /\ (exists sequence_id,
        mi_sequence_id inputs = Some sequence_id
        /\ shape_last sequence_id = shape_last input_ids)
  /\ is_Raise (gen_sequence_id_info (mi_sequence_id inputs) 1 true "flash"
                 (Some (mi_attention_mask inputs))).
Proof.
  unfold prepare_inputs_for_generation. cbn [mbind result_bind Py.bind andb].
  destruct (last_column attention_mask) as [col|]; [|done].
  cbn [mbind result_bind Py.bind].
  destruct (negb _); [done|].
  destruct (last_column input_ids) as [c|]; [|done].
  cbn [mbind result_bind Py.bind]. intros [= <-] Hlen.
  cbn [mi_input_ids mi_sequence_id mi_attention_mask].
  assert (Hshape : shape_last (map (map (fun _ : Z => 0)) (take 1 input_ids))
                   = shape_last input_ids).
  { destruct input_ids as [|row t]; [done|]. cbn. by rewrite length_map. }
  split; [|split].
  - exists (map (fun x => [x]) c). split; [by destruct inputs_embeds|].
    apply Forall_forall. intros row Hin.
    apply list_elem_of_In, in_map_iff in Hin as (x & <- & _). done.
  - eauto.
  - unfold gen_sequence_id_info, _get_attn_mask_in_len_seq_one_hot.
    cbn [andb]. rewrite bool_decide_eq_true_2 by done.
    destruct (first_column_sum attention_mask) as [s|]; [|by cbn].
    cbn [mbind result_bind Py.bind].
    destruct (negb (s =? shape_first attention_mask)); [by cbn|].
    rewrite Hshape.
    destruct (1 =? shape_last input_ids) eqn:H1; [|by cbn].
    apply Z.eqb_eq in H1. congruence.
Qed.

Lemma generation_step_sequence_id_mismatch_witness :
  (exists ids,
     Some [[9]] = Some ids /\ Forall (fun row => length row = 1%nat) ids)
  /\ (exists sequence_id,
        Some [[0; 0; 0]] = Some sequence_id
        /\ shape_last sequence_id = shape_last [[7; 8; 9]])
  /\ is_Raise (gen_sequence_id_info (Some [[0; 0; 0]]) 1 true "flash"
                 (Some [[true; true; true]])).
Proof.
  apply (generation_step_sequence_id_mismatch (Embeds := unit) [[7; 8; 9]] tt
           None [[true; true; true]] None
           {| mi_input_ids := Some [[9]]; mi_inputs_embeds := None;
              mi_attention_mask := [[true; true; true]];
              mi_sequence_id := Some [[0; 0; 0]];
              mi_past_key_values := Some tt; mi_use_cache := true |}).
  - reflexivity.
  - discriminate.
Defined.


(** *** The segment lengths of a row *)

Lemma sum_Z_coords l :
  sum_Z l = sum_Z (map (coord l) (seq 0 (length l))).
Proof.
  induction l as [|x l IH]; [done|].
  cbn [length seq map]. rewrite !sum_Z_cons, coord_cons_0.
  rewrite <- seq_shift, map_map. f_equal. rewrite IH at 1.
  f_equal.
Qed.

Lemma sum_Z_map_add {A} (f g : A -> Z) l :
  sum_Z (map (fun x => f x + g x) l) = sum_Z (map f l) + sum_Z (map g l).
Proof.
  induction l as [|x l IH]; [done|].
  cbn [map]. rewrite !sum_Z_cons, IH. lia.
Qed.

(** Among the numbers below [N], one is [id] when [id] is in range. *)
Lemma sum_indicator (id : Z) (N : nat) :
  sum_Z (map (fun n : nat => if bool_decide (id = Z.of_nat n) then 1 else 0)
           (seq 0 N))
  = if bool_decide (0 <= id < Z.of_nat N) then 1 else 0.
Proof.
  induction N as [|N IH].
  - cbn. by rewrite bool_decide_eq_false_2 by lia.
  - rewrite seq_S, map_app, sum_Z_app, IH. cbn [map Nat.add].
    rewrite sum_Z_cons. change (sum_Z []) with 0.
    repeat case_bool_decide; lia.
Qed.

Lemma sum_Z_map_zero {A} (l : list A) : sum_Z (map (fun _ => 0) l) = 0.
Proof.
  induction l as [|x l IH]; [done|]. cbn [map]. by rewrite sum_Z_cons, IH.
Qed.

Lemma segment_count_cons id ids (k : bool) keep c :
  segment_count (id :: ids) (k :: keep) c
  = (if k && bool_decide (id = c) then 1 else 0) + segment_count ids keep c.
Proof. unfold segment_count. cbn [zip_with]. by rewrite sum_Z_cons. Qed.

(** The segments with ids below [N] hold every token that is kept, when
    the ids of these tokens are below [N]. *)
Lemma segment_counts_total ids keep (N : nat) :
  (forall (t : nat) id, ids !! t = Some id -> keep !! t = Some true ->
                        0 <= id < Z.of_nat N) ->
  sum_Z (map (fun n : nat => segment_count ids keep (Z.of_nat n)) (seq 0 N))
  = sum_Z (zip_with (fun (_ : Z) (k : bool) => if k then 1 else 0) ids keep).
Proof.
  revert keep. induction ids as [|id ids IH]; intros keep Hkept.
  - unfold segment_count. cbn [zip_with]. change (sum_Z []) with 0.
    apply sum_Z_map_zero.
  - destruct keep as [|k keep].
    + unfold segment_count. cbn [zip_with]. change (sum_Z []) with 0.
      apply sum_Z_map_zero.
    + cbn [zip_with]. rewrite sum_Z_cons.
      rewrite <- (IH keep) by (intros t i Hi Hk; apply (Hkept (S t) i Hi Hk)).
      erewrite map_ext; [|intros n; apply segment_count_cons].
      rewrite (sum_Z_map_add
                 (fun n : nat =>
                    if k && bool_decide (id = Z.of_nat n) then 1 else 0)).
      f_equal. destruct k; cbn [andb].
      * rewrite sum_indicator. rewrite bool_decide_eq_true_2; [done|].
        by apply (Hkept 0%nat id).
      * apply sum_Z_map_zero.
Qed.

(** No token that is kept carries the id [c]. *)
Lemma segment_count_zero ids keep c :
  (forall (t : nat) id, ids !! t = Some id -> keep !! t = Some true ->
                        id <> c) ->
  segment_count ids keep c = 0.
Proof.
  revert keep. induction ids as [|id ids IH]; intros keep Hkept; [done|].
  destruct keep as [|k keep]; [done|].
  rewrite segment_count_cons.
  rewrite IH by (intros t i Hi Hk; apply (Hkept (S t) i Hi Hk)).
  destruct k; [|done]. cbn [andb].
  rewrite bool_decide_eq_false_2; [done|]. by apply (Hkept 0%nat id).
Qed.

Lemma coord_pad_right_zero m v (n : nat) :
  0 <= m -> (length v <= n)%nat -> coord (pad_right m v) n = 0.
Proof.
  intros Hm Hn. unfold pad_right, coord.
  destruct (0 <=? m) eqn:H0; [|lia].
  rewrite lookup_app_r by done.
  destruct (replicate (Z.to_nat m) 0 !! (n - length v)%nat) as [x|] eqn:Hx;
    [|done].
  apply lookup_replicate in Hx as [-> _]. done.
Qed.

Lemma length_pad_right_to S v :
  0 <= S -> Z.of_nat (length (pad_right (S - Z.of_nat (length v)) v)) = S.
Proof.
  intros HS. unfold pad_right.
  destruct (0 <=? S - Z.of_nat (length v)) eqn:H0.
  - apply Z.leb_le in H0. rewrite length_app, length_replicate. lia.
  - apply Z.leb_gt in H0. rewrite length_take. lia.
Qed.

(** X19. The first output of [gen_sequence_id_info] counts the tokens of
    every sequence. Under active sequence-id masking, for a mask of the
    shape of the sequence ids (or without a mask), each row of
    [attention_mask_in_length] has [S] entries, and for every [n] below [S]
    the entry [n] is the number of tokens of the row that are not padded and
    carry the sequence id [n]; so the entries are not negative, and when the
    ids of the tokens kept are below [S] they add up to the number of tokens
    of the row that are not padded. The positions have the shape of the
    sequence ids. (For a mask of another shape the two are broadcast, and
    the outputs have the rows of the broadcast shape.) *)
Theorem segment_lengths_count_tokens sequence_id S mask lens pos :
  map length sequence_id = map length (effective_mask sequence_id mask) ->
  gen_sequence_id_info (Some sequence_id) S true "flash" mask
  = Ok (Some lens, pos) ->
  length lens = length sequence_id
  /\ map length pos = map length sequence_id
  /\ forall (b : nat) ids keep,
       sequence_id !! b = Some ids ->
       effective_mask sequence_id mask !! b = Some keep ->
       exists lens_b,
         lens !! b = Some lens_b
         /\ Z.of_nat (length lens_b) = S
         /\ (forall n : nat,
               Z.of_nat n < S ->
               lens_b !! n = Some (segment_count ids keep (Z.of_nat n)))
         /\ Forall (fun len => 0 <= len) lens_b
         /\ ((forall (t : nat) id,
                ids !! t = Some id -> keep !! t = Some true -> id < S) ->
             sum_Z lens_b
             = sum_Z (zip_with (fun (_ : Z) (k : bool) => if k then 1 else 0)
                        ids keep)).
Proof.
  intros Hshape. unfold gen_sequence_id_info.
  destruct (_get_attn_mask_in_len_seq_one_hot _ _ _ _ _) as [r|] eqn:Hr;
    [|done].
  cbn [mbind result_bind Py.bind].
  apply active_result in Hr as (C & HC & HS & Hbound & Hwidth & ->);
    [|done].
  cbn [fst snd]. intros [= <- <-].
  assert (HS0 : 0 <= S).
  { rewrite HS. unfold shape_last. destruct sequence_id; lia. }
  split; [|split].
  - rewrite length_map, length_zip_with.
    apply (f_equal length) in Hshape. rewrite !length_map in Hshape. lia.
  - unfold pos_id_within_seq_of. rewrite map_map.
    rewrite <- (zip_rows_shape (hot C) sequence_id
                  (effective_mask sequence_id mask) Hshape).
    apply map_ext. intros row.
    rewrite length_map, length_zip_with.
    unfold cumsum_dim1. rewrite length_cumsum_from. lia.
  - intros b ids keep Hids Hkeep.
    assert (Hrow : zip_with (zip_with (hot C)) sequence_id
                     (effective_mask sequence_id mask) !! b
                   = Some (zip_with (hot C) ids keep)).
    { apply lookup_zip_with_Some. eauto. }
    set (v := sum_dim1 (Z.to_nat C) (zip_with (hot C) ids keep)).
    pose proof (sum_dim1_spec (Z.to_nat C) (zip_with (hot C) ids keep)
                  (hot_row_lengths _ _ _)) as [Hlenv _].
    fold v in Hlenv.
    exists (pad_right (S - Z.of_nat (Z.to_nat C)) v).
    assert (Hentry : forall n : nat,
      Z.of_nat n < S ->
      pad_right (S - Z.of_nat (Z.to_nat C)) v !! n
      = Some (segment_count ids keep (Z.of_nat n))).
    { intros n Hn.
      assert (Hlook : is_Some (pad_right (S - Z.of_nat (Z.to_nat C)) v !! n)).
      { apply lookup_lt_is_Some. rewrite <- Hlenv at 1.
        pose proof (length_pad_right_to S v HS0). lia. }
      destruct Hlook as [x Hx]. rewrite Hx. f_equal.
      assert (x = coord (pad_right (S - Z.of_nat (Z.to_nat C)) v) n) as ->.
      { unfold coord. by rewrite Hx. }
      destruct (decide (Z.of_nat n < C)) as [HnC|HnC].
      - rewrite <- Hlenv at 1. rewrite coord_pad_right by lia.
        unfold v. by rewrite row_segment_length.
      - rewrite coord_pad_right_zero by lia.
        symmetry. apply segment_count_zero. intros t id Hid Hk.
        specialize (Hbound b ids keep t id Hids Hkeep Hid Hk). lia. }
    split.
    { change (map ?f ?l) with (f <$> l).
      rewrite list_lookup_fmap, Hrow. done. }
    split.
    { rewrite <- Hlenv at 1. by apply length_pad_right_to. }
    split; [exact Hentry|]. split.
    + apply Forall_lookup. intros n x Hx.
      assert (Hn : Z.of_nat n < S).
      { apply lookup_lt_Some in Hx.
        pose proof (length_pad_right_to S v HS0) as Hl.
        rewrite <- Hlenv in Hx at 1. lia. }
      rewrite (Hentry n Hn) in Hx. injection Hx as <-.
      apply segment_count_nonneg.
    + intros Hbelow. rewrite sum_Z_coords.
      assert (Hl : length (pad_right (S - Z.of_nat (Z.to_nat C)) v)
                   = Z.to_nat S).
      { pose proof (length_pad_right_to S v HS0) as Hl.
        rewrite <- Hlenv at 1. lia. }
      rewrite Hl.
      rewrite <- (segment_counts_total ids keep (Z.to_nat S)).
      * f_equal. apply map_ext_in. intros n Hn. apply in_seq in Hn.
        unfold coord. rewrite (Hentry n) by lia. done.
      * intros t id Hid Hk.
        specialize (Hbound b ids keep t id Hids Hkeep Hid Hk).
        specialize (Hbelow t id Hid Hk). lia.
Qed.

Lemma segment_lengths_count_tokens_witness :
  length [[2; 3; 0; 0; 0; 0]] = length [[0; 0; 1; 1; 1; 7]]
  /\ map length [[0; 1; 0; 1; 2; -1]] = map length [[0; 0; 1; 1; 1; 7]]
  /\ forall (b : nat) ids keep,
       [[0; 0; 1; 1; 1; 7]] !! b = Some ids ->
       effective_mask [[0; 0; 1; 1; 1; 7]]
         (Some [[true; true; true; true; true; false]]) !! b = Some keep ->
       exists lens_b,
         [[2; 3; 0; 0; 0; 0]] !! b = Some lens_b
         /\ Z.of_nat (length lens_b) = 6
         /\ (forall n : nat,
               Z.of_nat n < 6 ->
               lens_b !! n = Some (segment_count ids keep (Z.of_nat n)))
         /\ Forall (fun len => 0 <= len) lens_b
         /\ ((forall (t : nat) id,
                ids !! t = Some id -> keep !! t = Some true -> id < 6) ->
             sum_Z lens_b
             = sum_Z (zip_with (fun (_ : Z) (k : bool) => if k then 1 else 0)
                        ids keep)).
Proof.
  apply (segment_lengths_count_tokens [[0; 0; 1; 1; 1; 7]] 6
           (Some [[true; true; true; true; true; false]])
           [[2; 3; 0; 0; 0; 0]] [[0; 1; 0; 1; 2; -1]]).
  - reflexivity.
  - reflexivity.
Defined.

End ModelingMptExtras.
